(** * Markprompt: ingestion pipeline, website crawler and KWIC snippets

    A shallow embedding of

    - the path and URL helpers of the utilities module
      ([getFileExtension], [isSupportedFileType], [matchesGlobs],
      [shouldIncludeFileWithPath], [isHrefFromBaseUrl],
      [completeHrefWithBaseUrl], [createChecksum]),
    - [createKWICSnippet] of the search endpoint and the grouping of the
      matches by file in its handler,
    - the training context ([_generateEmbeddingForFile],
      [generateEmbeddings], [_trainSource], [trainAllSources],
      [stopGeneratingEmbeddings]),
    - further helpers of the utilities module ([truncate],
      [truncateMiddle], [generateHint], [getFileType],
      [removeFileExtension], [parseGitHubURL],
      [getGitHubOwnerRepoString], [splitIntoSubstringsOfMaxLength],
      [getAuthorizationToken], [stringToLLMInfo], [getCompletionsUrl],
      [objectEquals], [getTimeIntervals]).

    JavaScript strings are modelled by [string]: a sequence of code units,
    restricted here to the Latin-1 range.  Third-party code (minimatch, the
    WHATWG [URL] parser, remark with strip-markdown, the SHA-256 digest,
    the integrations and the embedding endpoint) enters as Section
    variables; the limiter of the p-limit package is modelled by its
    queue.  The file has three parts: the embedding of the code, the
    vocabulary of the properties with the concrete runs, and the
    properties. *)

From Stdlib Require Import Bool Arith ZArith List Lia String Ascii.
Import ListNotations.
Local Open Scope string_scope.
Local Open Scope bool_scope.

(** ** JavaScript string primitives *)

Module JsString.

(** [s.startsWith(p)] *)
Fixpoint startsWith (s p : string) {struct p} : bool :=
  match p with
  | EmptyString => true
  | String a p' =>
      match s with
      | EmptyString => false
      | String b s' => Ascii.eqb a b && startsWith s' p'
      end
  end.

(** [s.indexOf(needle)]: position of the first occurrence, [None] for -1. *)
Fixpoint indexOf_from (needle s : string) (pos : nat) : option nat :=
  if startsWith s needle then Some pos
  else match s with
       | EmptyString => None
       | String _ t => indexOf_from needle t (S pos)
       end.

Definition indexOf (s needle : string) : option nat :=
  indexOf_from needle s 0.

(** [s.includes(sub)] *)
Definition includes (s sub : string) : bool :=
  match indexOf s sub with Some _ => true | None => false end.

(** [s.endsWith(suf)] *)
Fixpoint endsWith (s suf : string) : bool :=
  String.eqb s suf ||
  match s with
  | EmptyString => false
  | String _ t => endsWith t suf
  end.

(** [s.slice(a, b)] for non-negative [a] and [b]. *)
Fixpoint drop (n : nat) (s : string) : string :=
  match n, s with
  | O, _ => s
  | S _, EmptyString => EmptyString
  | S k, String _ t => drop k t
  end.

Fixpoint take (n : nat) (s : string) : string :=
  match n, s with
  | O, _ => EmptyString
  | S _, EmptyString => EmptyString
  | S k, String c t => String c (take k t)
  end.

Definition slice (s : string) (a b : nat) : string :=
  take (b - a) (drop a s).

(** [s.split(sep)] for a one-character separator. *)
Fixpoint split_on (sep : ascii) (s : string) (cur : string) : list string :=
  match s with
  | EmptyString => [cur]
  | String c t =>
      if Ascii.eqb c sep then cur :: split_on sep t EmptyString
      else split_on sep t (cur ++ String c EmptyString)
  end.

Definition split (s : string) (sep : ascii) : list string :=
  split_on sep s EmptyString.

(** [words.join(sep)] *)
Fixpoint join (sep : string) (ws : list string) : string :=
  match ws with
  | [] => EmptyString
  | [w] => w
  | w :: rest => w ++ sep ++ join sep rest
  end.

(** The regular-expression class [\w]. *)
Definition isWordChar (c : ascii) : bool :=
  let n := nat_of_ascii c in
  ((48 <=? n)%nat && (n <=? 57)%nat) || ((65 <=? n)%nat && (n <=? 90)%nat) ||
  ((97 <=? n)%nat && (n <=? 122)%nat) || (n =? 95)%nat.

(** The regular-expression class [\s] on Latin-1 code units. *)
Definition isSpace (c : ascii) : bool :=
  let n := nat_of_ascii c in
  ((9 <=? n)%nat && (n <=? 13)%nat) || (n =? 32)%nat || (n =? 160)%nat.

(** The regular-expression class [[a-zA-Z]]. *)
Definition isAlpha (c : ascii) : bool :=
  let n := nat_of_ascii c in
  ((65 <=? n)%nat && (n <=? 90)%nat) || ((97 <=? n)%nat && (n <=? 122)%nat).

Fixpoint all_chars (p : ascii -> bool) (s : string) : bool :=
  match s with
  | EmptyString => true
  | String c t => p c && all_chars p t
  end.

End JsString.

(** ** Path and URL helpers (utilities module) *)

Module Utils.
Import JsString.

(** The first capture group of the extension pattern (a dot, then word
    characters up to the end of the string): the match starts at the
    leftmost dot that is followed only by word characters. *)
Fixpoint getFileExtension (pathOrName : string) : option string :=
  match pathOrName with
  | EmptyString => None
  | String c t =>
      if Ascii.eqb c "."%char && all_chars isWordChar t then Some t
      else getFileExtension t
  end.

Definition SUPPORTED_EXTENSIONS : list string :=
  ["md"; "mdx"; "mdoc"; "rst"; "txt"; "html"; "htm"].

Definition isSupportedFileType (pathOrName : string) : bool :=
  match getFileExtension pathOrName with
  | None => true
  | Some EmptyString => true
  | Some extension => existsb (String.eqb extension) SUPPORTED_EXTENSIONS
  end.

Section Platform.
(** [minimatch(path, glob)] of the minimatch package. *)
Variable minimatch : string -> string -> bool.
(** [new URL(url).pathname], [None] when the constructor throws. *)
Variable URL_pathname : string -> option string.

Definition matchesGlobs (path : string) (globs : list string) : bool :=
  existsb (fun g => minimatch path g) globs.

Definition getUrlPath (url : string) : option string := URL_pathname url.

Definition urlHasPath (url : string) : bool :=
  match getUrlPath url with
  | Some path =>
      negb (String.length path =? 0)%nat && negb (String.eqb path "/")
  | None => false
  end.

(** The path after the website-source normalisation at the head of
    [shouldIncludeFileWithPath]. *)
Definition normalizedPath (path : string) (isWebsiteSource : bool) : string :=
  if isWebsiteSource then
    let isRootUrl := negb (urlHasPath path) in
    if isRootUrl && negb (endsWith path "/") then path ++ "/" else path
  else path.

Definition shouldIncludeFileWithPath (path : string)
    (includeGlobs excludeGlobs : list string) (isWebsiteSource : bool) : bool :=
  let path := normalizedPath path isWebsiteSource in
  if startsWith path "." || includes path "/." ||
     negb (isSupportedFileType path)
  then false
  else if matchesGlobs path includeGlobs
       then negb (matchesGlobs path excludeGlobs)
       else false.

(** The test of the pattern for an absolute link: [http://] or
    [https://] followed by at least one letter. *)
Definition isAbsoluteHttp (href : string) : bool :=
  let host :=
    if startsWith href "https://" then Some (drop 8 href)
    else if startsWith href "http://" then Some (drop 7 href)
    else None in
  match host with
  | Some (String c _) => isAlpha c
  | _ => false
  end.

(** Removal of the trailing slashes. *)
Fixpoint stripTrailingSlashes (s : string) : string :=
  match s with
  | EmptyString => EmptyString
  | String c t =>
      if all_chars (Ascii.eqb "/"%char) s then EmptyString
      else String c (stripTrailingSlashes t)
  end.

(** [new URL(url)] restricted to the three fields that are read;
    [None] when the constructor throws. *)
Variable URL_protocol_hostname : string -> option (string * string).

Definition toNormalizedUrl (url : string) (useInsecureSchema : bool) : string :=
  let url :=
    if negb (startsWith url "http://") && negb (startsWith url "https://")
    then (if useInsecureSchema then "http://" else "https://") ++ url
    else url in
  match URL_protocol_hostname url, URL_pathname url with
  | Some (protocol, hostname), Some pathname =>
      stripTrailingSlashes (protocol ++ "//" ++ hostname ++ pathname)
  | _, _ => url
  end.

(** [removeSchema] of the edge utilities. *)
Variable removeSchema : string -> string.

Definition getUrlHostname (url : string) : string :=
  hd EmptyString (split (removeSchema url) "/"%char).

(** [hostname.split('://')[0]] *)
Definition getSchema (hostname : string) : string :=
  match indexOf hostname "://" with
  | Some i => take i hostname
  | None => hostname
  end.

Definition toNormalizedOrigin (url : string) (useInsecureSchema : bool) : string :=
  if isAbsoluteHttp url
  then getSchema url ++ "://" ++ getUrlHostname url
  else "http" ++ (if useInsecureSchema then "" else "s") ++ "://"
       ++ getUrlHostname url.

(** The result is used as a filter predicate: [undefined] is [false]. *)
Definition isHrefFromBaseUrl (baseUrl href : string) : bool :=
  if isAbsoluteHttp href then
    startsWith (toNormalizedUrl href false) baseUrl
  else if startsWith href "/" then
    let basePath :=
      match getUrlPath baseUrl with
      | Some EmptyString | None => "/"
      | Some p => p
      end in
    startsWith href basePath
  else if negb (includes href ":") then true
  else false.

Definition completeHrefWithBaseUrl (baseUrl href : string) : string :=
  if startsWith href "/" then toNormalizedOrigin baseUrl false ++ href
  else if isAbsoluteHttp href then href
  else baseUrl ++ "/" ++ href.

(** [path.split('/').slice(-1)[0]] *)
Definition getNameFromPath (path : string) : string :=
  last (split path "/"%char) EmptyString.

Definition getNameFromUrlOrPath (url : string) : string :=
  let baseName := getNameFromPath url in
  if endsWith baseName ".html" then baseName
  else if negb (String.length baseName =? 0)%nat then baseName ++ ".html"
  else "index.html".

End Platform.

(** lodash [uniq]: the first occurrence of each element is kept. *)
Fixpoint uniq_from (seen l : list string) : list string :=
  match l with
  | [] => []
  | x :: t =>
      if existsb (String.eqb x) seen then uniq_from seen t
      else x :: uniq_from (x :: seen) t
  end.

Definition uniq (l : list string) : list string := uniq_from [] l.

(** [links.includes(link)] *)
Definition array_includes (links : list string) (link : string) : bool :=
  existsb (String.eqb link) links.

End Utils.

(** ** Keyword-in-context snippets (search endpoint) *)

Module Search.
Import JsString.

(** [s.trim()] *)
Fixpoint trimStart (s : string) : string :=
  match s with
  | EmptyString => EmptyString
  | String c t => if isSpace c then trimStart t else s
  end.

Fixpoint trimEnd (s : string) : string :=
  match s with
  | EmptyString => EmptyString
  | String c t =>
      match trimEnd t with
      | EmptyString => if isSpace c then EmptyString else String c EmptyString
      | t' => String c t'
      end
  end.

Definition trim (s : string) : string := trimEnd (trimStart s).

(** Global replacement of every maximal run of white space by one
    space. *)
Fixpoint collapseWhitespace_from (inRun : bool) (s : string) : string :=
  match s with
  | EmptyString => EmptyString
  | String c t =>
      if isSpace c then
        if inRun then collapseWhitespace_from true t
        else String " "%char (collapseWhitespace_from true t)
      else String c (collapseWhitespace_from false t)
  end.

Definition collapseWhitespace (s : string) : string :=
  collapseWhitespace_from false s.

(** Global replacement of the two characters backslash, [n] by one
    space. *)
Fixpoint replaceEscapedNewlines (s : string) : string :=
  match s with
  | EmptyString => EmptyString
  | String c t =>
      match t with
      | String d u =>
          if Ascii.eqb c "\"%char && Ascii.eqb d "n"%char
          then String " "%char (replaceEscapedNewlines u)
          else String c (replaceEscapedNewlines t)
      | EmptyString => String c EmptyString
      end
  end.

(** Splitting at the maximal runs of white space; a run at either end
    leaves an empty first or last word, and the empty string gives one
    empty word. *)
Fixpoint splitWhitespace_from (inRun : bool) (cur s : string) : list string :=
  match s with
  | EmptyString => [cur]
  | String c t =>
      if isSpace c then
        if inRun then splitWhitespace_from true cur t
        else cur :: splitWhitespace_from true EmptyString t
      else splitWhitespace_from false (cur ++ String c EmptyString) t
  end.

Definition splitWhitespace (s : string) : list string :=
  splitWhitespace_from false EmptyString s.

(** [Math.round(n / 2)] on a natural number: halves round up. *)
Definition roundHalf (n : nat) : nat := (n + 1) / 2.

(** [words.slice(1, words.length - 1)] *)
Definition dropFirstAndLast (words : list string) : list string :=
  firstn (List.length words - 1 - 1) (skipn 1 words).

Section Snippet.
(** The text that remark with the strip-markdown plugin (options
    [remove: heading, inlineCode] and [keep: text]) produces. *)
Variable stripMarkdown : string -> string.

Definition plainTextOf (content : string) : string :=
  replaceEscapedNewlines (collapseWhitespace (stripMarkdown (trim content))).

Definition createKWICSnippet (content searchTerm : string) (maxLength : nat)
  : string :=
  let plainText := plainTextOf content in
  match indexOf plainText searchTerm with
  | None => slice plainText 0 maxLength
  | Some index =>
      let rawSnippet :=
        slice plainText (Nat.max 0 (index - roundHalf maxLength))
              (index + roundHalf maxLength) in
      let words := splitWhitespace rawSnippet in
      if (3 <? List.length words)%nat
      then join " " (dropFirstAndLast words)
      else join " " words
  end.

Definition defaultMaxLength : nat := 200.

End Snippet.

End Search.

(** ** The training context *)

Module Training.
Import JsString Utils.

Inductive TrainingState : Type :=
| Idle
| FetchingData
| Loading (progress total : nat) (filename : string)
| CancelRequested
| Complete (errors : list string).

Inductive SourceType : Type :=
| github | motif | website | file_upload | api_upload.

Definition isWebsite (t : SourceType) : bool :=
  match t with website => true | _ => false end.

Record FileData : Type :=
  { path : string; name : string; content : string }.

(** A thrown value: the two fields the pipeline inspects, its string
    rendering (as in a template literal) and its [JSON.stringify]
    rendering. *)
Record ApiError : Type :=
  { status : nat; error_name : string; rendering : string; json : string }.

(** The settled value of an awaited promise. *)
Inductive Promise (A : Type) : Type :=
| Resolves (a : A)
| Rejects (e : ApiError).
Arguments Resolves {A} a.
Arguments Rejects {A} e.

Record ChecksumRow : Type :=
  { row_path : string; row_checksum : option string }.

(** Calls that leave the provider, in the order they are made. *)
Inductive Event : Type :=
| EvFetchContent (index : nat)
| EvProcessFile (sourceId : string) (index : nat) (file : FileData)
| EvFileProcessed (index : nat)
| EvToastQuota (index : nat)
| EvConsoleErrorMessage (index : nat) (message : string)
| EvToastError (index : nat) (message : string)
| EvConsoleError (e : ApiError)
| EvOnError (message : string).

(** The React state of the provider: [state], [errors], the [stopFlag]
    ref, and the calls made so far. *)
Record Provider : Type :=
  { state : TrainingState;
    errors : list string;
    stopFlag : bool;
    trace : list Event }.

Definition setState (s : TrainingState) (p : Provider) : Provider :=
  {| state := s; errors := errors p; stopFlag := stopFlag p; trace := trace p |}.

Definition setErrors (f : list string -> list string) (p : Provider) : Provider :=
  {| state := state p; errors := f (errors p); stopFlag := stopFlag p;
     trace := trace p |}.

Definition setStopFlag (b : bool) (p : Provider) : Provider :=
  {| state := state p; errors := errors p; stopFlag := b; trace := trace p |}.

Definition emit (e : Event) (p : Provider) : Provider :=
  {| state := state p; errors := errors p; stopFlag := stopFlag p;
     trace := trace p ++ [e] |}.

(** The arguments of one [generateEmbeddings] call, together with what
    its awaited calls settle with: the rows of the checksum query, the
    promise of [getFileNameContent(index)] and the promise of
    [processFile] for the item [index]. *)
Record Job : Type :=
  { sourceId : string;
    sourceType : SourceType;
    numFiles : nat;
    getFilePath : nat -> string;
    getFileNameContent : nat -> Promise (option (string * string));
    processFile : nat -> Promise unit;
    checksums : list ChecksumRow }.

(** Where a started item is suspended. *)
Inductive Phase : Type :=
| AwaitContent (path : string) (prevChecksum : option string)
| AwaitProcess (file : FileData).

Inductive TaskStep : Type :=
| Suspended (ph : Phase)
| Finished (result : Promise unit).

Definition option_string_eqb (a b : option string) : bool :=
  match a, b with
  | Some x, Some y => String.eqb x y
  | None, None => true
  | _, _ => false
  end.

(** [checksums?.find((c) => c.path === path)?.checksum] *)
Definition prevChecksumOf (rows : list ChecksumRow) (path : string)
  : option string :=
  match find (fun c => String.eqb (row_path c) path) rows with
  | Some c => row_checksum c
  | None => None
  end.

Section Pipeline.
Variable minimatch : string -> string -> bool.
Variable URL_pathname : string -> option string.
(** [createHash('sha256').update(content).digest('base64')] *)
Variable createChecksum : string -> string.
(** [config.include || []] and [config.exclude || []] *)
Variable includeGlobs excludeGlobs : list string.
Variable API_ERROR_ID_CONTENT_TOKEN_QUOTA_EXCEEDED : string.

Definition isQuotaExceeded (e : ApiError) : bool :=
  (status e =? 403)%nat &&
  String.eqb (error_name e) API_ERROR_ID_CONTENT_TOKEN_QUOTA_EXCEEDED.

(** *** [_generateEmbeddingForFile], cut at its two [await]s *)

(** From the call to the first [await]. *)
Definition startFile (job : Job) (index : nat) (p : Provider)
  : Provider * TaskStep :=
  if stopFlag p then (p, Finished (Resolves tt))
  else
    let path := getFilePath job index in
    if negb (shouldIncludeFileWithPath minimatch URL_pathname path
               includeGlobs excludeGlobs (isWebsite (sourceType job)))
    then (p, Finished (Resolves tt))
    else
      let p := setState (Loading (index + 1) (numFiles job)
                           (getNameFromPath path)) p in
      let prevChecksum := prevChecksumOf (checksums job) path in
      (emit (EvFetchContent index) p,
       Suspended (AwaitContent path prevChecksum)).

(** From the settlement of [getFileNameContent(index)] to the second
    [await]. *)
Definition resumeWithContent (job : Job) (index : nat) (path : string)
    (prevChecksum : option string)
    (r : Promise (option (string * string))) (p : Provider)
  : Provider * TaskStep :=
  match r with
  | Rejects e => (p, Finished (Rejects e))
  | Resolves None => (p, Finished (Resolves tt))
  | Resolves (Some (name, content)) =>
      let currentChecksum := createChecksum content in
      if option_string_eqb prevChecksum (Some currentChecksum)
      then (p, Finished (Resolves tt))
      else
        let file := {| path := path; name := name; content := content |} in
        (emit (EvProcessFile (sourceId job) index file) p,
         Suspended (AwaitProcess file))
  end.

(** The text logged to the console and pushed to [errors]. *)
Definition errorMessage (file : FileData) (e : ApiError) : string :=
  "Error processing " ++ name file ++ ": " ++ json e.

(** The text shown in the error toast. *)
Definition toastMessage (file : FileData) (e : ApiError) : string :=
  "Error processing file " ++ name file ++ ": " ++ json e.

(** From the settlement of [processFile(sourceId, file)] to the end. *)
Definition resumeWithProcessed (index : nat) (file : FileData)
    (r : Promise unit) (p : Provider) : Provider * TaskStep :=
  match r with
  | Resolves _ => (emit (EvFileProcessed index) p, Finished (Resolves tt))
  | Rejects e =>
      if isQuotaExceeded e then
        let p := emit (EvToastQuota index) p in
        let p := emit (EvFileProcessed index) p in
        let p := setState Idle p in
        (p, Finished (Rejects e))
      else
        let message := errorMessage file e in
        let p := emit (EvConsoleErrorMessage index message) p in
        let p := emit (EvToastError index (toastMessage file e)) p in
        let p := setErrors (fun errors => (errors ++ [message])%list) p in
        (emit (EvFileProcessed index) p, Finished (Resolves tt))
  end.

Definition resumeFile (job : Job) (index : nat) (ph : Phase) (p : Provider)
  : Provider * TaskStep :=
  match ph with
  | AwaitContent path prevChecksum =>
      resumeWithContent job index path prevChecksum
        (getFileNameContent job index) p
  | AwaitProcess file =>
      resumeWithProcessed index file (processFile job index) p
  end.

(** One item from its call to its end, with nothing in between. *)
Definition generateEmbeddingForFile (job : Job) (index : nat) (p : Provider)
  : Provider * Promise unit :=
  match startFile job index p with
  | (p, Finished r) => (p, r)
  | (p, Suspended ph) =>
      match resumeFile job index ph p with
      | (p, Finished r) => (p, r)
      | (p, Suspended ph) =>
          match resumeFile job index ph p with
          | (p, Finished r) => (p, r)
          | (p, Suspended _) => (p, Resolves tt)
          end
      end
  end.

(** *** [generateEmbeddings]: the pool of width 5

    JavaScript runs one stretch of code at a time: an item runs from its
    call, or from the settlement of the promise it awaits, to its next
    [await] without interruption.  A run of the pool is a sequence of
    such stretches, in the order a schedule chooses.  The limiter
    [pLimit(5)] keeps the items in a queue and starts the next one
    whenever fewer than 5 are active, after a rejection as well (the
    provider never clears the queue); [Promise.all] rejects with the
    first rejection and is fulfilled when every item is. *)

Definition concurrency : nat := 5.

Inductive Completion : Type :=
| Normal
| Throws (e : ApiError).

(** One call of [generateEmbeddings] under way.  [queue] holds the
    items the limiter has not started, [active] the started items
    with the [await] each is suspended at, [rejection] the first
    rejection that reached [Promise.all], [processedContent] the
    contents [getFileNameContent] has resolved with, and [returned]
    how the call ended once it has. *)
Record Run : Type :=
  { provider : Provider;
    queue : list nat;
    active : list (nat * Phase);
    rejection : option ApiError;
    processedContent : list string;
    returned : option Completion }.

Definition withProvider (p : Provider) (r : Run) : Run :=
  {| provider := p; queue := queue r; active := active r;
     rejection := rejection r; processedContent := processedContent r;
     returned := returned r |}.

Definition noteSettled (res : Promise unit) (rej : option ApiError)
  : option ApiError :=
  match rej, res with
  | None, Rejects e => Some e
  | _, _ => rej
  end.

(** The limiter starts queued items while fewer than [concurrency] are
    active; an item that ends before its first [await] frees its slot
    at once. *)
Fixpoint pump (job : Job) (q : list nat) (p : Provider)
    (act : list (nat * Phase)) (rej : option ApiError)
  : Provider * list nat * list (nat * Phase) * option ApiError :=
  match q with
  | [] => (p, [], act, rej)
  | index :: rest =>
      if (List.length act <? concurrency)%nat then
        match startFile job index p with
        | (p', Suspended ph) => pump job rest p' (act ++ [(index, ph)]) rej
        | (p', Finished res) => pump job rest p' act (noteSettled res rej)
        end
      else (p, q, act, rej)
  end.

Definition pumped (job : Job) (r : Run) : Run :=
  match pump job (queue r) (provider r) (active r) (rejection r) with
  | (p, q, act, rej) =>
      {| provider := p; queue := q; active := act; rejection := rej;
         processedContent := processedContent r; returned := returned r |}
  end.

Fixpoint lookupActive (index : nat) (act : list (nat * Phase)) : option Phase :=
  match act with
  | [] => None
  | (i, ph) :: rest =>
      if (i =? index)%nat then Some ph else lookupActive index rest
  end.

Fixpoint removeActive (index : nat) (act : list (nat * Phase))
  : list (nat * Phase) :=
  match act with
  | [] => []
  | (i, ph) :: rest =>
      if (i =? index)%nat then rest else (i, ph) :: removeActive index rest
  end.

Fixpoint replaceActive (index : nat) (ph' : Phase) (act : list (nat * Phase))
  : list (nat * Phase) :=
  match act with
  | [] => []
  | (i, ph) :: rest =>
      if (i =? index)%nat then (i, ph') :: rest
      else (i, ph) :: replaceActive index ph' rest
  end.

(** What the closure around [getFileNameContent] appends to the
    round's contents when its promise resolves with a value. *)
Definition contentsAfter (job : Job) (index : nat) (ph : Phase)
    (contents : list string) : list string :=
  match ph, getFileNameContent job index with
  | AwaitContent _ _, Resolves (Some (_, content)) => contents ++ [content]
  | _, _ => contents
  end.

(** What can happen next: the promise an active item awaits settles,
    the user asks to stop, or the continuation of
    [await Promise.all(...)] runs. *)
Inductive Action : Type :=
| Settle (index : nat)
| Cancel
| Join.

Definition stopGeneratingEmbeddings (p : Provider) : Provider :=
  setState CancelRequested (setStopFlag true p).

Definition joinable (r : Run) : bool :=
  match returned r, rejection r with
  | Some _, _ => false
  | None, Some _ => true
  | None, None =>
      match queue r, active r with
      | [], [] => true
      | _, _ => false
      end
  end.

Definition step (job : Job) (a : Action) (r : Run) : Run :=
  match a with
  | Settle index =>
      match lookupActive index (active r) with
      | None => r
      | Some ph =>
          let contents := contentsAfter job index ph (processedContent r) in
          match resumeFile job index ph (provider r) with
          | (p, Suspended ph') =>
              {| provider := p; queue := queue r;
                 active := replaceActive index ph' (active r);
                 rejection := rejection r;
                 processedContent := contents;
                 returned := returned r |}
          | (p, Finished res) =>
              pumped job
                {| provider := p; queue := queue r;
                   active := removeActive index (active r);
                   rejection := noteSettled res (rejection r);
                   processedContent := contents;
                   returned := returned r |}
          end
      end
  | Cancel => withProvider (stopGeneratingEmbeddings (provider r)) r
  | Join =>
      if joinable r then
        let p :=
          match rejection r with
          | Some e => emit (EvConsoleError e) (provider r)
          | None => provider r
          end in
        {| provider := setState Idle p; queue := queue r;
           active := active r; rejection := rejection r;
           processedContent := processedContent r;
           returned := Some Normal |}
      else r
  end.

Fixpoint exec (job : Job) (schedule : list Action) (r : Run) : Run :=
  match schedule with
  | [] => r
  | a :: rest => exec job rest (step job a r)
  end.

(** The call up to the [await] of the checksum query: errors cleared,
    stop flag lowered; every index is set down for the limiter. *)
Definition beginRun (job : Job) (p : Provider) : Run :=
  let p := setErrors (fun _ => []) p in
  let p := setStopFlag false p in
  {| provider := p; queue := seq 0 (numFiles job); active := [];
     rejection := None; processedContent := []; returned := None |}.

(** The call up to the first [await] on the pool, the first items
    started, when nothing else runs while the checksum query is
    awaited. *)
Definition startRun (job : Job) (p : Provider) : Run :=
  pumped job (beginRun job p).

(** The same when the user may ask to stop while the checksum query is
    awaited: nothing else of the call can run then, no item being
    started yet. *)
Definition startRunAfter (job : Job) (stopRequested : bool) (p : Provider)
  : Run :=
  let r := beginRun job p in
  pumped job (if stopRequested then step job Cancel r else r).

(** The schedule is followed until the call returns. *)
Fixpoint execUntilReturn (job : Job) (schedule : list Action) (r : Run) : Run :=
  match returned r, schedule with
  | Some _, _ => r
  | None, [] => r
  | None, a :: rest => execUntilReturn job rest (step job a r)
  end.

(** [project?.id] *)
Variable projectId : option string.

(** A call of [generateEmbeddings] followed to its return; [None] when
    the schedule ends before that.  The call returns early when the
    pool is rejected: the items then still queued or in flight go on
    in the code, beside whatever is called next.  [exec] follows them on
    the run of the call; the orchestrator below takes the provider as
    the call leaves it at its return.  A request to stop that arrives
    while the checksum query is awaited is the matter of
    [startRunAfter]. *)
Definition generateEmbeddings (job : Job) (schedule : list Action)
    (p : Provider) : option (Provider * list string * Completion) :=
  match projectId with
  | None => Some (p, [], Normal)
  | Some _ =>
      let r := execUntilReturn job schedule (startRun job p) in
      match returned r with
      | Some c => Some (provider r, processedContent r, c)
      | None => None
      end
  end.

(** *** [_trainSource] and [trainAllSources] *)

Inductive SourceData : Type :=
| GitHubSource (url : string) (branch : option string)
| MotifSource (projectDomain : string)
| WebsiteSource (url : string)
| FileUploadSource
| ApiUploadSource.

Record Source : Type := { id : string; data : SourceData }.

Record MotifFile : Type :=
  { motif_id : string; motif_path : string; motif_name : string }.

Variable URL_protocol_hostname : string -> option (string * string).
Variable removeSchema : string -> string.
(** The integrations, each with what its promise settles with. *)
Variable getGitHubFiles :
  string -> option string -> list string -> list string ->
  Promise (list FileData).
Variable getMarkpromptPathFromGitHubArchivePath : string -> string.
Variable getGitHubOwnerRepoString : string -> string.
Variable getMotifPublicFileMetadata :
  string -> list string -> list string -> Promise (list MotifFile).
Variable getMotifFileContent : string -> Promise string.
Variable fetchPageContent : string -> bool -> Promise (option string).
Variable extractLinksFromHtml : string -> list string.
Variable isSitemapUrl : string -> bool.
Variable fetchSitemapUrls : string -> bool -> Promise (list string).
Variable useCustomPageFetcher : bool.
(** The back end, by call of [generateEmbeddings] (numbered from 0):
    the rows of the checksum query of that call, and what
    [processFile] settles with for the item [index] of that call. *)
Variable loadChecksums : nat -> string -> list ChecksumRow.
Variable processFileOutcome : nat -> nat -> Promise unit.

Definition outOfRange : ApiError :=
  {| status := 0; error_name := "TypeError"; rendering := "TypeError";
     json := "{}" |}.

Definition gitHubJob (call : nat) (sourceId : string)
    (fileData : list FileData) : Job :=
  {| sourceId := sourceId;
     sourceType := github;
     numFiles := List.length fileData;
     getFilePath := fun i =>
       getMarkpromptPathFromGitHubArchivePath
         (match nth_error fileData i with
          | Some f => path f
          | None => EmptyString
          end);
     getFileNameContent := fun i =>
       match nth_error fileData i with
       | Some f => Resolves (Some (name f, content f))
       | None => Rejects outOfRange
       end;
     processFile := processFileOutcome call;
     checksums := loadChecksums call sourceId |}.

Definition motifJob (call : nat) (sourceId : string)
    (filesMetadata : list MotifFile) : Job :=
  {| sourceId := sourceId;
     sourceType := motif;
     numFiles := List.length filesMetadata;
     getFilePath := fun i =>
       match nth_error filesMetadata i with
       | Some f => motif_path f
       | None => EmptyString
       end;
     getFileNameContent := fun i =>
       match nth_error filesMetadata i with
       | Some f =>
           match getMotifFileContent (motif_id f) with
           | Resolves content => Resolves (Some (motif_name f, content))
           | Rejects e => Rejects e
           end
       | None => Rejects outOfRange
       end;
     processFile := processFileOutcome call;
     checksums := loadChecksums call sourceId |}.

(** The job of [generateEmbeddingsForUrls(urls)]. *)
Definition websiteJob (call : nat) (sourceId : string)
    (urls : list string) : Job :=
  {| sourceId := sourceId;
     sourceType := website;
     numFiles := List.length urls;
     getFilePath := fun i => nth i urls EmptyString;
     getFileNameContent := fun i =>
       let url := nth i urls EmptyString in
       match fetchPageContent url useCustomPageFetcher with
       | Resolves (Some EmptyString) => Resolves None
       | Resolves (Some content) =>
           Resolves (Some (getNameFromUrlOrPath url, content))
       | Resolves None => Resolves None
       | Rejects e => Rejects e
       end;
     processFile := processFileOutcome call;
     checksums := loadChecksums call sourceId |}.

(** The orchestrator: the provider, the schedules of the calls of
    [generateEmbeddings] still to come, the number of calls made, and the
    URL lists handed to [generateEmbeddingsForUrls] so far. *)
Record Orchestrator : Type :=
  { ui : Provider;
    schedules : list (list Action);
    calls : nat;
    rounds : list (list string) }.

Definition withUi (p : Provider) (o : Orchestrator) : Orchestrator :=
  {| ui := p; schedules := schedules o; calls := calls o;
     rounds := rounds o |}.

Definition onError (message : string) (o : Orchestrator) : Orchestrator :=
  withUi (emit (EvOnError message) (ui o)) o.

(** One awaited call of [generateEmbeddings], under the next schedule
    (the empty one when none is left); [None] when the schedule ends
    before the call returns. *)
Definition awaitGenerateEmbeddings (jobOf : nat -> Job) (o : Orchestrator)
  : option (list string * Completion * Orchestrator) :=
  match generateEmbeddings (jobOf (calls o)) (hd [] (schedules o)) (ui o) with
  | Some (p, contents, c) =>
      Some (contents, c,
            {| ui := p; schedules := tl (schedules o); calls := S (calls o);
               rounds := rounds o |})
  | None => None
  end.

Definition generateEmbeddingsForUrls (sourceId : string) (urls : list string)
    (o : Orchestrator) : option (list string * Completion * Orchestrator) :=
  awaitGenerateEmbeddings (fun call => websiteJob call sourceId urls)
    {| ui := ui o; schedules := schedules o; calls := calls o;
       rounds := (rounds o ++ [urls])%list |}.

Definition discoveredLinksOf (baseUrl : string) (processedContent : list string)
  : list string :=
  map (completeHrefWithBaseUrl removeSchema baseUrl)
    (filter (isHrefFromBaseUrl URL_pathname URL_protocol_hostname baseUrl)
       (uniq (flat_map extractLinksFromHtml processedContent))).

(** How the [while] loop of the link discovery ends: the frontier is
    empty or a round has thrown; or a call of [generateEmbeddings] has not
    returned under its schedule; or the rounds allowed have been used up. *)
Inductive Crawl : Type :=
| Crawled (o : Orchestrator)
| CallPending
| OutOfFuel.

(** The [while] loop of the link discovery; [fuel] bounds the number
    of rounds. *)
Fixpoint discoverLinks (fuel : nat) (sourceId baseUrl : string)
    (processedLinks linksToProcess : list string) (o : Orchestrator)
  : Crawl :=
  match linksToProcess with
  | [] => Crawled o
  | _ :: _ =>
      match fuel with
      | O => OutOfFuel
      | S fuel =>
          match generateEmbeddingsForUrls sourceId linksToProcess o with
          | None => CallPending
          | Some (_, Throws _, o) => Crawled o
          | Some (processedContent, Normal, o) =>
              let discoveredLinks :=
                discoveredLinksOf baseUrl processedContent in
              let processedLinks :=
                (processedLinks ++ linksToProcess)%list in
              let linksToProcess :=
                filter (fun link => negb (array_includes processedLinks link))
                  discoveredLinks in
              discoverLinks fuel sourceId baseUrl processedLinks
                linksToProcess o
          end
      end
  end.

Definition trainSource (fuel : nat) (source : Source) (o : Orchestrator)
  : option Orchestrator :=
  match data source with
  | GitHubSource url branch =>
      match getGitHubFiles url branch includeGlobs excludeGlobs with
      | Rejects e =>
          Some (onError ("Error processing repo "
                         ++ getGitHubOwnerRepoString url ++ ": "
                         ++ rendering e) o)
      | Resolves fileData =>
          match awaitGenerateEmbeddings
                  (fun call => gitHubJob call (id source) fileData) o with
          | None => None
          | Some (_, Normal, o) => Some o
          | Some (_, Throws e, o) =>
              Some (onError ("Error processing repo "
                             ++ getGitHubOwnerRepoString url ++ ": "
                             ++ rendering e) o)
          end
      end
  | MotifSource projectDomain =>
      match getMotifPublicFileMetadata projectDomain
              includeGlobs excludeGlobs with
      | Rejects e =>
          Some (onError ("Error processing Motif project "
                         ++ projectDomain ++ ": " ++ rendering e) o)
      | Resolves filesMetadata =>
          match awaitGenerateEmbeddings
                  (fun call => motifJob call (id source) filesMetadata) o with
          | None => None
          | Some (_, Normal, o) => Some o
          | Some (_, Throws e, o) =>
              Some (onError ("Error processing Motif project "
                             ++ projectDomain ++ ": " ++ rendering e) o)
          end
      end
  | WebsiteSource url =>
      let baseUrl :=
        toNormalizedUrl URL_pathname URL_protocol_hostname url false in
      let origin := toNormalizedOrigin removeSchema baseUrl false in
      let failed e :=
        onError ("Error processing website " ++ origin ++ ": "
                 ++ rendering e) in
      if isSitemapUrl baseUrl then
        match fetchSitemapUrls baseUrl useCustomPageFetcher with
        | Rejects e => Some (failed e o)
        | Resolves sitemapUrls =>
            match generateEmbeddingsForUrls (id source)
                    (firstn 10 sitemapUrls) o with
            | None => None
            | Some (_, Normal, o) => Some o
            | Some (_, Throws e, o) => Some (failed e o)
            end
        end
      else
        match discoverLinks fuel (id source) baseUrl [] [url] o with
        | Crawled o => Some o
        | CallPending | OutOfFuel => None
        end
  | FileUploadSource | ApiUploadSource => Some o
  end.

Fixpoint trainSources (fuel : nat) (sources : list Source) (o : Orchestrator)
  : option Orchestrator :=
  match sources with
  | [] => Some o
  | source :: rest =>
      match trainSource fuel source o with
      | Some o => trainSources fuel rest o
      | None => None
      end
  end.

Definition trainAllSources (fuel : nat) (sources : list Source)
    (o : Orchestrator) : option Orchestrator :=
  match trainSources fuel sources (withUi (setState FetchingData (ui o)) o) with
  | Some o => Some (withUi (setState Idle (ui o)) o)
  | None => None
  end.

End Pipeline.

End Training.

(** ** Reference instances of the platform functions

    Small executable stand-ins for third-party functions, used to run
    the definitions above on concrete inputs. *)

Module Reference.
Import JsString.

Definition LF : string := String (ascii_of_nat 10) EmptyString.

(** One glob segment against one path segment: [?] is any character,
    [*] any run of characters. *)
Fixpoint segmentMatch (pat : string) : string -> bool :=
  match pat with
  | EmptyString => fun seg => String.eqb seg EmptyString
  | String c pat' =>
      if Ascii.eqb c "*"%char then
        fix star (seg : string) : bool :=
          segmentMatch pat' seg ||
          match seg with
          | EmptyString => false
          | String _ seg' => star seg'
          end
      else fun seg =>
        match seg with
        | EmptyString => false
        | String d seg' =>
            (Ascii.eqb c "?"%char || Ascii.eqb c d) && segmentMatch pat' seg'
        end
  end.

(** A segment that starts with a dot is matched only by a pattern
    segment that starts with a dot. *)
Definition dotSafe (pat seg : string) : bool :=
  negb (startsWith seg ".") || startsWith pat ".".

(** Glob segments against path segments: the double star stands for any
    number of segments. *)
Fixpoint segmentsMatch (pats : list string) : list string -> bool :=
  match pats with
  | [] => fun segs => match segs with [] => true | _ => false end
  | pat :: pats' =>
      if String.eqb pat "**" then
        fix globstar (segs : list string) : bool :=
          segmentsMatch pats' segs ||
          match segs with
          | [] => false
          | seg :: segs' => negb (startsWith seg ".") && globstar segs'
          end
      else fun segs =>
        match segs with
        | [] => false
        | seg :: segs' =>
            dotSafe pat seg && segmentMatch pat seg && segmentsMatch pats' segs'
        end
  end.

(** Globs made of literals, [?], [*] and the double star. *)
Definition globMatch (path glob : string) : bool :=
  segmentsMatch (split glob "/"%char) (split path "/"%char).

(** The path component of an absolute [http] or [https] URL. *)
Definition pathnameOf (url : string) : option string :=
  let rest :=
    if startsWith url "https://" then Some (drop 8 url)
    else if startsWith url "http://" then Some (drop 7 url)
    else None in
  match rest with
  | None => None
  | Some EmptyString => None
  | Some r =>
      match indexOf r "/" with
      | Some i => Some (drop i r)
      | None => Some "/"
      end
  end.

(** Protocol and host name of an absolute [http] or [https] URL. *)
Definition protocolHostnameOf (url : string) : option (string * string) :=
  let parts :=
    if startsWith url "https://" then Some ("https:", drop 8 url)
    else if startsWith url "http://" then Some ("http:", drop 7 url)
    else None in
  match parts with
  | None => None
  | Some (_, EmptyString) => None
  | Some (protocol, r) =>
      match indexOf r "/" with
      | Some i => Some (protocol, take i r)
      | None => Some (protocol, r)
      end
  end.

(** Removal of a leading [http://] or [https://]. *)
Definition schemaRemoved (url : string) : string :=
  if startsWith url "https://" then drop 8 url
  else if startsWith url "http://" then drop 7 url
  else url.

(** Removal of the lines that are headings. *)
Definition headingsRemoved (s : string) : string :=
  join LF (filter (fun line => negb (startsWith line "#"))
             (split s (ascii_of_nat 10))) ++ LF.

End Reference.

(** ** Further helpers of the utilities module *)

Module UtilsExtra.
Import JsString Utils.

(** [text.slice(-n)] for a non-negative [n]: [-0] is [0], so the whole
    text is returned for [n = 0]. *)
Definition sliceFromEnd (text : string) (n : nat) : string :=
  match n with
  | O => text
  | S _ => drop (String.length text - n) text
  end.

Definition truncate (text : string) (maxLength : nat) : string :=
  if (maxLength <? String.length text)%nat
  then slice text 0 maxLength ++ "..."
  else text.

Definition truncateMiddle (text : string) (offsetStart offsetEnd : nat)
    (truncateText : string) : string :=
  if (String.length text <=? offsetStart + offsetEnd)%nat then text
  else slice text 0 offsetStart ++ truncateText ++ sliceFromEnd text offsetEnd.

Definition generateHint (text : string) (offsetStart offsetEnd : nat) : string :=
  if (String.length text <=? offsetStart + offsetEnd)%nat then text
  else slice text 0 offsetStart ++ "..." ++ sliceFromEnd text offsetEnd.

Inductive FileType : Type :=
| ft_mdoc | ft_mdx | ft_md | ft_rst | ft_html | ft_txt.

Definition getFileType (name : string) : FileType :=
  match getFileExtension name with
  | None => ft_txt
  | Some extension =>
      if String.eqb extension "mdoc" then ft_mdoc
      else if String.eqb extension "mdx" then ft_mdx
      else if String.eqb extension "md" then ft_md
      else if String.eqb extension "rst" then ft_rst
      else if String.eqb extension "html" then ft_html
      else if String.eqb extension "htm" then ft_html
      else ft_txt
  end.

(** [fileName.lastIndexOf('.')], [None] for -1. *)
Fixpoint lastIndexOfChar (c : ascii) (s : string) : option nat :=
  match s with
  | EmptyString => None
  | String d t =>
      match lastIndexOfChar c t with
      | Some i => Some (S i)
      | None => if Ascii.eqb d c then Some 0 else None
      end
  end.

Definition removeFileExtension (fileName : string) : string :=
  match lastIndexOfChar "."%char fileName with
  | None => fileName
  | Some lastDotIndex => slice fileName 0 lastDotIndex
  end.

(** The character class of the owner and of the repository: letters,
    digits, the hyphen, the underscore and the dot. *)
Definition isRepoChar (c : ascii) : bool :=
  isWordChar c || Ascii.eqb c "-"%char || Ascii.eqb c "."%char.

(** The longest prefix made of characters of the class, and the rest. *)
Fixpoint spanRepoChars (s : string) : string * string :=
  match s with
  | EmptyString => (EmptyString, EmptyString)
  | String c t =>
      if isRepoChar c then
        let (run, rest) := spanRepoChars t in (String c run, rest)
      else (EmptyString, s)
  end.

(** What the unescaped dot of the pattern matches: any character but a
    line terminator. *)
Definition isLineTerminator (c : ascii) : bool :=
  let n := nat_of_ascii c in (n =? 10)%nat || (n =? 13)%nat.

(** The match of the pattern [https://github.com/owner/repo] anchored at
    the start: the dot before [com] stands for any character, and each
    group is the longest run of class characters, at least one. *)
Definition parseGitHubURL (url : string) : option (string * string) :=
  if startsWith url "https://github" then
    match drop 14 url with
    | String c afterDot =>
        if negb (isLineTerminator c) && startsWith afterDot "com/" then
          match spanRepoChars (drop 4 afterDot) with
          | (String o owner, String slash afterSlash) =>
              if Ascii.eqb slash "/"%char then
                match spanRepoChars afterSlash with
                | (String r repo, _) => Some (String o owner, String r repo)
                | (EmptyString, _) => None
                end
              else None
          | _ => None
          end
        else None
    | EmptyString => None
    end
  else None.

Definition getGitHubOwnerRepoString (url : string) : option string :=
  match parseGitHubURL url with
  | None => None
  | Some (owner, repo) => Some (owner ++ "/" ++ repo)
  end.

(** The loop of [splitIntoSubstringsOfMaxLength]: the pieces pushed so
    far and the piece under construction. *)
Fixpoint splitLoop (maxLength : nat) (words : list string)
    (result : list string) (currentSubstring : string)
  : list string * string :=
  match words with
  | [] => (result, currentSubstring)
  | word :: rest =>
      if (String.length currentSubstring + String.length word <=? maxLength)%nat
      then
        splitLoop maxLength rest result
          (currentSubstring
           ++ (if (0 <? String.length currentSubstring)%nat then " " else "")
           ++ word)
      else splitLoop maxLength rest (result ++ [currentSubstring])%list word
  end.

Definition splitIntoSubstringsOfMaxLength (line : string) (maxLength : nat)
  : list string :=
  let (result, currentSubstring) :=
    splitLoop maxLength (split line " "%char) [] EmptyString in
  if (0 <? String.length currentSubstring)%nat
  then (result ++ [currentSubstring])%list
  else result.

(** [s.replace(pattern, replacement)] for a string pattern: the first
    occurrence only. *)
Definition replaceFirst (s pattern replacement : string) : string :=
  match indexOf s pattern with
  | None => s
  | Some i =>
      take i s ++ replacement ++ drop (i + String.length pattern) s
  end.

(** [header?.replace('Bearer ', '').trim()] *)
Definition getAuthorizationToken (header : option string) : option string :=
  match header with
  | None => None
  | Some h => Some (Search.trim (replaceFirst h "Bearer " ""))
  end.

(** *** Models *)

Inductive ModelType : Type :=
| chat_completions
| completions.

Record LLMInfo : Type :=
  { vendor : string; model_type : ModelType; model_value : string }.

(** The case labels of the two groups of the switch. *)
Definition chatModels : list string :=
  ["gpt-4"; "gpt-4-0314"; "gpt-4-32k"; "gpt-4-32k-0314"; "gpt-3.5-turbo";
   "gpt-3.5-turbo-0301"].

Definition completionModels : list string :=
  ["text-davinci-003"; "text-davinci-002"; "text-curie-001";
   "text-babbage-001"; "text-ada-001"; "davinci"; "curie"; "babbage"; "ada"].

Definition stringToLLMInfo (param : option string) : LLMInfo :=
  let default :=
    {| vendor := "openai"; model_type := chat_completions;
       model_value := "gpt-3.5-turbo" |} in
  match param with
  | None => default
  | Some p =>
      if existsb (String.eqb p) chatModels then
        {| vendor := "openai"; model_type := chat_completions;
           model_value := p |}
      else if existsb (String.eqb p) completionModels then
        {| vendor := "openai"; model_type := completions; model_value := p |}
      else default
  end.

(** [getCompletionsUrl(model)], on the model of an [LLMInfo]. *)
Definition getCompletionsUrl (info : LLMInfo) : string :=
  match model_type info with
  | chat_completions => "https://api.openai.com/v1/chat/completions"
  | completions => "https://api.openai.com/v1/completions"
  end.

(** *** [objectEquals]

    An object is the list of its own properties, each key once; a key
    the object does not have is read from the prototype. *)
Section Objects.
Variable Value : Type.
(** [v === w] *)
Variable strictEq : Value -> Value -> bool.
(** What an absent property reads as: [undefined], or an inherited
    member for names such as [toString]. *)
Variable inherited : string -> Value.

Definition JsObject : Type := list (string * Value).

(** [Object.keys(object)] *)
Definition keys (object : JsObject) : list string := map fst object.

Fixpoint ownProperty (object : JsObject) (key : string) : option Value :=
  match object with
  | [] => None
  | (k, v) :: rest => if String.eqb k key then Some v else ownProperty rest key
  end.

(** [object[key]] *)
Definition get (object : JsObject) (key : string) : Value :=
  match ownProperty object key with
  | Some v => v
  | None => inherited key
  end.

Definition objectEquals (object otherObject : JsObject) : bool :=
  if negb (List.length (keys object) =? List.length (keys otherObject))%nat
  then false
  else forallb (fun key => strictEq (get object key) (get otherObject key))
         (keys object).

End Objects.

End UtilsExtra.

(** ** Time intervals of the charts *)

Module Intervals.

Inductive TimeInterval : Type :=
| i_1h | i_24h | i_7d | i_30d | i_3m | i_1y.

Record IntervalData : Type :=
  { milliseconds : Z; intervals : nat; numTicks : nat; coefficient : Z }.

Definition intervalData (interval : TimeInterval) : IntervalData :=
  match interval with
  | i_1h => {| milliseconds := 3600000; intervals := 60; numTicks := 6;
               coefficient := 60000 |}
  | i_24h => {| milliseconds := 86400000; intervals := 24; numTicks := 12;
                coefficient := 3600000 |}
  | i_7d => {| milliseconds := 604800000; intervals := 7; numTicks := 7;
               coefficient := 86400000 |}
  | i_30d => {| milliseconds := 2592000000; intervals := 30; numTicks := 8;
                coefficient := 86400000 |}
  | i_3m => {| milliseconds := 7776000000; intervals := 12; numTicks := 12;
               coefficient := 604800000 |}
  | i_1y => {| milliseconds := 31536000000; intervals := 12; numTicks := 12;
               coefficient := 2592000000 |}
  end%Z.

Record TimeIntervals : Type :=
  { startTimestamp : Z; endTimestamp : Z; timeIntervals : list (Z * Z) }.

(** [Math.ceil(a / b)] for integers, [b] positive. *)
Definition ceilDiv (a b : Z) : Z := (- ((- a) / b))%Z.

(** [getTimeIntervals], with [Date.now()] as an argument (milliseconds,
    an integer).  For the times of this century and the coefficients of
    the table the floating-point quotient is rounded up to the same
    integer as the exact one, and the products are exact. *)
Definition getTimeIntervals (now : Z) (interval : TimeInterval) : TimeIntervals :=
  let d := intervalData interval in
  let endTimestamp := (ceilDiv now (coefficient d) * coefficient d)%Z in
  let startTimestamp := (endTimestamp - milliseconds d)%Z in
  {| startTimestamp := startTimestamp;
     endTimestamp := endTimestamp;
     timeIntervals :=
       map (fun i =>
              ((startTimestamp + Z.of_nat i * coefficient d)%Z,
               (startTimestamp + (Z.of_nat i + 1) * coefficient d)%Z))
         (seq 0 (intervals d)) |}.

End Intervals.

(** ** Grouping of the matches (search endpoint) *)

Module SearchHandler.
Import JsString Search.

Section Grouping.
Variable stripMarkdown : string -> string.
(** The type of the file ids, with [===] on it. *)
Variable FileId : Type.
Variable sameId : FileId -> FileId -> bool.
(** JSON values of the [meta] and [data] columns. *)
Variable Json : Type.
(** The source types. *)
Variable SourceType : Type.

(** A row of the full-text query; a [null] content is [None], a falsy
    [meta] is [None]. *)
Record FTSResult : Type :=
  { file_id : FileId; fts_content : option string; fts_meta : option Json }.

(** A row of the join of files and sources. *)
Record FileRow : Type :=
  { row_id : FileId; row_path : string; row_meta : option Json;
    row_source_type : SourceType; row_source_data : option Json }.

Record ResultSection : Type :=
  { section_meta : option Json; section_content : string }.

Record SearchResult : Type :=
  { result_path : string; result_meta : option Json;
    result_source_type : SourceType; result_source_data : option Json;
    score : nat; sections : list ResultSection }.

(** [resultsByFile]: an object keyed by file id, read by key only; the
    order of the list is not the order of [Object.values]. *)
Definition ResultsByFile : Type := list (FileId * SearchResult).

Fixpoint lookupResult (results : ResultsByFile) (fileId : FileId)
  : option SearchResult :=
  match results with
  | [] => None
  | (k, r) :: rest =>
      if sameId k fileId then Some r else lookupResult rest fileId
  end.

(** [resultsByFile[fileId] = r] *)
Fixpoint assignResult (results : ResultsByFile) (fileId : FileId)
    (r : SearchResult) : ResultsByFile :=
  match results with
  | [] => [(fileId, r)]
  | (k, old) :: rest =>
      if sameId k fileId then (k, r) :: rest
      else (k, old) :: assignResult rest fileId r
  end.

Definition sectionOf (query : string) (result : FTSResult) : ResultSection :=
  {| section_meta := fts_meta result;
     section_content :=
       createKWICSnippet stripMarkdown
         (match fts_content result with Some c => c | None => EmptyString end)
         query defaultMaxLength |}.

(** The body of the loop over the matches; [_fileData] is [None] when
    the join returned no data. *)
Definition addMatch (_fileData : option (list FileRow)) (query : string)
    (resultsByFile : ResultsByFile) (result : FTSResult) : ResultsByFile :=
  let fileId := file_id result in
  match
    match _fileData with
    | Some rows => find (fun d => sameId (row_id d) fileId) rows
    | None => None
    end
  with
  | None => resultsByFile
  | Some fileDataByFile =>
      assignResult resultsByFile fileId
        {| result_path := row_path fileDataByFile;
           result_meta := row_meta fileDataByFile;
           result_source_type := row_source_type fileDataByFile;
           result_source_data := row_source_data fileDataByFile;
           score := 0;
           sections :=
             (match lookupResult resultsByFile fileId with
              | Some old => sections old
              | None => []
              end ++ [sectionOf query result])%list |}
  end.

Definition groupMatches (_fileData : option (list FileRow)) (query : string)
    (data : list FTSResult) : ResultsByFile :=
  fold_left (addMatch _fileData query) data [].

End Grouping.

Arguments file_id {FileId Json}.
Arguments fts_content {FileId Json}.
Arguments fts_meta {FileId Json}.
Arguments row_id {FileId Json SourceType}.
Arguments row_path {FileId Json SourceType}.
Arguments row_meta {FileId Json SourceType}.
Arguments row_source_type {FileId Json SourceType}.
Arguments row_source_data {FileId Json SourceType}.
Arguments section_meta {Json}.
Arguments section_content {Json}.
Arguments result_path {Json SourceType}.
Arguments result_meta {Json SourceType}.
Arguments result_source_type {Json SourceType}.
Arguments result_source_data {Json SourceType}.
Arguments score {Json SourceType}.
Arguments sections {Json SourceType}.
Arguments lookupResult {FileId} sameId {Json SourceType}.
Arguments assignResult {FileId} sameId {Json SourceType}.
Arguments sectionOf stripMarkdown {FileId Json}.
Arguments addMatch stripMarkdown {FileId} sameId {Json SourceType}.
Arguments groupMatches stripMarkdown {FileId} sameId {Json SourceType}.

End SearchHandler.



(** * The vocabulary of the properties *)

Section Vocabulary.
Import JsString Utils Search Training.

(** ** Paths and snippets *)


(** [q] occurs in [s] at position [i]. *)
Definition occursAt (s q : string) (i : nat) : Prop :=
  exists pre post, s = pre ++ q ++ post /\ String.length pre = i.

(** [i] is the position of the first occurrence of [q] in [s]. *)
Definition firstOccurrence (s q : string) (i : nat) : Prop :=
  occursAt s q i /\ forall j, j < i -> ~ occursAt s q j.

(** Every white-space character of the string is a plain space. *)
Definition spacesOnly (s : string) : bool :=
  all_chars (fun c => negb (isSpace c) || Ascii.eqb c " "%char) s.

Definition startsWithSpace (s : string) : bool :=
  match s with
  | EmptyString => false
  | String c _ => isSpace c
  end.

(** [t] is [s] with every maximal run of white space replaced by one
    space, and nothing else changed. *)
Inductive Collapsed : string -> string -> Prop :=
| collapsed_empty : Collapsed EmptyString EmptyString
| collapsed_char (c : ascii) (s t : string) :
    isSpace c = false -> Collapsed s t ->
    Collapsed (String c s) (String c t)
| collapsed_run (run s t : string) :
    run <> EmptyString -> all_chars isSpace run = true ->
    startsWithSpace s = false -> Collapsed s t ->
    Collapsed (run ++ s) (String " "%char t).

(** The character [c] occurs in [s]. *)
Fixpoint occursIn (c : ascii) (s : string) : Prop :=
  match s with
  | EmptyString => False
  | String d t => c = d \/ occursIn c t
  end.

(** ** Runs of the pool *)

(** A predicate on the provider, the queue and the active items, read
    on a run. *)
Definition holds (Inv : Provider -> list nat -> list (nat * Phase) -> Prop)
    (r : Run) : Prop :=
  Inv (provider r) (queue r) (active r).

(** The number of active items whose phase satisfies [f]. *)
Definition countPhase (f : Phase -> bool) (act : list (nat * Phase)) : nat :=
  List.length (filter (fun x => f (snd x)) act).

Definition weight (f : Phase -> bool) (ph : Phase) : nat :=
  if f ph then 1 else 0.

Definition isAwaitContent (ph : Phase) : bool :=
  match ph with AwaitContent _ _ => true | AwaitProcess _ => false end.

Definition isAwaitProcess (ph : Phase) : bool :=
  match ph with AwaitProcess _ => true | AwaitContent _ _ => false end.

(** The submissions in flight: the active items waiting for
    [processFile]. *)
Definition inFlight (r : Run) : nat := countPhase isAwaitProcess (active r).

(** The work left in a run: two stretches for a queued item and for an
    item waiting for its content, one for an item waiting for
    [processFile]. *)
Definition pending (q : list nat) (act : list (nat * Phase)) : nat :=
  2 * List.length q + 2 * countPhase isAwaitContent act
  + countPhase isAwaitProcess act.

(** ** Traces *)

Definition isProcessFile (e : Event) : bool :=
  match e with EvProcessFile _ _ _ => true | _ => false end.

Definition isFileProcessed (e : Event) : bool :=
  match e with EvFileProcessed _ => true | _ => false end.

Definition countEvents (f : Event -> bool) (t : list Event) : nat :=
  List.length (filter f t).

(** The number of [processFile] calls and of [onFileProcessed] calls. *)
Definition submissions (t : list Event) : nat := countEvents isProcessFile t.
Definition callbacks (t : list Event) : nat := countEvents isFileProcessed t.

(** The number of submissions of the page at [url]. *)
Definition submissionsOf (url : string) (t : list Event) : nat :=
  countEvents
    (fun e =>
       match e with
       | EvProcessFile _ _ file => String.eqb (path file) url
       | _ => false
       end) t.

(** The item an event belongs to. *)
Definition eventItem (e : Event) : option nat :=
  match e with
  | EvFetchContent i | EvProcessFile _ i _ | EvFileProcessed i
  | EvToastQuota i | EvConsoleErrorMessage i _ | EvToastError i _ => Some i
  | EvConsoleError _ | EvOnError _ => None
  end.

(** The messages pushed to [errors], read off the lines that the items
    log to the console. *)
Definition errorMessages (t : list Event) : list string :=
  flat_map
    (fun e => match e with EvConsoleErrorMessage _ m => [m] | _ => [] end) t.

(** The messages handed to [onError]. *)
Definition reported (t : list Event) : list string :=
  flat_map (fun e => match e with EvOnError m => [m] | _ => [] end) t.

(** After a quota failure nothing more is submitted. *)
Definition haltsOnQuota (t : list Event) : Prop :=
  forall before index after,
    t = (before ++ EvToastQuota index :: after)%list ->
    submissions after = 0.

(** ** Invariants *)

Definition InvCount (n : nat) (t0 : list Event)
    (p : Provider) (q : list nat) (act : list (nat * Phase)) : Prop :=
  exists new,
    trace p = (t0 ++ new)%list /\
    submissions new + countPhase isAwaitContent act + List.length q <= n /\
    callbacks new + countPhase isAwaitProcess act = submissions new.

Definition fromJob (job : Job) (e : Event) : Prop :=
  match e with
  | EvProcessFile sid i f =>
      sid = sourceId job /\ i < numFiles job /\ path f = getFilePath job i
  | EvOnError _ => False
  | _ => True
  end.

Definition phasePath (ph : Phase) : string :=
  match ph with
  | AwaitContent path _ => path
  | AwaitProcess file => path file
  end.

Definition InvPaths (job : Job) (t0 : list Event)
    (p : Provider) (q : list nat) (act : list (nat * Phase)) : Prop :=
  exists new,
    trace p = (t0 ++ new)%list /\
    Forall (fromJob job) new /\
    (forall x, In x act ->
               fst x < numFiles job /\
               phasePath (snd x) = getFilePath job (fst x)) /\
    (forall i, In i q -> i < numFiles job).

Definition InvUnchanged (job : Job) (k : nat) (t0 : list Event)
    (p : Provider) (q : list nat) (act : list (nat * Phase)) : Prop :=
  exists new,
    trace p = (t0 ++ new)%list /\
    (forall e, In e new -> eventItem e = Some k -> e = EvFetchContent k) /\
    (forall ph, In (k, ph) act ->
                ph = AwaitContent (getFilePath job k)
                       (prevChecksumOf (checksums job) (getFilePath job k))) /\
    errors p = errorMessages new.

Definition InvStopped (ids : list nat) (t0 : list Event)
    (p : Provider) (q : list nat) (act : list (nat * Phase)) : Prop :=
  stopFlag p = true /\
  (forall x, In x act -> In (fst x) ids) /\
  exists new,
    trace p = (t0 ++ new)%list /\
    (forall e, In e new ->
               match eventItem e with
               | Some i => In i ids /\ e <> EvFetchContent i
               | None => True
               end).

(** Every round is free of the links processed before it. *)
Fixpoint freshRounds (processedLinks : list string)
    (rs : list (list string)) : Prop :=
  match rs with
  | [] => True
  | r :: rest =>
      (forall link, In link r -> ~ In link processedLinks) /\
      freshRounds (processedLinks ++ r) rest
  end.

(** The links of [universe] that are not processed yet. *)
Definition unprocessed (universe processedLinks : list string) : list string :=
  filter (fun link => negb (array_includes processedLinks link)) universe.

(** ** One item *)

Variable minimatch : string -> string -> bool.
Variable URL_pathname : string -> option string.
Variable createChecksum : string -> string.
Variable includeGlobs excludeGlobs : list string.
Variable QUOTA : string.

(** Whether the item reaches [processFile]. *)
Definition isSubmitted (job : Job) (index : nat) (p : Provider) : bool :=
  negb (stopFlag p) &&
  shouldIncludeFileWithPath minimatch URL_pathname (getFilePath job index)
    includeGlobs excludeGlobs (isWebsite (sourceType job)) &&
  match getFileNameContent job index with
  | Resolves (Some (_, content)) =>
      negb (option_string_eqb
              (prevChecksumOf (checksums job) (getFilePath job index))
              (Some (createChecksum content)))
  | _ => false
  end.

(** The three ways past the second [await]. *)
Inductive ProcessedShape (index : nat) (file : FileData) (p : Provider)
  : Provider -> Promise unit -> Prop :=
| processed_ok :
    ProcessedShape index file p
      (emit (EvFileProcessed index) p) (Resolves tt)
| processed_quota (e : ApiError) :
    isQuotaExceeded QUOTA e = true ->
    ProcessedShape index file p
      (setState Idle
         (emit (EvFileProcessed index) (emit (EvToastQuota index) p)))
      (Rejects e)
| processed_error (e : ApiError) :
    isQuotaExceeded QUOTA e = false ->
    ProcessedShape index file p
      (emit (EvFileProcessed index)
         (setErrors
            (fun errors => (errors ++ [errorMessage file e])%list)
            (emit (EvToastError index (toastMessage file e))
               (emit (EvConsoleErrorMessage index (errorMessage file e)) p))))
      (Resolves tt).

(** ** One source *)

Variable URL_protocol_hostname : string -> option (string * string).
Variable getGitHubFiles :
  string -> option string -> list string -> list string ->
  Promise (list FileData).
Variable getMotifPublicFileMetadata :
  string -> list string -> list string -> Promise (list MotifFile).
Variable isSitemapUrl : string -> bool.
Variable fetchSitemapUrls : string -> bool -> Promise (list string).
Variable useCustomPageFetcher : bool.

(** The step of [_trainSource] that lists what the source holds, before
    any call of [generateEmbeddings], rejects with [e]: the download of
    the repository, the query for the files of the Motif project, or
    the fetch of the sitemap. *)
Definition listingRejects (source : Source) (e : ApiError) : Prop :=
  match data source with
  | GitHubSource url branch =>
      getGitHubFiles url branch includeGlobs excludeGlobs = Rejects e
  | MotifSource projectDomain =>
      getMotifPublicFileMetadata projectDomain includeGlobs excludeGlobs
      = Rejects e
  | WebsiteSource url =>
      let baseUrl :=
        toNormalizedUrl URL_pathname URL_protocol_hostname url false in
      isSitemapUrl baseUrl = true /\
      fetchSitemapUrls baseUrl useCustomPageFetcher = Rejects e
  | FileUploadSource | ApiUploadSource => False
  end.

End Vocabulary.

(** ** Concrete runs *)

Module Scenario.
Import JsString Utils Training.

Definition QUOTA : string := "content_token_quota_exceeded".

Definition quotaError : ApiError :=
  {| status := 403; error_name := QUOTA;
     rendering := "Error: quota exceeded";
     json := "{}" |}.

Definition includeGlobs : list string := ["**/*"].
Definition excludeGlobs : list string := [].

(** A stand-in for the digest: distinct contents get distinct checksums. *)
Definition checksumOf (content : string) : string := "sha256:" ++ content.

(** The archive path without its first segment. *)
Definition archiveRootRemoved (path : string) : string :=
  match indexOf path "/" with
  | Some i => drop (S i) path
  | None => path
  end.

(** The hrefs of a page whose text is a list of hrefs separated by
    spaces. *)
Definition hrefsOf (html : string) : list string :=
  filter (fun h => negb (String.eqb h EmptyString)) (split html " "%char).

Definition idle : Provider :=
  {| state := Idle; errors := []; stopFlag := false; trace := [] |}.

Definition orchestrator (schedules : list (list Action)) : Orchestrator :=
  {| ui := idle; schedules := schedules; calls := 0; rounds := [] |}.

(** The orchestrator over an explicit environment. *)
Definition train
    (getGitHubFiles :
       string -> option string -> list string -> list string ->
       Promise (list FileData))
    (fetchPageContent : string -> bool -> Promise (option string))
    (isSitemapUrl : string -> bool)
    (fetchSitemapUrls : string -> bool -> Promise (list string))
    (processFileOutcome : nat -> nat -> Promise unit)
    (sources : list Source) (schedules : list (list Action))
  : option Orchestrator :=
  trainAllSources Reference.globMatch Reference.pathnameOf checksumOf
    includeGlobs excludeGlobs QUOTA (Some "project")
    Reference.protocolHostnameOf Reference.schemaRemoved
    getGitHubFiles archiveRootRemoved (fun url => url)
    (fun _ _ _ => Resolves []) (fun _ => Resolves EmptyString)
    fetchPageContent hrefsOf isSitemapUrl fetchSitemapUrls false
    (fun _ _ => []) processFileOutcome
    10 sources (orchestrator schedules).

(** *** Two repositories, the first of which exhausts the quota *)

Definition fileA : FileData :=
  {| path := "one-main/a.md"; name := "a.md"; content := "alpha" |}.
Definition fileB : FileData :=
  {| path := "two-main/b.md"; name := "b.md"; content := "beta" |}.

Definition twoRepositories : list Source :=
  [ {| id := "s1"; data := GitHubSource "https://github.com/acme/one" None |};
    {| id := "s2"; data := GitHubSource "https://github.com/acme/two" None |} ].

Definition archives (url : string) (_ : option string) (_ _ : list string)
  : Promise (list FileData) :=
  if String.eqb url "https://github.com/acme/one" then Resolves [fileA]
  else Resolves [fileB].

(** [processFile] fails with the quota error throughout the first call
    of [generateEmbeddings] and succeeds afterwards. *)
Definition quotaDuringFirstCall (call _ : nat) : Promise unit :=
  if (call =? 0)%nat then Rejects quotaError else Resolves tt.

Definition noPage (_ : string) (_ : bool) : Promise (option string) :=
  Resolves None.
Definition noSitemap (_ : string) : bool := false.
Definition noSitemapUrls (_ : string) (_ : bool) : Promise (list string) :=
  Resolves [].

Definition oneItem : list Action := [Settle 0; Settle 0; Join].

Definition quotaRun : option Orchestrator :=
  train archives noPage noSitemap noSitemapUrls quotaDuringFirstCall
    twoRepositories [oneItem; oneItem].

(** *** A page that links to another page in two ways *)

Definition docsUrl : string := "https://x.com/docs".
Definition pageUrl : string := "https://x.com/docs/a".

Definition site (url : string) (_ : bool) : Promise (option string) :=
  if String.eqb url docsUrl then Resolves (Some ("a " ++ pageUrl))
  else if String.eqb url pageUrl then Resolves (Some docsUrl)
  else Resolves None.

Definition allProcessed (_ _ : nat) : Promise unit := Resolves tt.

Definition noArchive (_ : string) (_ : option string) (_ _ : list string)
  : Promise (list FileData) := Resolves [].

Definition twoItems : list Action :=
  [Settle 0; Settle 1; Settle 0; Settle 1; Join].

Definition crawlRun : option Orchestrator :=
  train noArchive site noSitemap noSitemapUrls allProcessed
    [ {| id := "site"; data := WebsiteSource docsUrl |} ]
    [oneItem; twoItems].

(** *** A sitemap of 15 pages *)

Definition sitemapUrl : string := "https://x.com/sitemap.xml".

Definition pageNumber (n : nat) : string :=
  "https://x.com/p" ++ String (ascii_of_nat (97 + n)) EmptyString.

Definition fifteenPages : list string := map pageNumber (seq 0 15).

Definition isXml (url : string) : bool := endsWith url ".xml".

Definition sitemapOf (_ : string) (_ : bool) : Promise (list string) :=
  Resolves fifteenPages.

Definition everyPage (url : string) (_ : bool) : Promise (option string) :=
  Resolves (Some url).

(** Every item in turn, three times over, then the join. *)
Definition inTurn (n : nat) : list Action :=
  (map Settle (seq 0 n) ++ map Settle (seq 0 n) ++ map Settle (seq 0 n)
   ++ [Join])%list.

(** *** Further jobs and runs *)

Definition foxContent : string :=
  "# Title" ++ Reference.LF ++ "The quick brown fox jumps over the lazy dog".

Definition missingPageJob : Job :=
  websiteJob noPage false (fun _ _ => []) allProcessed 0 "site" [docsUrl].

Definition runMissingPage : Provider * Promise unit :=
  generateEmbeddingForFile Reference.globMatch Reference.pathnameOf checksumOf
    includeGlobs excludeGlobs QUOTA missingPageJob 0 idle.

Definition sitemapStart : Orchestrator := orchestrator [inTurn 15].

Definition sitemapSourceRun : option Orchestrator :=
  trainSource Reference.globMatch Reference.pathnameOf checksumOf
    includeGlobs excludeGlobs QUOTA (Some "project")
    Reference.protocolHostnameOf Reference.schemaRemoved
    noArchive archiveRootRemoved (fun url => url)
    (fun _ _ _ => Resolves []) (fun _ => Resolves EmptyString)
    everyPage hrefsOf isXml sitemapOf false
    (fun _ _ => []) allProcessed
    10 {| id := "site"; data := WebsiteSource sitemapUrl |} sitemapStart.

Definition sitemapOutcome : Orchestrator :=
  match sitemapSourceRun with
  | Some o => o
  | None => sitemapStart
  end.

Definition storedJob : Job :=
  gitHubJob archiveRootRemoved
    (fun _ _ => [ {| row_path := "a.md";
                     row_checksum := Some (checksumOf "alpha") |} ])
    allProcessed 0 "s1" [fileA].

Definition stopped : Provider := stopGeneratingEmbeddings idle.

(** Six pages and seven pages in one pool; the first page of six hits the
    quota. *)
Definition quotaOnFirst (_ index : nat) : Promise unit :=
  if (index =? 0)%nat then Rejects quotaError else Resolves tt.

Definition sixPagesJob : Job :=
  websiteJob everyPage false (fun _ _ => []) quotaOnFirst 0 "site"
    (firstn 6 fifteenPages).

Definition sevenPagesJob : Job :=
  websiteJob everyPage false (fun _ _ => []) allProcessed 0 "site"
    (firstn 7 fifteenPages).

Definition poolRun (job : Job) (schedule : list Action) : Run :=
  exec Reference.globMatch Reference.pathnameOf checksumOf
    includeGlobs excludeGlobs QUOTA job schedule
    (startRun Reference.globMatch Reference.pathnameOf
       includeGlobs excludeGlobs job idle).

(** The first page is submitted and fails; the call returns; the sixth
    page, started by the limiter after the failure, goes on. *)
Definition quotaThenSixth : list Action :=
  [Settle 0; Settle 0; Join; Settle 5; Settle 5].

(** The first page is submitted; the user asks to stop; every active
    page is followed to its end. *)
Definition stopAfterFirstSubmission : list Action :=
  ([Settle 0; Cancel] ++ map Settle (seq 0 7) ++ map Settle (seq 0 7)
   ++ [Join])%list.

End Scenario.

(** * Further vocabulary *)

Section VocabularyExtra.
Import JsString Utils UtilsExtra Training.

(** The rest of a URL after the repository: empty, or starting with a
    character outside the class. *)
Definition endsRepo (rest : string) : Prop :=
  match rest with
  | EmptyString => True
  | String c _ => isRepoChar c = false
  end.

(** The words of a string that are not empty. *)
Definition nonEmptyWords (words : list string) : list string :=
  filter (fun w => negb (String.eqb w EmptyString)) words.

(** Each pair starts where the one before ends, the first at [from]. *)
Fixpoint chained (from : Z) (l : list (Z * Z)) : Prop :=
  match l with
  | [] => True
  | (a, b) :: rest => a = from /\ chained b rest
  end.

(** The end of the last pair, [from] for the empty list. *)
Fixpoint lastEnd (from : Z) (l : list (Z * Z)) : Z :=
  match l with
  | [] => from
  | (_, b) :: rest => lastEnd b rest
  end.

(** The part of the range that the intervals leave out at its end. *)
Definition uncovered (interval : Intervals.TimeInterval) : Z :=
  match interval with
  | Intervals.i_3m => 518400000
  | Intervals.i_1y => 432000000
  | _ => 0
  end%Z.

(** Each number is below all that follow it. *)
Fixpoint ascending (l : list nat) : Prop :=
  match l with
  | [] => True
  | x :: rest => (forall y, In y rest -> x < y) /\ ascending rest
  end.

(** The items whose content was asked for, in the order of the calls. *)
Definition fetchedItems (t : list Event) : list nat :=
  flat_map (fun e => match e with EvFetchContent i => [i] | _ => [] end) t.

(** The number of events of the item [index] that satisfy [f]. *)
Definition countOf (f : Event -> bool) (index : nat) (t : list Event) : nat :=
  countEvents
    (fun e =>
       f e && match eventItem e with
              | Some i => (i =? index)%nat
              | None => false
              end) t.

Definition isFetchContent (e : Event) : bool :=
  match e with EvFetchContent _ => true | _ => false end.

(** The number of active entries that satisfy [f]. *)
Definition countActive (f : nat * Phase -> bool) (act : list (nat * Phase))
  : nat :=
  List.length (filter f act).

Definition awaitsContent (index : nat) (x : nat * Phase) : bool :=
  (fst x =? index)%nat && isAwaitContent (snd x).

Definition awaitsProcess (index : nat) (x : nat * Phase) : bool :=
  (fst x =? index)%nat && isAwaitProcess (snd x).

(** For one item: it is queued or fetched at most once, submitted only
    after its fetch, and called back only after its submission. *)
Definition InvOnce (index : nat) (t0 : list Event)
    (p : Provider) (q : list nat) (act : list (nat * Phase)) : Prop :=
  exists new,
    trace p = (t0 ++ new)%list /\
    count_occ Nat.eq_dec q index + countOf isFetchContent index new <= 1 /\
    countOf isProcessFile index new + countActive (awaitsContent index) act
    <= countOf isFetchContent index new /\
    countOf isFileProcessed index new + countActive (awaitsProcess index) act
    = countOf isProcessFile index new.

(** The queue is a run of consecutive indices up to [n], and the
    contents asked for so far are those of smaller indices, in order. *)
Definition InvOrder (n : nat) (t0 : list Event)
    (p : Provider) (q : list nat) (act : list (nat * Phase)) : Prop :=
  exists new next,
    trace p = (t0 ++ new)%list /\
    q = seq next (n - next) /\ next <= n /\
    ascending (fetchedItems new) /\
    (forall i, In i (fetchedItems new) -> i < next).

(** A loading state shows the position and the name of an item of the
    job. *)
Definition showsItemOf (job : Job) (s : TrainingState) : Prop :=
  match s with
  | Loading progress total filename =>
      1 <= progress <= total /\ total = numFiles job /\
      filename = getNameFromPath (getFilePath job (progress - 1))
  | _ => True
  end.

(** The state is the one the call found, or one that shows an item of
    the job. *)
Definition InvProgress (job : Job) (s0 : TrainingState)
    (p : Provider) (q : list nat) (act : list (nat * Phase)) : Prop :=
  (state p = s0 \/ showsItemOf job (state p)) /\
  (forall i, In i q -> i < numFiles job).


(** The errors logged to the console. *)
Definition consoleErrors (t : list Event) : list ApiError :=
  flat_map (fun ev => match ev with EvConsoleError e => [e] | _ => [] end) t.





(** The URL with the schema that [toNormalizedUrl] puts before a URL
    that has none. *)
Definition withSchema (url : string) (useInsecureSchema : bool) : string :=
  if startsWith url "http://" || startsWith url "https://" then url
  else (if useInsecureSchema then "http://" else "https://") ++ url.

(** A run of slashes. *)
Definition slashesOnly (s : string) : bool :=
  all_chars (Ascii.eqb "/"%char) s.

(** The search result of a file with the given sections. *)
Definition resultOfFile {FileId Json SourceType : Type}
    (row : SearchHandler.FileRow FileId Json SourceType)
    (sections : list (SearchHandler.ResultSection Json))
  : SearchHandler.SearchResult Json SourceType :=
  {| SearchHandler.result_path := SearchHandler.row_path row;
     SearchHandler.result_meta := SearchHandler.row_meta row;
     SearchHandler.result_source_type := SearchHandler.row_source_type row;
     SearchHandler.result_source_data := SearchHandler.row_source_data row;
     SearchHandler.score := 0;
     SearchHandler.sections := sections |}.

End VocabularyExtra.

(** ** Further concrete data *)

Module ScenarioExtra.
Import JsString Utils UtilsExtra Training Scenario.

(** Values of the object model: [undefined], numbers, strings. *)
Inductive JsValue : Type :=
| JsUndefined
| JsNumber (n : Z)
| JsText (s : string).

Definition jsStrictEq (v w : JsValue) : bool :=
  match v, w with
  | JsUndefined, JsUndefined => true
  | JsNumber a, JsNumber b => Z.eqb a b
  | JsText a, JsText b => String.eqb a b
  | _, _ => false
  end.

Definition noPrototype (_ : string) : JsValue := JsUndefined.

Definition point : JsObject JsValue :=
  [("x", JsNumber 1); ("y", JsNumber 2)].

(** The link discovery on the site of two pages, from its
    documentation page. *)
Definition crawl (fuel : nat) : Crawl :=
  discoverLinks Reference.globMatch Reference.pathnameOf checksumOf
    includeGlobs excludeGlobs QUOTA (Some "project")
    Reference.protocolHostnameOf Reference.schemaRemoved
    site hrefsOf false (fun _ _ => []) allProcessed
    fuel "site" docsUrl [] [docsUrl] (orchestrator [oneItem; twoItems]).

Definition crawlOutcome : Orchestrator :=
  match crawl 10 with
  | Crawled o => o
  | _ => orchestrator []
  end.

(** Three matches in two files, and the rows of the two files. *)
Definition matches : list (SearchHandler.FTSResult nat unit) :=
  [ {| SearchHandler.file_id := 1;
       SearchHandler.fts_content := Some "alpha one";
       SearchHandler.fts_meta := None |};
    {| SearchHandler.file_id := 2;
       SearchHandler.fts_content := Some "beta one";
       SearchHandler.fts_meta := None |};
    {| SearchHandler.file_id := 1;
       SearchHandler.fts_content := None;
       SearchHandler.fts_meta := Some tt |} ].

Definition fileRows : list (SearchHandler.FileRow nat unit SourceType) :=
  [ {| SearchHandler.row_id := 1; SearchHandler.row_path := "a.md";
       SearchHandler.row_meta := None;
       SearchHandler.row_source_type := github;
       SearchHandler.row_source_data := None |};
    {| SearchHandler.row_id := 2; SearchHandler.row_path := "b.md";
       SearchHandler.row_meta := None;
       SearchHandler.row_source_type := github;
       SearchHandler.row_source_data := None |} ].

End ScenarioExtra.


(** * Properties *)

(** ** String primitives *)

Section StringFacts.
Import JsString.

Lemma length_take (n : nat) (s : string) : String.length (take n s) <= n.
Proof.
  revert s; induction n as [|n IH]; intros [|c t]; simpl; try lia.
  specialize (IH t); lia.
Qed.

Lemma length_take_le (n : nat) (s : string) :
  String.length (take n s) <= String.length s.
Proof.
  revert s; induction n as [|n IH]; intros [|c t]; simpl; try lia.
  specialize (IH t); lia.
Qed.

Lemma length_take_exact (n : nat) (s : string) :
  n <= String.length s -> String.length (take n s) = n.
Proof.
  revert s; induction n as [|n IH]; intros [|c t] H; simpl in *; try lia.
  rewrite IH; lia.
Qed.

Lemma length_drop (n : nat) (s : string) :
  String.length (drop n s) = String.length s - n.
Proof.
  revert s; induction n as [|n IH]; intros [|c t]; simpl; try lia.
  apply IH.
Qed.

Lemma take_drop (n : nat) (s : string) : take n s ++ drop n s = s.
Proof.
  revert s; induction n as [|n IH]; intros [|c t]; simpl; try reflexivity.
  now rewrite IH.
Qed.

Lemma length_slice (s : string) (a b : nat) :
  String.length (slice s a b) <= b - a.
Proof. unfold slice; apply length_take. Qed.

Lemma length_append (s t : string) :
  String.length (s ++ t) = String.length s + String.length t.
Proof. induction s as [|c s IH]; simpl; [reflexivity | now rewrite IH]. Qed.

Lemma startsWith_append (p rest : string) : startsWith (p ++ rest) p = true.
Proof.
  induction p as [|c p IH]; simpl; [reflexivity|].
  now rewrite Ascii.eqb_refl.
Qed.

Lemma startsWith_split (s p : string) :
  startsWith s p = true -> exists rest, s = p ++ rest.
Proof.
  revert s; induction p as [|c p IH]; intros s H.
  - now exists s.
  - destruct s as [|d s]; simpl in H; [discriminate|].
    apply andb_true_iff in H. destruct H as [Hc H].
    apply Ascii.eqb_eq in Hc. subst d.
    destruct (IH _ H) as [rest ->]. now exists rest.
Qed.

End StringFacts.

(** ** The path filter *)

Section PathFilter.
Import JsString Utils.



Lemma append_empty_r (s : string) : s ++ EmptyString = s.
Proof. induction s as [|c s IH]; simpl; [reflexivity | now rewrite IH]. Qed.

Lemma append_assoc (a b c : string) : (a ++ b) ++ c = a ++ (b ++ c).
Proof. induction a as [|x a IH]; simpl; [reflexivity | now rewrite IH]. Qed.




Variable minimatch : string -> string -> bool.
Variable URL_pathname : string -> option string.

Local Abbreviation shouldInclude :=
  (shouldIncludeFileWithPath minimatch URL_pathname).
Local Abbreviation normalized := (normalizedPath URL_pathname).


Lemma all_chars_append (f : ascii -> bool) (s t : string) :
  all_chars f (s ++ t) = all_chars f s && all_chars f t.
Proof.
  induction s as [|c s IH]; simpl; [reflexivity|].
  rewrite IH. now rewrite andb_assoc.
Qed.

(** The extension pattern finds the last dot when only word characters
    follow it. *)
Lemma getFileExtension_append (pre ext : string) :
  all_chars isWordChar ext = true ->
  getFileExtension (pre ++ "." ++ ext) = Some ext.
Proof.
  intros Hext. induction pre as [|c pre IH].
  - cbn. now rewrite Hext.
  - change (String c pre ++ "." ++ ext) with (String c (pre ++ "." ++ ext)).
    cbn [getFileExtension].
    replace (all_chars isWordChar (pre ++ "." ++ ext)) with false.
    + rewrite andb_false_r. exact IH.
    + rewrite all_chars_append. cbn. now rewrite andb_false_r.
Qed.


End PathFilter.


(** ** Keyword-in-context snippets *)

Section SnippetFacts.
Import JsString Search.

Lemma occursAt_0 (s q : string) :
  occursAt s q 0 <-> startsWith s q = true.
Proof.
  split.
  - intros (pre & post & -> & Hlen).
    destruct pre; [|discriminate]. cbn [append]. apply startsWith_append.
  - intros H. destruct (startsWith_split _ _ H) as [rest ->].
    now exists EmptyString, rest.
Qed.

Lemma occursAt_S (c : ascii) (t q : string) (j : nat) :
  occursAt (String c t) q (S j) <-> occursAt t q j.
Proof.
  split.
  - intros (pre & post & Heq & Hlen).
    destruct pre as [|d pre]; [discriminate|].
    simpl in Heq, Hlen. injection Heq as _ ->. injection Hlen as <-.
    now exists pre, post.
  - intros (pre & post & -> & <-). now exists (String c pre), post.
Qed.

Lemma occursAt_empty (q : string) (i : nat) :
  occursAt EmptyString q i -> i = 0.
Proof.
  intros (pre & post & Heq & <-). now destruct pre.
Qed.

Lemma indexOf_from_first (q s : string) (k i : nat) :
  firstOccurrence s q i -> indexOf_from q s k = Some (k + i).
Proof.
  revert k i; induction s as [|c t IH]; intros k i [Hocc Hfirst].
  - pose proof (occursAt_empty _ _ Hocc) as ->.
    apply occursAt_0 in Hocc. cbn [indexOf_from]. rewrite Hocc.
    f_equal; lia.
  - cbn [indexOf_from]. destruct i as [|i].
    + apply occursAt_0 in Hocc. rewrite Hocc. f_equal; lia.
    + destruct (startsWith (String c t) q) eqn:Hstart.
      * exfalso. apply (Hfirst 0); [lia | now apply occursAt_0].
      * rewrite (IH (S k) i); [f_equal; lia|].
        split; [now apply occursAt_S in Hocc|].
        intros j Hj Hoccj. apply (Hfirst (S j)); [lia|].
        now apply occursAt_S.
Qed.

Lemma indexOf_from_absent (q s : string) (k : nat) :
  (forall i, ~ occursAt s q i) -> indexOf_from q s k = None.
Proof.
  revert k; induction s as [|c t IH]; intros k Habs; cbn [indexOf_from].
  - destruct (startsWith EmptyString q) eqn:Hstart; [|reflexivity].
    exfalso. apply (Habs 0). now apply occursAt_0.
  - destruct (startsWith (String c t) q) eqn:Hstart.
    + exfalso. apply (Habs 0). now apply occursAt_0.
    + apply IH. intros i Hocc. apply (Habs (S i)). now apply occursAt_S.
Qed.

Lemma collapseWhitespace_from_spacesOnly (inRun : bool) (s : string) :
  spacesOnly (collapseWhitespace_from inRun s) = true.
Proof.
  revert inRun; induction s as [|c t IH]; intros inRun; [reflexivity|].
  cbn [collapseWhitespace_from].
  destruct (isSpace c) eqn:Hc.
  - destruct inRun; [apply IH|].
    unfold spacesOnly; cbn [all_chars]. rewrite Ascii.eqb_refl, orb_true_r.
    apply IH.
  - unfold spacesOnly; cbn [all_chars]. rewrite Hc. apply IH.
Qed.

Lemma replaceEscapedNewlines_spacesOnly (s : string) :
  spacesOnly s = true -> spacesOnly (replaceEscapedNewlines s) = true.
Proof.
  enough (H : (spacesOnly s = true ->
               spacesOnly (replaceEscapedNewlines s) = true) /\
              forall c, spacesOnly (String c s) = true ->
                        spacesOnly (replaceEscapedNewlines (String c s)) = true)
    by apply H.
  induction s as [|d u [IH1 IH2]].
  - split; [reflexivity|]. intros c H. exact H.
  - split; [apply IH2|]. intros c H.
    cbn [replaceEscapedNewlines].
    unfold spacesOnly in H. cbn [all_chars] in H.
    apply andb_true_iff in H. destruct H as [Hc H].
    apply andb_true_iff in H. destruct H as [Hd Hu].
    destruct (Ascii.eqb c "\"%char && Ascii.eqb d "n"%char).
    + unfold spacesOnly; cbn [all_chars].
      rewrite Ascii.eqb_refl, orb_true_r. now apply IH1.
    + unfold spacesOnly; cbn [all_chars]. rewrite Hc.
      apply IH2. unfold spacesOnly; cbn [all_chars]. now rewrite Hd.
Qed.

(** Re-joining the words of a string never lengthens it. *)
Lemma splitWhitespace_from_nonempty (inRun : bool) (cur s : string) :
  splitWhitespace_from inRun cur s <> [].
Proof.
  revert inRun cur; induction s as [|c t IH]; intros inRun cur;
    cbn [splitWhitespace_from]; [discriminate|].
  destruct (isSpace c); [destruct inRun|]; try apply IH. discriminate.
Qed.

Lemma length_join_cons (sep w : string) (ws : list string) :
  String.length (join sep (w :: ws))
  <= String.length w + String.length sep + String.length (join sep ws).
Proof.
  destruct ws as [|w' ws]; cbn [join]; [simpl; lia|].
  rewrite !length_append. lia.
Qed.

Lemma length_join_split (inRun : bool) (cur s : string) :
  String.length (join " " (splitWhitespace_from inRun cur s))
  <= String.length cur + String.length s.
Proof.
  revert inRun cur; induction s as [|c t IH]; intros inRun cur;
    cbn [splitWhitespace_from].
  - simpl; lia.
  - destruct (isSpace c).
    + destruct inRun.
      * specialize (IH true cur). simpl; lia.
      * pose proof (length_join_cons " " cur
                      (splitWhitespace_from true EmptyString t)) as H.
        specialize (IH true EmptyString). simpl in *; lia.
    + specialize (IH false (cur ++ String c EmptyString)).
      rewrite length_append in IH. simpl in *; lia.
Qed.

Lemma length_join_tail (sep w : string) (ws : list string) :
  String.length (join sep ws) <= String.length (join sep (w :: ws)).
Proof.
  destruct ws as [|w' ws]; cbn [join]; [simpl; lia|].
  rewrite !length_append. lia.
Qed.

Lemma length_join_firstn (sep : string) (k : nat) (ws : list string) :
  String.length (join sep (firstn k ws)) <= String.length (join sep ws).
Proof.
  revert k; induction ws as [|w ws IH]; intros k.
  - now rewrite firstn_nil.
  - destruct k as [|k]; [simpl; lia|]. cbn [firstn].
    specialize (IH k).
    destruct ws as [|w' ws]; [now rewrite firstn_nil|].
    destruct k as [|k].
    + cbn [firstn join]. rewrite !length_append. lia.
    + cbn [firstn join] in *. rewrite !length_append. lia.
Qed.

Lemma length_join_dropFirstAndLast (ws : list string) :
  String.length (join " " (dropFirstAndLast ws))
  <= String.length (join " " ws).
Proof.
  unfold dropFirstAndLast.
  etransitivity; [apply length_join_firstn|].
  destruct ws as [|w ws]; [simpl; lia|]. cbn [skipn].
  apply length_join_tail.
Qed.

(** *** Collapsing the white space *)

Lemma collapse_after_run (run rest : string) :
  all_chars isSpace run = true -> startsWithSpace rest = false ->
  collapseWhitespace_from true (run ++ rest)
  = collapseWhitespace_from false rest.
Proof.
  intros Hrun Hrest. induction run as [|c run IH].
  - cbn [append]. destruct rest as [|d rest]; [reflexivity|].
    cbn in Hrest. cbn [collapseWhitespace_from]. now rewrite Hrest.
  - cbn [all_chars] in Hrun. apply andb_true_iff in Hrun.
    destruct Hrun as [Hc Hrun]. cbn [append collapseWhitespace_from].
    rewrite Hc. now apply IH.
Qed.

Lemma leading_run (s : string) :
  exists run rest,
    s = run ++ rest /\ all_chars isSpace run = true /\
    startsWithSpace rest = false /\
    String.length rest <= String.length s.
Proof.
  induction s as [|c s IH].
  - exists EmptyString, EmptyString. now repeat split.
  - destruct (isSpace c) eqn:Hc.
    + destruct IH as (run & rest & -> & Hrun & Hrest & Hlen).
      exists (String c run), rest. cbn [all_chars append String.length].
      rewrite Hc, Hrun. repeat split; try assumption. lia.
    + exists EmptyString, (String c s). now repeat split.
Qed.

Lemma collapseWhitespace_Collapsed (s : string) :
  Collapsed s (collapseWhitespace s).
Proof.
  unfold collapseWhitespace.
  remember (String.length s) as n eqn:Hn.
  assert (Hle : String.length s <= n) by lia. clear Hn.
  revert s Hle; induction n as [|n IH]; intros s Hle.
  - destruct s; [constructor | cbn in Hle; lia].
  - destruct s as [|c t]; [constructor|]. cbn [String.length] in Hle.
    cbn [collapseWhitespace_from]. destruct (isSpace c) eqn:Hc.
    + destruct (leading_run t) as (run & rest & -> & Hrun & Hrest & Hlen).
      rewrite (collapse_after_run run rest Hrun Hrest).
      change (String c (run ++ rest)) with (String c run ++ rest).
      apply collapsed_run; try assumption.
      * discriminate.
      * cbn [all_chars]. now rewrite Hc, Hrun.
      * apply IH. rewrite length_append in Hle. lia.
    + apply collapsed_char; [exact Hc | apply IH; lia].
Qed.

Lemma Collapsed_unique (s t : string) :
  Collapsed s t -> collapseWhitespace s = t.
Proof.
  unfold collapseWhitespace.
  induction 1 as [|c s t Hc _ IH|run s t Hne Hrun Hs _ IH].
  - reflexivity.
  - cbn [collapseWhitespace_from]. now rewrite Hc, IH.
  - destruct run as [|c run]; [congruence|].
    cbn [all_chars] in Hrun. apply andb_true_iff in Hrun.
    destruct Hrun as [Hc Hrun].
    cbn [append collapseWhitespace_from]. rewrite Hc.
    now rewrite (collapse_after_run run s Hrun Hs), IH.
Qed.

(** *** The characters of the snippet *)

Lemma occursIn_append (c : ascii) (s t : string) :
  occursIn c (s ++ t) <-> occursIn c s \/ occursIn c t.
Proof.
  induction s as [|d s IH]; cbn [append occursIn]; [tauto|].
  rewrite IH. tauto.
Qed.

Lemma occursIn_take (c : ascii) (n : nat) (s : string) :
  occursIn c (take n s) -> occursIn c s.
Proof.
  revert s; induction n as [|n IH]; intros [|d t]; cbn; try tauto.
  intros [H|H]; [now left | right; now apply IH].
Qed.

Lemma occursIn_drop (c : ascii) (n : nat) (s : string) :
  occursIn c (drop n s) -> occursIn c s.
Proof.
  revert s; induction n as [|n IH]; intros [|d t]; cbn; try tauto.
  intros H. right. now apply IH.
Qed.

Lemma occursIn_collapse (c : ascii) (inRun : bool) (s : string) :
  occursIn c (collapseWhitespace_from inRun s) ->
  c = " "%char \/ occursIn c s.
Proof.
  revert inRun; induction s as [|d t IH]; intros inRun;
    cbn [collapseWhitespace_from occursIn]; [tauto|].
  destruct (isSpace d).
  - destruct inRun.
    + intros H. destruct (IH _ H); tauto.
    + cbn [occursIn]. intros [H|H]; [now left|]. destruct (IH _ H); tauto.
  - cbn [occursIn]. intros [H|H]; [tauto|]. destruct (IH _ H); tauto.
Qed.

Lemma occursIn_replaceEscapedNewlines (c : ascii) (s : string) :
  occursIn c (replaceEscapedNewlines s) -> c = " "%char \/ occursIn c s.
Proof.
  enough (H : (occursIn c (replaceEscapedNewlines s) ->
               c = " "%char \/ occursIn c s) /\
              forall d, occursIn c (replaceEscapedNewlines (String d s)) ->
                        c = " "%char \/ occursIn c (String d s))
    by apply H.
  induction s as [|d u [IH1 IH2]].
  - split; [cbn; tauto|]. intros d. cbn. tauto.
  - split; [apply IH2|]. intros e. cbn [replaceEscapedNewlines].
    destruct (Ascii.eqb e "\"%char && Ascii.eqb d "n"%char).
    + cbn [occursIn]. intros [H|H]; [now left|].
      destruct (IH1 H); tauto.
    + cbn [occursIn]. intros [H|H]; [tauto|].
      destruct (IH2 d H) as [H'|H']; [now left|]. cbn [occursIn] in H'. tauto.
Qed.

Lemma occursIn_splitWhitespace (c : ascii) (inRun : bool) (cur s w : string) :
  In w (splitWhitespace_from inRun cur s) -> occursIn c w ->
  occursIn c cur \/ occursIn c s.
Proof.
  revert inRun cur; induction s as [|d t IH]; intros inRun cur;
    cbn [splitWhitespace_from].
  - intros [<-|[]] H. now left.
  - destruct (isSpace d).
    + destruct inRun.
      * intros Hin H. destruct (IH _ _ Hin H); cbn [occursIn]; tauto.
      * intros [<-|Hin] H; [now left|].
        destruct (IH _ _ Hin H) as [[]|H']. cbn [occursIn]. tauto.
    + intros Hin H. destruct (IH _ _ Hin H) as [H'|H'].
      * apply occursIn_append in H'. cbn [occursIn] in *. tauto.
      * cbn [occursIn]. tauto.
Qed.

Lemma occursIn_join (c : ascii) (ws : list string) :
  occursIn c (join " " ws) ->
  c = " "%char \/ exists w, In w ws /\ occursIn c w.
Proof.
  induction ws as [|w ws IH]; cbn [join]; [intros []|].
  destruct ws as [|w' ws].
  - intros H. right. exists w. split; [now left | exact H].
  - intros H. apply occursIn_append in H. destruct H as [H|H].
    + right. exists w. split; [now left | exact H].
    + apply occursIn_append in H. destruct H as [H|H].
      * cbn in H. tauto.
      * destruct (IH H) as [Hs|(x & Hx & Hc)]; [now left|].
        right. exists x. split; [now right | exact Hc].
Qed.

Lemma In_dropFirstAndLast (w : string) (ws : list string) :
  In w (dropFirstAndLast ws) -> In w ws.
Proof.
  unfold dropFirstAndLast. intros H.
  assert (Hfirst : forall n (l : list string), In w (firstn n l) -> In w l).
  { induction n as [|n IH]; intros [|x l]; cbn; try tauto.
    intros [Hx|Hx]; [now left | right; now apply IH]. }
  apply Hfirst in H. destruct ws as [|x ws]; [exact H | now right].
Qed.

(** *** Words *)

Lemma join_cons (w : string) (ws : list string) :
  ws <> [] -> join " " (w :: ws) = w ++ " " ++ join " " ws.
Proof. destruct ws; [congruence | reflexivity]. Qed.

Lemma join_splitWhitespace_from (inRun : bool) (cur s : string) :
  join " " (splitWhitespace_from inRun cur s)
  = cur ++ collapseWhitespace_from inRun s.
Proof.
  revert inRun cur; induction s as [|c t IH]; intros inRun cur;
    cbn [splitWhitespace_from collapseWhitespace_from].
  - cbn [join]. clear. induction cur as [|d cur IH]; cbn; congruence.
  - destruct (isSpace c).
    + destruct inRun; [apply IH|].
      rewrite join_cons by apply splitWhitespace_from_nonempty.
      now rewrite IH.
    + rewrite IH. clear. induction cur as [|d cur IH]; cbn; congruence.
Qed.

Lemma splitWhitespace_from_words (inRun : bool) (cur s w : string) :
  all_chars (fun c => negb (isSpace c)) cur = true ->
  In w (splitWhitespace_from inRun cur s) ->
  all_chars (fun c => negb (isSpace c)) w = true.
Proof.
  revert inRun cur; induction s as [|c t IH]; intros inRun cur Hcur;
    cbn [splitWhitespace_from].
  - now intros [<-|[]].
  - destruct (isSpace c) eqn:Hc.
    + destruct inRun; [now apply IH|].
      intros [<-|Hin]; [exact Hcur|]. now apply (IH true EmptyString).
    + apply IH. rewrite all_chars_append, Hcur. cbn. now rewrite Hc.
Qed.

Lemma dropFirstAndLast_middle (w w' : string) (ws : list string) :
  dropFirstAndLast (w :: ws ++ [w']) = ws.
Proof.
  unfold dropFirstAndLast. cbn [skipn List.length].
  rewrite length_app. cbn [List.length].
  replace (S (List.length ws + 1) - 1 - 1) with (List.length ws + 0) by lia.
  rewrite firstn_app_2. cbn. now rewrite app_nil_r.
Qed.

(** *** The window *)

Lemma slice_occursAt (s : string) (a b : nat) :
  a <= String.length s -> occursAt s (slice s a b) a.
Proof.
  intros Ha. exists (take a s), (drop (b - a) (drop a s)). split.
  - unfold slice. now rewrite !take_drop.
  - now apply length_take_exact.
Qed.

Lemma take_prefix (n : nat) (s : string) :
  (exists rest, s = take n s ++ rest) /\
  String.length (take n s) = Nat.min n (String.length s).
Proof.
  split; [exists (drop n s); now rewrite take_drop|].
  revert s; induction n as [|n IH]; intros [|c t]; cbn; try reflexivity.
  now rewrite IH.
Qed.

Lemma length_slice_exact (s : string) (a b : nat) :
  a <= b -> b <= String.length s -> String.length (slice s a b) = b - a.
Proof.
  intros Hab Hb. unfold slice. apply length_take_exact.
  rewrite length_drop. lia.
Qed.

Lemma roundHalf_even (n : nat) : Nat.even n = true -> 2 * roundHalf n = n.
Proof.
  intros H. apply Nat.even_spec in H. destruct H as [k ->].
  unfold roundHalf. replace (2 * k + 1) with (1 + k * 2) by lia.
  rewrite Nat.div_add by lia. cbn. lia.
Qed.

Lemma roundHalf_odd (n : nat) : Nat.odd n = true -> 2 * roundHalf n = n + 1.
Proof.
  intros H. apply Nat.odd_spec in H. destruct H as [k ->].
  unfold roundHalf. replace (2 * k + 1 + 1) with (0 + (k + 1) * 2) by lia.
  rewrite Nat.div_add by lia. cbn. lia.
Qed.

Lemma occurrence_dichotomy (s q : string) :
  (forall i, ~ occursAt s q i) \/ exists i, firstOccurrence s q i.
Proof.
  induction s as [|c t IH].
  - destruct (startsWith EmptyString q) eqn:Hstart.
    + right. exists 0. split; [now apply occursAt_0 | intros j Hj; lia].
    + left. intros i Hocc. pose proof (occursAt_empty _ _ Hocc) as ->.
      apply occursAt_0 in Hocc. congruence.
  - destruct (startsWith (String c t) q) eqn:Hstart.
    + right. exists 0. split; [now apply occursAt_0 | intros j Hj; lia].
    + destruct IH as [Habs|(i & Hocc & Hfirst)].
      * left. intros [|i] Hocc.
        -- apply occursAt_0 in Hocc. congruence.
        -- apply occursAt_S in Hocc. now apply (Habs i).
      * right. exists (S i). split; [now apply occursAt_S|].
        intros [|j] Hj Hoccj.
        -- apply occursAt_0 in Hoccj. congruence.
        -- apply occursAt_S in Hoccj. apply (Hfirst j); [lia | exact Hoccj].
Qed.

Lemma replaceEscapedNewlines_plain (s : string) :
  ~ occursIn "\"%char s -> replaceEscapedNewlines s = s.
Proof.
  enough (H : (~ occursIn "\"%char s -> replaceEscapedNewlines s = s) /\
              forall d, ~ occursIn "\"%char (String d s) ->
                        replaceEscapedNewlines (String d s) = String d s)
    by apply H.
  induction s as [|d u [IH1 IH2]].
  - split; [reflexivity|]. reflexivity.
  - split; [apply IH2|]. intros e He. cbn [replaceEscapedNewlines].
    cbn [occursIn] in He.
    destruct (Ascii.eqb_spec e "\"%char) as [->|Hne]; [tauto|].
    cbn [andb]. f_equal. apply IH2. cbn [occursIn]. tauto.
Qed.

Variable stripMarkdown : string -> string.

Local Abbreviation snippet := (createKWICSnippet stripMarkdown).
Local Abbreviation plain := (plainTextOf stripMarkdown).

Lemma length_snippet_found (content searchTerm : string) (maxLength i : nat) :
  indexOf (plain content) searchTerm = Some i ->
  String.length (snippet content searchTerm maxLength)
  <= 2 * roundHalf maxLength.
Proof.
  intros Hi. unfold createKWICSnippet. cbv zeta. rewrite Hi.
  set (window := slice _ _ _).
  assert (Hw : String.length window <= 2 * roundHalf maxLength).
  { subst window. etransitivity; [apply length_slice|].
    rewrite Nat.max_0_l. lia. }
  assert (Hj : String.length (join " " (splitWhitespace window))
               <= String.length window).
  { unfold splitWhitespace.
    pose proof (length_join_split false EmptyString window). simpl in *; lia. }
  destruct (3 <? _)%nat.
  - pose proof (length_join_dropFirstAndLast (splitWhitespace window)). lia.
  - lia.
Qed.

Lemma length_snippet_absent (content searchTerm : string) (maxLength : nat) :
  indexOf (plain content) searchTerm = None ->
  String.length (snippet content searchTerm maxLength) <= maxLength.
Proof.
  intros Hi. unfold createKWICSnippet. cbv zeta. rewrite Hi.
  etransitivity; [apply length_slice|]. lia.
Qed.

Lemma occursIn_plain (c : ascii) (content : string) :
  occursIn c (plain content) ->
  c = " "%char \/ occursIn c (stripMarkdown (trim content)).
Proof.
  unfold plainTextOf. intros H.
  apply occursIn_replaceEscapedNewlines in H. destruct H as [H|H]; [now left|].
  now apply occursIn_collapse in H.
Qed.

Lemma occursIn_snippet (c : ascii) (content query : string) (maxLength : nat) :
  occursIn c (snippet content query maxLength) ->
  c = " "%char \/ occursIn c (stripMarkdown (trim content)).
Proof.
  unfold createKWICSnippet. cbv zeta.
  assert (Hslice : forall a b, occursIn c (slice (plain content) a b) ->
                               c = " "%char \/
                               occursIn c (stripMarkdown (trim content))).
  { intros a b H. unfold slice in H. apply occursIn_take in H.
    apply occursIn_drop in H. now apply occursIn_plain. }
  assert (Hwords : forall a b w,
             In w (splitWhitespace (slice (plain content) a b)) ->
             occursIn c w ->
             c = " "%char \/ occursIn c (stripMarkdown (trim content))).
  { intros a b w Hin Hc. unfold splitWhitespace in Hin.
    destruct (occursIn_splitWhitespace c _ _ _ _ Hin Hc) as [[]|H].
    now apply (Hslice a b). }
  destruct (indexOf (plain content) query) as [i|]; [|apply Hslice].
  destruct (3 <? _)%nat; intros H; apply occursIn_join in H;
    destruct H as [H|(w & Hin & Hc)]; try (now left).
  - apply In_dropFirstAndLast in Hin. exact (Hwords _ _ w Hin Hc).
  - exact (Hwords _ _ w Hin Hc).
Qed.

(** C10.  With the default maximal length of 200 the snippet has at most
    200 characters, whether the search term occurs in the plain text or
    not. *)
Theorem createKWICSnippet_length (content searchTerm : string) :
  String.length (snippet content searchTerm defaultMaxLength) <= 200.
Proof.
  destruct (indexOf (plain content) searchTerm) as [i|] eqn:Hi.
  - pose proof (length_snippet_found _ _ defaultMaxLength _ Hi) as H.
    exact H.
  - exact (length_snippet_absent _ _ defaultMaxLength Hi).
Qed.

(** C6.  The plain text is made from what the Markdown stripper returns
    for the trimmed content: every maximal run of white space becomes
    one space and nothing else changes ([Collapsed], which holds of
    exactly one result), and then each backslash followed by [n]
    becomes a space; so its only white space is the plain space, and
    without a backslash it is the collapsed text itself.  Whatever the
    stripper is, the snippet has no character that the stripped text
    lacks, the space apart: what the stripper removes stays removed.
    The query either does not occur in the plain text or has a first
    (literal, case-sensitive) occurrence.  When it does not occur, the
    snippet is the first [maxLength] characters, the whole text when it
    has fewer.  When the first
    occurrence is at [i], the snippet is taken from the window that
    starts [roundHalf maxLength] characters before [i] (at 0 when there
    are fewer) and ends [roundHalf maxLength] characters after [i]:
    the window is the part of the plain text at that position, it has
    [maxLength] characters for an even [maxLength] such as the default
    of 200 when the text reaches that far on both sides, and the
    snippet is its words joined by one space, without the first and
    the last word when there are more than 3.  The words are those
    between the runs of white space: they hold no white space, and
    joined by a space they give the window with its runs collapsed.
    For the content [# Title], new line,
    [The quick brown fox jumps over the lazy dog] and the query [fox]
    the snippet contains [fox] and no [#]. *)
Theorem createKWICSnippet_window
    (Hstrip : stripMarkdown Scenario.foxContent
              = "The quick brown fox jumps over the lazy dog" ++ Reference.LF) :
  (forall content, spacesOnly (plain content) = true) /\
  (forall content query maxLength,
      (forall i, ~ occursAt (plain content) query i) ->
      snippet content query maxLength = take maxLength (plain content)) /\
  (forall content query maxLength i,
      firstOccurrence (plain content) query i ->
      let window :=
        slice (plain content) (i - roundHalf maxLength)
              (i + roundHalf maxLength) in
      let words := splitWhitespace window in
      snippet content query maxLength
      = if (3 <? List.length words)%nat
        then join " " (dropFirstAndLast words)
        else join " " words) /\
  roundHalf defaultMaxLength = 100 /\
  (snippet Scenario.foxContent "fox" defaultMaxLength
   = "quick brown fox jumps over the lazy dog" /\
   includes (snippet Scenario.foxContent "fox" defaultMaxLength) "fox" = true /\
   includes (snippet Scenario.foxContent "fox" defaultMaxLength) "#" = false) /\
  (forall s t, Collapsed s t <-> collapseWhitespace s = t) /\
  (forall content t,
      Collapsed (stripMarkdown (trim content)) t ->
      plain content = replaceEscapedNewlines t /\
      (~ occursIn "\"%char t -> plain content = t)) /\
  (forall content query maxLength c,
      occursIn c (snippet content query maxLength) ->
      c = " "%char \/ occursIn c (stripMarkdown (trim content))) /\
  (forall content query,
      (forall i, ~ occursAt (plain content) query i) \/
      exists i, firstOccurrence (plain content) query i) /\
  (forall content query maxLength i,
      firstOccurrence (plain content) query i ->
      let from := i - roundHalf maxLength in
      let window := slice (plain content) from (i + roundHalf maxLength) in
      occursAt (plain content) window from /\
      String.length window <= 2 * roundHalf maxLength /\
      (roundHalf maxLength <= i ->
       i + roundHalf maxLength <= String.length (plain content) ->
       String.length window = 2 * roundHalf maxLength)) /\
  (forall maxLength,
      (Nat.even maxLength = true -> 2 * roundHalf maxLength = maxLength) /\
      (Nat.odd maxLength = true -> 2 * roundHalf maxLength = maxLength + 1)) /\
  (forall s,
      join " " (splitWhitespace s) = collapseWhitespace s /\
      forall w, In w (splitWhitespace s) ->
                all_chars (fun c => negb (isSpace c)) w = true) /\
  (forall w w' ws, dropFirstAndLast (w :: ws ++ [w']) = ws) /\
  (forall n s,
      (exists rest, s = take n s ++ rest) /\
      String.length (take n s) = Nat.min n (String.length s)).
Proof.
  split.
  { intros content. unfold plainTextOf.
    apply replaceEscapedNewlines_spacesOnly.
    apply collapseWhitespace_from_spacesOnly. }
  split.
  { intros content query maxLength Habs. unfold createKWICSnippet. cbv zeta.
    unfold indexOf. rewrite (indexOf_from_absent _ _ 0 Habs).
    unfold slice. now rewrite Nat.sub_0_r. }
  split.
  { intros content query maxLength i Hfirst. cbv zeta.
    unfold createKWICSnippet. cbv zeta.
    unfold indexOf. rewrite (indexOf_from_first _ _ 0 _ Hfirst).
    cbn [Nat.add]. now rewrite Nat.max_0_l. }
  split; [reflexivity|].
  split.
  { assert (Hs : snippet Scenario.foxContent "fox" defaultMaxLength
                 = "quick brown fox jumps over the lazy dog").
    { unfold createKWICSnippet, plainTextOf. cbv zeta.
      replace (trim Scenario.foxContent) with Scenario.foxContent
        by (vm_compute; reflexivity).
      rewrite Hstrip. vm_compute. reflexivity. }
    rewrite Hs. repeat split; vm_compute; reflexivity. }
  split.
  { intros s t; split;
      [apply Collapsed_unique | intros <-; apply collapseWhitespace_Collapsed]. }
  split.
  { intros content t Ht. apply Collapsed_unique in Ht. subst t.
    split; [reflexivity|]. intros Hno. unfold plainTextOf.
    now apply replaceEscapedNewlines_plain. }
  split; [intros content query maxLength c; apply occursIn_snippet|].
  split; [intros content query; apply occurrence_dichotomy|].
  split.
  { intros content query maxLength i [Hocc _]. cbv zeta.
    assert (Hi : i <= String.length (plain content)).
    { destruct Hocc as (pre & post & Heq & <-). rewrite Heq.
      rewrite length_append. lia. }
    split; [apply slice_occursAt; lia|].
    split; [etransitivity; [apply length_slice | lia]|].
    intros Hh Hlen. rewrite length_slice_exact; lia. }
  split.
  { intros maxLength. split; [apply roundHalf_even | apply roundHalf_odd]. }
  split.
  { intros s. split; [apply join_splitWhitespace_from|].
    intros w. unfold splitWhitespace. now apply splitWhitespace_from_words. }
  split; [apply dropFirstAndLast_middle | apply take_prefix].
Qed.

End SnippetFacts.

(** The stripped text assumed for the example is what the reference
    heading remover yields. *)
Lemma createKWICSnippet_window_witness :
  Search.createKWICSnippet Reference.headingsRemoved Scenario.foxContent "fox"
    Search.defaultMaxLength
  = "quick brown fox jumps over the lazy dog".
Proof.
  assert (H := createKWICSnippet_window Reference.headingsRemoved).
  destruct H as (_ & _ & _ & _ & (H & _) & _).
  - vm_compute. reflexivity.
  - exact H.
Defined.

(** ** The pool of [generateEmbeddings] *)

Section PoolFacts.
Import JsString Utils Training.

Variable minimatch : string -> string -> bool.
Variable URL_pathname : string -> option string.
Variable createChecksum : string -> string.
Variable includeGlobs excludeGlobs : list string.
Variable QUOTA : string.

Local Abbreviation start :=
  (startFile minimatch URL_pathname includeGlobs excludeGlobs).
Local Abbreviation resume := (resumeFile createChecksum QUOTA).
Local Abbreviation pump' :=
  (pump minimatch URL_pathname includeGlobs excludeGlobs).
Local Abbreviation pumped' :=
  (pumped minimatch URL_pathname includeGlobs excludeGlobs).
Local Abbreviation step' :=
  (step minimatch URL_pathname createChecksum includeGlobs excludeGlobs QUOTA).
Local Abbreviation exec' :=
  (exec minimatch URL_pathname createChecksum includeGlobs excludeGlobs QUOTA).
Local Abbreviation startRun' :=
  (startRun minimatch URL_pathname includeGlobs excludeGlobs).
Local Abbreviation startRunAfter' :=
  (startRunAfter minimatch URL_pathname createChecksum
     includeGlobs excludeGlobs QUOTA).
Local Abbreviation submitted :=
  (isSubmitted minimatch URL_pathname createChecksum includeGlobs excludeGlobs).
Local Abbreviation Shape := (ProcessedShape QUOTA).

(** *** Invariants of a run

    A predicate on the provider, the queue and the active items that
    every move of the pool preserves holds along every schedule. *)
Section Invariant.
Variable job : Job.
Variable Inv : Provider -> list nat -> list (nat * Phase) -> Prop.

Hypothesis Inv_start_suspended :
  forall index q p act p' ph,
    Inv p (index :: q) act -> List.length act < concurrency ->
    start job index p = (p', Suspended ph) ->
    Inv p' q (act ++ [(index, ph)]).
Hypothesis Inv_start_finished :
  forall index q p act p' res,
    Inv p (index :: q) act -> List.length act < concurrency ->
    start job index p = (p', Finished res) ->
    Inv p' q act.
Hypothesis Inv_resume_suspended :
  forall index ph q p act p' ph',
    Inv p q act -> lookupActive index act = Some ph ->
    resume job index ph p = (p', Suspended ph') ->
    Inv p' q (replaceActive index ph' act).
Hypothesis Inv_resume_finished :
  forall index ph q p act p' res,
    Inv p q act -> lookupActive index act = Some ph ->
    resume job index ph p = (p', Finished res) ->
    Inv p' q (removeActive index act).
Hypothesis Inv_cancel :
  forall q p act, Inv p q act -> Inv (stopGeneratingEmbeddings p) q act.
Hypothesis Inv_idle :
  forall q p act, Inv p q act -> Inv (setState Idle p) q act.
Hypothesis Inv_console :
  forall q p act e, Inv p q act -> Inv (emit (EvConsoleError e) p) q act.

Lemma pump_preserves (q : list nat) (p : Provider)
    (act : list (nat * Phase)) (rej : option ApiError) :
  Inv p q act ->
  match pump' job q p act rej with
  | (p', q', act', _) => Inv p' q' act'
  end.
Proof.
  revert p act rej; induction q as [|index q IH]; intros p act rej H.
  - exact H.
  - cbn [pump].
    destruct (List.length act <? concurrency)%nat eqn:Hlen; [|exact H].
    apply Nat.ltb_lt in Hlen.
    destruct (start job index p) as [p' [ph|res]] eqn:Hstart.
    + apply IH. eapply Inv_start_suspended; eauto.
    + apply IH. eapply Inv_start_finished; eauto.
Qed.

Lemma pumped_preserves (r : Run) : holds Inv r -> holds Inv (pumped' job r).
Proof.
  unfold holds, pumped. intros H.
  pose proof (pump_preserves (queue r) (provider r) (active r)
                (rejection r) H) as Hp.
  destruct (pump' job (queue r) (provider r) (active r) (rejection r))
    as [[[p q] act] rej].
  exact Hp.
Qed.

Lemma step_preserves (a : Action) (r : Run) :
  holds Inv r -> holds Inv (step' job a r).
Proof.
  intros H. destruct a as [index| |]; cbn [step].
  - destruct (lookupActive index (active r)) as [ph|] eqn:Hl; [|exact H].
    destruct (resume job index ph (provider r)) as [p' [ph'|res]] eqn:Hr.
    + unfold holds; cbn. eapply Inv_resume_suspended; eauto.
    + apply pumped_preserves. unfold holds; cbn.
      eapply Inv_resume_finished; eauto.
  - unfold holds; cbn. now apply Inv_cancel.
  - destruct (joinable r); [|exact H].
    unfold holds; cbn. apply Inv_idle.
    destruct (rejection r); [now apply Inv_console | exact H].
Qed.

Lemma exec_preserves (schedule : list Action) (r : Run) :
  holds Inv r -> holds Inv (exec' job schedule r).
Proof.
  revert r; induction schedule as [|a rest IH]; intros r H; cbn [exec].
  - exact H.
  - apply IH, step_preserves, H.
Qed.

Lemma startRun_holds (p : Provider) :
  Inv (setStopFlag false (setErrors (fun _ => []) p))
      (seq 0 (numFiles job)) [] ->
  holds Inv (startRun' job p).
Proof.
  intros H. unfold startRun. now apply pumped_preserves.
Qed.

End Invariant.

(** *** The active items *)

Lemma length_removeActive (index : nat) (act : list (nat * Phase)) :
  List.length (removeActive index act) <= List.length act.
Proof.
  induction act as [|[i ph] act IH]; cbn [removeActive]; [lia|].
  destruct (i =? index)%nat; simpl; lia.
Qed.

Lemma length_replaceActive (index : nat) (ph' : Phase)
    (act : list (nat * Phase)) :
  List.length (replaceActive index ph' act) = List.length act.
Proof.
  induction act as [|[i ph] act IH]; cbn [replaceActive]; [reflexivity|].
  destruct (i =? index)%nat; simpl; lia.
Qed.

Lemma lookupActive_In (index : nat) (ph : Phase) (act : list (nat * Phase)) :
  lookupActive index act = Some ph -> In (index, ph) act.
Proof.
  induction act as [|[i ph0] act IH]; cbn [lookupActive]; [discriminate|].
  destruct (Nat.eqb_spec i index) as [->|].
  - intros [= ->]. now left.
  - intros H. right. now apply IH.
Qed.

Lemma In_removeActive (index : nat) (x : nat * Phase)
    (act : list (nat * Phase)) :
  In x (removeActive index act) -> In x act.
Proof.
  induction act as [|[i ph] act IH]; cbn [removeActive]; [easy|].
  destruct (i =? index)%nat.
  - intros H. now right.
  - intros [H|H]; [now left | right; now apply IH].
Qed.

Lemma In_replaceActive (index : nat) (ph' : Phase) (x : nat * Phase)
    (act : list (nat * Phase)) :
  In x (replaceActive index ph' act) -> In x act \/ x = (index, ph').
Proof.
  induction act as [|[i ph] act IH]; cbn [replaceActive]; [easy|].
  destruct (Nat.eqb_spec i index) as [->|].
  - intros [H|H]; [now right | left; now right].
  - intros [H|H]; [left; now left|].
    destruct (IH H) as [H'|H']; [left; now right | now right].
Qed.

Lemma countPhase_le (f : Phase -> bool) (act : list (nat * Phase)) :
  countPhase f act <= List.length act.
Proof. apply filter_length_le. Qed.

Lemma countPhase_app (f : Phase -> bool) (act : list (nat * Phase))
    (index : nat) (ph : Phase) :
  countPhase f (act ++ [(index, ph)]) = countPhase f act + weight f ph.
Proof.
  unfold countPhase, weight. rewrite filter_app, length_app. cbn.
  destruct (f ph); reflexivity.
Qed.

Lemma countPhase_remove (f : Phase -> bool) (index : nat) (ph : Phase)
    (act : list (nat * Phase)) :
  lookupActive index act = Some ph ->
  countPhase f (removeActive index act) + weight f ph = countPhase f act.
Proof.
  unfold countPhase, weight.
  induction act as [|[i ph0] act IH]; cbn [lookupActive removeActive];
    [discriminate|].
  destruct (i =? index)%nat.
  - intros [= ->]. cbn. destruct (f ph); simpl; lia.
  - intros H. specialize (IH H). cbn. destruct (f ph0); simpl; lia.
Qed.

Lemma countPhase_replace (f : Phase -> bool) (index : nat) (ph ph' : Phase)
    (act : list (nat * Phase)) :
  lookupActive index act = Some ph ->
  countPhase f (replaceActive index ph' act) + weight f ph
  = countPhase f act + weight f ph'.
Proof.
  unfold countPhase, weight.
  induction act as [|[i ph0] act IH]; cbn [lookupActive replaceActive];
    [discriminate|].
  destruct (i =? index)%nat.
  - intros [= ->]. cbn. destruct (f ph), (f ph'); simpl; lia.
  - intros H. specialize (IH H). cbn. destruct (f ph0); simpl; lia.
Qed.

(** *** The width of the pool *)

Lemma width_holds (job : Job) (schedule : list Action) (p : Provider) :
  holds (fun _ _ act => List.length act <= concurrency)
    (exec' job schedule (startRun' job p)).
Proof.
  apply exec_preserves; try (intros; assumption).
  - intros index q p0 act p' ph _ Hlen _. rewrite length_app. simpl. lia.
  - intros index ph q p0 act p' ph' H _ _. now rewrite length_replaceActive.
  - intros index ph q p0 act p' res H _ _.
    pose proof (length_removeActive index act). lia.
  - apply startRun_holds; try (intros; assumption).
    + intros index q p0 act p' ph _ Hlen _. rewrite length_app. simpl. lia.
    + simpl. unfold concurrency. lia.
Qed.

(** C8.  Along every schedule of one [generateEmbeddings] call, for any
    number of items, at most 5 items are active and so at most 5
    submissions are in flight. *)
Theorem generateEmbeddings_pool_width (job : Job) (schedule : list Action)
    (p : Provider) :
  let r := exec' job schedule (startRun' job p) in
  List.length (active r) <= 5 /\ inFlight r <= 5.
Proof.
  cbv zeta. pose proof (width_holds job schedule p) as H.
  unfold holds, concurrency in H. split; [exact H|].
  unfold inFlight.
  pose proof (countPhase_le isAwaitProcess
                (active (exec' job schedule (startRun' job p)))).
  lia.
Qed.

(** *** What one item does between two suspensions *)

Local Abbreviation accepts path sourceType :=
  (shouldIncludeFileWithPath minimatch URL_pathname path
     includeGlobs excludeGlobs (isWebsite sourceType)).

Lemma start_suspended (job : Job) (index : nat) (p p' : Provider) (ph : Phase) :
  start job index p = (p', Suspended ph) ->
  stopFlag p = false /\
  accepts (getFilePath job index) (sourceType job) = true /\
  ph = AwaitContent (getFilePath job index)
         (prevChecksumOf (checksums job) (getFilePath job index)) /\
  p' = emit (EvFetchContent index)
         (setState (Loading (index + 1) (numFiles job)
                      (getNameFromPath (getFilePath job index))) p).
Proof.
  unfold startFile. destruct (stopFlag p); [discriminate|].
  destruct (accepts _ _); cbn [negb]; [|discriminate].
  intros [= <- <-]. repeat split.
Qed.

Lemma start_finished (job : Job) (index : nat) (p p' : Provider)
    (res : Promise unit) :
  start job index p = (p', Finished res) ->
  p' = p /\ res = Resolves tt /\
  (stopFlag p = true \/
   accepts (getFilePath job index) (sourceType job) = false).
Proof.
  unfold startFile. destruct (stopFlag p).
  - intros [= <- <-]. repeat split. now left.
  - destruct (accepts _ _) eqn:Hacc; cbn [negb]; [discriminate|].
    intros [= <- <-]. repeat split. now right.
Qed.

Lemma option_string_eqb_eq (a b : option string) :
  option_string_eqb a b = true <-> a = b.
Proof.
  destruct a as [x|], b as [y|]; cbn; try (split; congruence).
  rewrite String.eqb_eq. split; congruence.
Qed.

Lemma resume_content_suspended (job : Job) (index : nat) (path : string)
    (prev : option string) (p p' : Provider) (ph' : Phase) :
  resume job index (AwaitContent path prev) p = (p', Suspended ph') ->
  exists name content,
    getFileNameContent job index = Resolves (Some (name, content)) /\
    prev <> Some (createChecksum content) /\
    ph' = AwaitProcess {| path := path; name := name; content := content |} /\
    p' = emit (EvProcessFile (sourceId job) index
                 {| path := path; name := name; content := content |}) p.
Proof.
  cbn [resumeFile]. unfold resumeWithContent.
  destruct (getFileNameContent job index) as [[[name content]|]|e];
    try discriminate.
  destruct (option_string_eqb prev (Some (createChecksum content))) eqn:Heq;
    [discriminate|].
  intros [= <- <-]. exists name, content. repeat split.
  intros Hp. apply option_string_eqb_eq in Hp. congruence.
Qed.

Lemma resume_content_finished (job : Job) (index : nat) (path : string)
    (prev : option string) (p p' : Provider) (res : Promise unit) :
  resume job index (AwaitContent path prev) p = (p', Finished res) ->
  p' = p /\
  (forall name content,
      getFileNameContent job index = Resolves (Some (name, content)) ->
      prev = Some (createChecksum content)).
Proof.
  cbn [resumeFile]. unfold resumeWithContent.
  destruct (getFileNameContent job index) as [[[name content]|]|e].
  - destruct (option_string_eqb prev (Some (createChecksum content))) eqn:Heq;
      [|discriminate].
    intros [= <- <-]. split; [reflexivity|].
    intros n c [= <- <-]. now apply option_string_eqb_eq.
  - intros [= <- <-]. split; [reflexivity | discriminate].
  - intros [= <- <-]. split; [reflexivity | discriminate].
Qed.

Lemma resume_process_shape (job : Job) (index : nat) (file : FileData)
    (p : Provider) :
  exists p' res,
    resume job index (AwaitProcess file) p = (p', Finished res) /\
    Shape index file p p' res.
Proof.
  cbn [resumeFile]. unfold resumeWithProcessed.
  destruct (processFile job index) as [[]|e].
  - eexists _, _. split; [reflexivity | constructor].
  - destruct (isQuotaExceeded QUOTA e) eqn:Hq.
    + eexists _, _. split; [reflexivity | now constructor].
    + eexists _, _. split; [reflexivity | now constructor].
Qed.

Lemma resume_process_finished (job : Job) (index : nat) (file : FileData)
    (p p' : Provider) (st : TaskStep) :
  resume job index (AwaitProcess file) p = (p', st) ->
  exists res, st = Finished res /\ Shape index file p p' res.
Proof.
  intros H. destruct (resume_process_shape job index file p)
    as (p1 & res & Heq & Hshape).
  rewrite Heq in H. injection H as <- <-. now exists res.
Qed.

(** *** Reading the trace *)

Lemma countEvents_app (f : Event -> bool) (t u : list Event) :
  countEvents f (t ++ u) = countEvents f t + countEvents f u.
Proof. unfold countEvents. now rewrite filter_app, length_app. Qed.

Lemma errorMessages_app (t u : list Event) :
  errorMessages (t ++ u) = (errorMessages t ++ errorMessages u)%list.
Proof. apply flat_map_app. Qed.

(** What the last stretch of an item adds: one callback, no submission,
    events of that item only, and an error message exactly when an error
    toast is shown. *)
Lemma processed_trace (index : nat) (file : FileData) (p p' : Provider)
    (res : Promise unit) :
  Shape index file p p' res ->
  exists evs,
    trace p' = (trace p ++ evs)%list /\
    stopFlag p' = stopFlag p /\
    callbacks evs = 1 /\ submissions evs = 0 /\
    errors p' = (errors p ++ errorMessages evs)%list /\
    (forall e, In e evs ->
               eventItem e = Some index /\ e <> EvFetchContent index).
Proof.
  intros [|e Hq|e Hq].
  - exists [EvFileProcessed index]. cbn. rewrite app_nil_r.
    repeat split; try reflexivity;
      destruct H as [<-|[]]; [reflexivity | discriminate].
  - exists [EvToastQuota index; EvFileProcessed index]. cbn.
    rewrite <- app_assoc, app_nil_r.
    repeat split; try reflexivity;
      destruct H as [<-|[<-|[]]]; try reflexivity; discriminate.
  - exists [EvConsoleErrorMessage index (errorMessage file e);
            EvToastError index (toastMessage file e); EvFileProcessed index].
    cbn. rewrite <- !app_assoc.
    repeat split; try reflexivity;
      destruct H as [<-|[<-|[<-|[]]]]; try reflexivity; discriminate.
Qed.

(** *** Counting submissions and callbacks *)

Lemma count_holds (job : Job) (schedule : list Action) (p : Provider) :
  holds (InvCount (numFiles job) (trace p))
    (exec' job schedule (startRun' job p)).
Proof.
  assert (Hss : forall index q p0 act p' ph,
             InvCount (numFiles job) (trace p) p0 (index :: q) act ->
             List.length act < concurrency ->
             start job index p0 = (p', Suspended ph) ->
             InvCount (numFiles job) (trace p) p' q (act ++ [(index, ph)])).
  { intros index q p0 act p' ph (new & Ht & H1 & H2) _ Hs.
    apply start_suspended in Hs. destruct Hs as (_ & _ & -> & ->).
    exists (new ++ [EvFetchContent index])%list. cbn [trace emit setState].
    rewrite Ht, <- app_assoc. split; [reflexivity|].
    rewrite !countPhase_app. unfold submissions, callbacks in *.
    rewrite !countEvents_app. cbn in *. lia. }
  assert (Hsf : forall index q p0 act p' res,
             InvCount (numFiles job) (trace p) p0 (index :: q) act ->
             List.length act < concurrency ->
             start job index p0 = (p', Finished res) ->
             InvCount (numFiles job) (trace p) p' q act).
  { intros index q p0 act p' res (new & Ht & H1 & H2) _ Hs.
    apply start_finished in Hs. destruct Hs as (-> & _ & _).
    exists new. cbn in H1. repeat split; try assumption. lia. }
  apply exec_preserves; try assumption.
  - intros index ph q p0 act p' ph' (new & Ht & H1 & H2) Hl Hr.
    destruct ph as [path prev|file].
    + apply resume_content_suspended in Hr.
      destruct Hr as (name & content & _ & _ & -> & ->).
      exists (new ++ [EvProcessFile (sourceId job) index
                        {| path := path; name := name; content := content |}])%list.
      cbn [trace emit]. rewrite Ht, <- app_assoc. split; [reflexivity|].
      pose proof (countPhase_replace isAwaitContent index _
                    (AwaitProcess {| path := path; name := name;
                                     content := content |}) act Hl) as Hc.
      pose proof (countPhase_replace isAwaitProcess index _
                    (AwaitProcess {| path := path; name := name;
                                     content := content |}) act Hl) as Hp.
      unfold submissions, callbacks in *. rewrite !countEvents_app.
      cbn in *. lia.
    + apply resume_process_finished in Hr. destruct Hr as (res & [=] & _).
  - intros index ph q p0 act p' res (new & Ht & H1 & H2) Hl Hr.
    pose proof (countPhase_remove isAwaitContent index _ act Hl) as Hc.
    pose proof (countPhase_remove isAwaitProcess index _ act Hl) as Hp.
    destruct ph as [path prev|file].
    + apply resume_content_finished in Hr. destruct Hr as [-> _].
      exists new. cbn in *. repeat split; try assumption; lia.
    + apply resume_process_finished in Hr.
      destruct Hr as (res' & _ & Hshape).
      apply processed_trace in Hshape.
      destruct Hshape as (evs & Hevs & _ & Hcb & Hsub & _ & _).
      exists (new ++ evs)%list. rewrite Hevs, Ht, <- app_assoc.
      split; [reflexivity|].
      unfold submissions, callbacks in *. rewrite !countEvents_app.
      cbn in *. lia.
  - intros q p0 act (new & Ht & H). exists new. now split.
  - intros q p0 act (new & Ht & H). exists new. now split.
  - intros q p0 act e (new & Ht & H1 & H2).
    exists (new ++ [EvConsoleError e])%list. cbn [trace emit].
    rewrite Ht, <- app_assoc. split; [reflexivity|].
    unfold submissions, callbacks in *. rewrite !countEvents_app.
    cbn. lia.
  - apply startRun_holds; try assumption.
    exists []. cbn. rewrite app_nil_r, length_seq.
    repeat split; lia.
Qed.

(** *** Submitted files come from the job *)

Lemma paths_holds (job : Job) (schedule : list Action) (p : Provider) :
  holds (InvPaths job (trace p)) (exec' job schedule (startRun' job p)).
Proof.
  assert (Hss : forall index q p0 act p' ph,
             InvPaths job (trace p) p0 (index :: q) act ->
             List.length act < concurrency ->
             start job index p0 = (p', Suspended ph) ->
             InvPaths job (trace p) p' q (act ++ [(index, ph)])).
  { intros index q p0 act p' ph (new & Ht & Hnew & Hact & Hq) _ Hs.
    apply start_suspended in Hs. destruct Hs as (_ & _ & -> & ->).
    exists (new ++ [EvFetchContent index])%list. cbn [trace emit setState].
    rewrite Ht, <- app_assoc. split; [reflexivity|].
    split; [apply Forall_app; split; [assumption | now repeat constructor]|].
    split.
    - intros x Hx. apply in_app_or in Hx. destruct Hx as [Hx|[<-|[]]].
      + now apply Hact.
      + cbn. split; [apply Hq; now left | reflexivity].
    - intros i Hi. apply Hq. now right. }
  assert (Hsf : forall index q p0 act p' res,
             InvPaths job (trace p) p0 (index :: q) act ->
             List.length act < concurrency ->
             start job index p0 = (p', Finished res) ->
             InvPaths job (trace p) p' q act).
  { intros index q p0 act p' res (new & Ht & Hnew & Hact & Hq) _ Hs.
    apply start_finished in Hs. destruct Hs as (-> & _ & _).
    exists new. repeat split; try assumption; try (now apply Hact).
    intros i Hi. apply Hq. now right. }
  apply exec_preserves; try assumption.
  - intros index ph q p0 act p' ph' (new & Ht & Hnew & Hact & Hq) Hl Hr.
    destruct ph as [path prev|file].
    + apply resume_content_suspended in Hr.
      destruct Hr as (name & content & _ & _ & -> & ->).
      destruct (Hact _ (lookupActive_In _ _ _ Hl)) as [Hlt Hpath].
      cbn in Hlt, Hpath.
      eexists (new ++ [_])%list. cbn [trace emit].
      rewrite Ht, <- app_assoc. split; [reflexivity|].
      split.
      { apply Forall_app; split; [assumption|].
        constructor; [|constructor]. cbn. auto. }
      split; [|assumption].
      intros x Hx. apply In_replaceActive in Hx. destruct Hx as [Hx| ->].
      * now apply Hact.
      * cbn. auto.
    + apply resume_process_finished in Hr. destruct Hr as (res & [=] & _).
  - intros index ph q p0 act p' res (new & Ht & Hnew & Hact & Hq) Hl Hr.
    assert (Hact' : forall x, In x (removeActive index act) ->
                              fst x < numFiles job /\
                              phasePath (snd x) = getFilePath job (fst x)).
    { intros x Hx. apply Hact. eapply In_removeActive; eauto. }
    destruct ph as [path prev|file].
    + apply resume_content_finished in Hr. destruct Hr as [-> _].
      exists new. repeat split; try assumption; now apply Hact'.
    + apply resume_process_finished in Hr.
      destruct Hr as (res' & _ & Hshape).
      apply processed_trace in Hshape.
      destruct Hshape as (evs & Hevs & _ & _ & Hsub & _ & Hitems).
      exists (new ++ evs)%list. rewrite Hevs, Ht, <- app_assoc.
      split; [reflexivity|]. split; [|split; assumption].
      apply Forall_app; split; [assumption|].
      apply Forall_forall. intros e He.
      destruct e; try exact I;
        [|now destruct (Hitems _ He) as [[=] _]].
      exfalso. unfold submissions, countEvents in Hsub.
      assert (Hin : In (EvProcessFile sourceId0 index0 file0)
                      (filter isProcessFile evs))
        by (apply filter_In; split; [assumption | reflexivity]).
      destruct (filter isProcessFile evs); [destruct Hin | discriminate].
  - intros q p0 act (new & Ht & H). exists new. now split.
  - intros q p0 act (new & Ht & H). exists new. now split.
  - intros q p0 act e (new & Ht & Hnew & H).
    exists (new ++ [EvConsoleError e])%list. cbn [trace emit].
    rewrite Ht, <- app_assoc. split; [reflexivity|]. split; [|assumption].
    apply Forall_app; split; [assumption | now repeat constructor].
  - apply startRun_holds; try assumption.
    exists []. cbn. rewrite app_nil_r.
    repeat split; try constructor; try easy.
    intros i Hi. apply in_seq in Hi. lia.
Qed.

(** *** An item whose checksum is unchanged *)

Section UnchangedItem.
Variable job : Job.
Variable k : nat.
Hypothesis unchanged :
  forall name content,
    getFileNameContent job k = Resolves (Some (name, content)) ->
    prevChecksumOf (checksums job) (getFilePath job k)
    = Some (createChecksum content).

Lemma unchanged_holds (schedule : list Action) (p : Provider) :
  holds (InvUnchanged job k (trace p)) (exec' job schedule (startRun' job p)).
Proof.
  assert (Hss : forall index q p0 act p' ph,
             InvUnchanged job k (trace p) p0 (index :: q) act ->
             List.length act < concurrency ->
             start job index p0 = (p', Suspended ph) ->
             InvUnchanged job k (trace p) p' q (act ++ [(index, ph)])).
  { intros index q p0 act p' ph (new & Ht & Hnew & Hact & Herr) _ Hs.
    apply start_suspended in Hs. destruct Hs as (_ & _ & -> & ->).
    exists (new ++ [EvFetchContent index])%list. cbn [trace emit setState].
    rewrite Ht, <- app_assoc. split; [reflexivity|].
    split; [|split].
    - intros e He Hk. apply in_app_or in He. destruct He as [He|[<-|[]]].
      + now apply Hnew.
      + cbn in Hk. congruence.
    - intros ph Hph. apply in_app_or in Hph. destruct Hph as [Hph|[[= <- <-]|[]]].
      + now apply Hact.
      + reflexivity.
    - cbn. rewrite errorMessages_app, Herr. cbn. now rewrite app_nil_r. }
  assert (Hsf : forall index q p0 act p' res,
             InvUnchanged job k (trace p) p0 (index :: q) act ->
             List.length act < concurrency ->
             start job index p0 = (p', Finished res) ->
             InvUnchanged job k (trace p) p' q act).
  { intros index q p0 act p' res H _ Hs.
    apply start_finished in Hs. destruct Hs as (-> & _ & _). exact H. }
  apply exec_preserves; try assumption.
  - intros index ph q p0 act p' ph' (new & Ht & Hnew & Hact & Herr) Hl Hr.
    destruct ph as [path prev|file].
    + pose proof (lookupActive_In _ _ _ Hl) as Hin.
      apply resume_content_suspended in Hr.
      destruct Hr as (name & content & Hc & Hne & -> & ->).
      assert (Hik : index <> k).
      { intros ->. specialize (Hact _ Hin). injection Hact as -> ->.
        apply Hne. now apply unchanged with (name := name). }
      eexists (new ++ [_])%list. cbn [trace emit].
      rewrite Ht, <- app_assoc. split; [reflexivity|].
      split; [|split].
      * intros e He Hk. apply in_app_or in He. destruct He as [He|[<-|[]]].
        -- now apply Hnew.
        -- cbn in Hk. congruence.
      * intros ph Hph. apply In_replaceActive in Hph.
        destruct Hph as [Hph|[= -> ->]]; [now apply Hact | congruence].
      * cbn. rewrite errorMessages_app, Herr. cbn. now rewrite app_nil_r.
    + apply resume_process_finished in Hr. destruct Hr as (res & [=] & _).
  - intros index ph q p0 act p' res (new & Ht & Hnew & Hact & Herr) Hl Hr.
    pose proof (lookupActive_In _ _ _ Hl) as Hin.
    assert (Hact' : forall ph0, In (k, ph0) (removeActive index act) ->
                ph0 = AwaitContent (getFilePath job k)
                        (prevChecksumOf (checksums job) (getFilePath job k))).
    { intros ph0 Hx. apply Hact. eapply In_removeActive; eauto. }
    destruct ph as [path prev|file].
    + apply resume_content_finished in Hr. destruct Hr as [-> _].
      exists new. repeat split; assumption.
    + assert (Hik : index <> k).
      { intros ->. specialize (Hact _ Hin). discriminate. }
      apply resume_process_finished in Hr.
      destruct Hr as (res' & _ & Hshape).
      apply processed_trace in Hshape.
      destruct Hshape as (evs & Hevs & _ & _ & _ & Herrs & Hitems).
      exists (new ++ evs)%list. rewrite Hevs, Ht, <- app_assoc.
      split; [reflexivity|]. split; [|split; [assumption|]].
      * intros e He Hk. apply in_app_or in He. destruct He as [He|He].
        -- now apply Hnew.
        -- destruct (Hitems e He) as [Hi _]. congruence.
      * rewrite Herrs, Herr. now rewrite errorMessages_app.
  - intros q p0 act (new & Ht & H). exists new. now split.
  - intros q p0 act (new & Ht & H). exists new. now split.
  - intros q p0 act e (new & Ht & Hnew & Hact & Herr).
    exists (new ++ [EvConsoleError e])%list. cbn [trace emit].
    rewrite Ht, <- app_assoc. split; [reflexivity|].
    split; [|split; [assumption|]].
    + intros e' He Hk. apply in_app_or in He. destruct He as [He|[<-|[]]].
      * now apply Hnew.
      * discriminate.
    + cbn. rewrite errorMessages_app, Herr. cbn. now rewrite app_nil_r.
  - apply startRun_holds; try assumption.
    exists []. cbn. rewrite app_nil_r. repeat split; easy.
Qed.

End UnchangedItem.

Local Abbreviation runFile :=
  (generateEmbeddingForFile minimatch URL_pathname createChecksum
     includeGlobs excludeGlobs QUOTA).

(** C2.  An item whose content has the checksum stored for its path is
    never submitted and records no error: run on its own it ends
    fulfilled, with [errors] untouched and at most the content fetch in
    the trace; and along every schedule of the pool no [processFile] call
    and no error toast of that item appears, while [errors] holds exactly
    the messages of the error toasts shown. *)
Theorem unchanged_item_not_submitted (job : Job) (k : nat)
    (name content : string)
    (Hcontent : getFileNameContent job k = Resolves (Some (name, content)))
    (Hsame : prevChecksumOf (checksums job) (getFilePath job k)
             = Some (createChecksum content)) :
  (forall p,
      snd (runFile job k p) = Resolves tt /\
      errors (fst (runFile job k p)) = errors p /\
      (trace (fst (runFile job k p)) = trace p \/
       trace (fst (runFile job k p)) = (trace p ++ [EvFetchContent k])%list)) /\
  (forall schedule p,
      exists new,
        trace (provider (exec' job schedule (startRun' job p)))
        = (trace p ++ new)%list /\
        (forall sid file, ~ In (EvProcessFile sid k file) new) /\
        (forall message, ~ In (EvToastError k message) new) /\
        errors (provider (exec' job schedule (startRun' job p)))
        = errorMessages new).
Proof.
  split.
  - intros p. unfold generateEmbeddingForFile.
    destruct (start job k p) as [p1 [ph|res]] eqn:Hs.
    + apply start_suspended in Hs. destruct Hs as (_ & _ & -> & ->).
      cbn [resumeFile]. unfold resumeWithContent.
      rewrite Hcontent, Hsame.
      replace (option_string_eqb _ _) with true
        by (symmetry; now apply option_string_eqb_eq).
      cbn. repeat split. now right.
    + apply start_finished in Hs. destruct Hs as (-> & -> & _).
      cbn. repeat split. now left.
  - intros schedule p.
    assert (Hun : forall n c,
               getFileNameContent job k = Resolves (Some (n, c)) ->
               prevChecksumOf (checksums job) (getFilePath job k)
               = Some (createChecksum c)).
    { intros n c Hc. rewrite Hcontent in Hc. injection Hc as <- <-.
      exact Hsame. }
    destruct (unchanged_holds job k Hun schedule p)
      as (new & Ht & Hnew & _ & Herr).
    exists new. repeat split; try assumption.
    + intros sid file Hin. specialize (Hnew _ Hin eq_refl). discriminate.
    + intros message Hin. specialize (Hnew _ Hin eq_refl). discriminate.
Qed.

(** *** After a request to stop *)

Lemma stopped_holds (job : Job) (schedule : list Action) (r : Run) :
  stopFlag (provider r) = true ->
  holds (InvStopped (map fst (active r)) (trace (provider r)))
    (exec' job schedule r).
Proof.
  intros Hstop. apply exec_preserves.
  - intros index q p0 act p' ph (Hflag & _) _ Hs.
    apply start_suspended in Hs. destruct Hs as (Hf & _). congruence.
  - intros index q p0 act p' res H _ Hs.
    apply start_finished in Hs. destruct Hs as (-> & _ & _). exact H.
  - intros index ph q p0 act p' ph' (Hflag & Hact & new & Ht & Hnew) Hl Hr.
    pose proof (Hact _ (lookupActive_In _ _ _ Hl)) as Hid. cbn in Hid.
    destruct ph as [path prev|file].
    + apply resume_content_suspended in Hr.
      destruct Hr as (name & content & _ & _ & -> & ->).
      split; [exact Hflag|]. split.
      * intros x Hx. apply In_replaceActive in Hx.
        destruct Hx as [Hx| ->]; [now apply Hact | exact Hid].
      * eexists (new ++ [_])%list. cbn [trace emit].
        rewrite Ht, <- app_assoc. split; [reflexivity|].
        intros e He. apply in_app_or in He. destruct He as [He|[<-|[]]].
        -- now apply Hnew.
        -- cbn. split; [exact Hid | discriminate].
    + apply resume_process_finished in Hr. destruct Hr as (res & [=] & _).
  - intros index ph q p0 act p' res (Hflag & Hact & new & Ht & Hnew) Hl Hr.
    pose proof (Hact _ (lookupActive_In _ _ _ Hl)) as Hid. cbn in Hid.
    assert (Hact' : forall x, In x (removeActive index act) ->
                              In (fst x) (map fst (active r))).
    { intros x Hx. apply Hact. eapply In_removeActive; eauto. }
    destruct ph as [path prev|file].
    + apply resume_content_finished in Hr. destruct Hr as [-> _].
      split; [exact Hflag|]. split; [exact Hact'|]. now exists new.
    + apply resume_process_finished in Hr.
      destruct Hr as (res' & _ & Hshape).
      apply processed_trace in Hshape.
      destruct Hshape as (evs & Hevs & Hf & _ & _ & _ & Hitems).
      split; [congruence|]. split; [exact Hact'|].
      exists (new ++ evs)%list. rewrite Hevs, Ht, <- app_assoc.
      split; [reflexivity|].
      intros e He. apply in_app_or in He. destruct He as [He|He].
      * now apply Hnew.
      * destruct (Hitems e He) as [-> Hne]. now split.
  - intros q p0 act (Hflag & Hact & Hnew). now split.
  - intros q p0 act (Hflag & Hact & Hnew). now split.
  - intros q p0 act e (Hflag & Hact & new & Ht & Hnew).
    split; [exact Hflag|]. split; [exact Hact|].
    exists (new ++ [EvConsoleError e])%list. cbn [trace emit].
    rewrite Ht, <- app_assoc. split; [reflexivity|].
    intros e' He. apply in_app_or in He. destruct He as [He|[<-|[]]].
    + now apply Hnew.
    + exact I.
  - split; [exact Hstop|]. split.
    + intros x Hx. now apply in_map.
    + exists []. rewrite app_nil_r. split; [reflexivity | intros e []].
Qed.

Lemma resume_ignores_stopFlag (job : Job) (index : nat) (ph : Phase)
    (p : Provider) (b : bool) :
  resume job index ph (setStopFlag b p)
  = (setStopFlag b (fst (resume job index ph p)),
     snd (resume job index ph p)).
Proof.
  destruct ph as [path prev|file]; cbn [resumeFile].
  - unfold resumeWithContent.
    destruct (getFileNameContent job index) as [[[name content]|]|e];
      try reflexivity.
    destruct (option_string_eqb _ _); reflexivity.
  - unfold resumeWithProcessed.
    destruct (processFile job index) as [[]|e]; [reflexivity|].
    destruct (isQuotaExceeded QUOTA e); reflexivity.
Qed.

(** Under the raised flag the limiter starts nothing: every item it
    takes from the queue returns at once. *)
Lemma pump_stopped (job : Job) (q : list nat) (p : Provider)
    (act : list (nat * Phase)) (rej : option ApiError) :
  stopFlag p = true ->
  pump' job q p act rej
  = (p, if (List.length act <? concurrency)%nat then [] else q, act, rej).
Proof.
  intros Hstop. revert rej; induction q as [|index q IH]; intros rej.
  - cbn [pump]. now destruct (List.length act <? concurrency)%nat.
  - cbn [pump]. destruct (List.length act <? concurrency)%nat eqn:Hlen;
      [|reflexivity].
    unfold startFile. rewrite Hstop, IH. now destruct rej.
Qed.

Lemma lookupActive_replaceActive (index : nat) (ph ph' : Phase)
    (act : list (nat * Phase)) :
  lookupActive index act = Some ph ->
  lookupActive index (replaceActive index ph' act) = Some ph'.
Proof.
  induction act as [|[i ph0] act IH]; cbn [lookupActive replaceActive];
    [discriminate|].
  destruct (i =? index)%nat eqn:Hi; cbn [lookupActive]; rewrite Hi.
  - reflexivity.
  - exact IH.
Qed.

(** C4, as the code has it.  Once the stop flag is raised, an item that
    starts returns at once and leaves the provider as it is: no state
    update, no content fetch, no submission, no callback.
    [stopGeneratingEmbeddings] raises the flag, and from then on, along
    every schedule of the pool, the flag stays raised, no content fetch
    is started, and every event belongs to an item that was already
    active; a request that arrives while the checksum query is awaited
    keeps every item from starting.  An item that was started does not
    look at the flag again.  When its content arrives with a value whose
    checksum differs from the stored one, it is submitted to
    [processFile] as if no request had been made, and when [processFile]
    settles it calls [onFileProcessed] exactly once.  When its content is
    missing, unchanged or could not be fetched, it ends without a
    submission and without a callback. *)
Theorem cancellation_is_cooperative (job : Job) :
  (forall index p,
      stopFlag p = true ->
      start job index p = (p, Finished (Resolves tt))) /\
  (forall r,
      stopFlag (provider (step' job Cancel r)) = true /\
      state (provider (step' job Cancel r)) = CancelRequested /\
      queue (step' job Cancel r) = queue r /\
      active (step' job Cancel r) = active r) /\
  (forall schedule r,
      stopFlag (provider r) = true ->
      stopFlag (provider (exec' job schedule r)) = true /\
      exists new,
        trace (provider (exec' job schedule r))
        = (trace (provider r) ++ new)%list /\
        (forall index, ~ In (EvFetchContent index) new) /\
        (forall e index,
            In e new -> eventItem e = Some index ->
            In index (map fst (active r)))) /\
  (forall index ph p b,
      resume job index ph (setStopFlag b p)
      = (setStopFlag b (fst (resume job index ph p)),
         snd (resume job index ph p))) /\
  (forall index file p,
      exists p' res evs,
        resume job index (AwaitProcess file) p = (p', Finished res) /\
        trace p' = (trace p ++ evs)%list /\
        callbacks evs = 1 /\
        In (EvFileProcessed index) evs) /\
  (forall index path prev p name content,
      getFileNameContent job index = Resolves (Some (name, content)) ->
      prev <> Some (createChecksum content) ->
      resume job index (AwaitContent path prev) p
      = (emit (EvProcessFile (sourceId job) index
                 {| path := path; name := name; content := content |}) p,
         Suspended
           (AwaitProcess
              {| path := path; name := name; content := content |}))) /\
  (forall index path prev p,
      getFileNameContent job index = Resolves None \/
      (exists e, getFileNameContent job index = Rejects e) \/
      (exists name content,
          getFileNameContent job index = Resolves (Some (name, content)) /\
          prev = Some (createChecksum content)) ->
      exists res,
        resume job index (AwaitContent path prev) p = (p, Finished res)) /\
  (forall r index path prev name content,
      stopFlag (provider r) = true ->
      lookupActive index (active r) = Some (AwaitContent path prev) ->
      getFileNameContent job index = Resolves (Some (name, content)) ->
      prev <> Some (createChecksum content) ->
      let file := {| path := path; name := name; content := content |} in
      let r1 := step' job (Settle index) r in
      let r2 := step' job (Settle index) r1 in
      trace (provider r1)
      = (trace (provider r) ++ [EvProcessFile (sourceId job) index file])%list /\
      lookupActive index (active r1) = Some (AwaitProcess file) /\
      exists evs,
        trace (provider r2) = (trace (provider r1) ++ evs)%list /\
        callbacks evs = 1 /\
        In (EvFileProcessed index) evs) /\
  (forall p,
      let r := startRunAfter' job true p in
      stopFlag (provider r) = true /\
      queue r = [] /\ active r = [] /\
      trace (provider r) = trace p) /\
  (forall p, startRunAfter' job false p = startRun' job p).
Proof.
  assert (Hsubmit : forall index path prev p name content,
             getFileNameContent job index = Resolves (Some (name, content)) ->
             prev <> Some (createChecksum content) ->
             resume job index (AwaitContent path prev) p
             = (emit (EvProcessFile (sourceId job) index
                        {| path := path; name := name; content := content |})
                  p,
                Suspended
                  (AwaitProcess
                     {| path := path; name := name; content := content |}))).
  { intros index path prev p name content Hc Hne. cbn [resumeFile].
    unfold resumeWithContent. rewrite Hc.
    destruct (option_string_eqb prev (Some (createChecksum content))) eqn:Heq;
      [|reflexivity].
    apply option_string_eqb_eq in Heq. contradiction. }
  assert (Hprocessed : forall index file p,
             exists p' res evs,
               resume job index (AwaitProcess file) p = (p', Finished res) /\
               stopFlag p' = stopFlag p /\
               trace p' = (trace p ++ evs)%list /\
               callbacks evs = 1 /\
               In (EvFileProcessed index) evs).
  { intros index file p.
    destruct (resume_process_shape job index file p)
      as (p' & res & Heq & Hshape).
    exists p', res.
    destruct Hshape as [|e Hq|e Hq].
    - exists [EvFileProcessed index]. repeat split; try assumption. now left.
    - exists [EvToastQuota index; EvFileProcessed index].
      repeat split; try assumption.
      + cbn. now rewrite <- app_assoc.
      + right; now left.
    - exists [EvConsoleErrorMessage index (errorMessage file e);
              EvToastError index (toastMessage file e); EvFileProcessed index].
      repeat split; try assumption.
      + cbn. now rewrite <- !app_assoc.
      + right; right; now left. }
  split.
  { intros index p Hstop. unfold startFile. now rewrite Hstop. }
  split.
  { intros r. cbn. repeat split. }
  split.
  { intros schedule r Hstop.
    destruct (stopped_holds job schedule r Hstop)
      as (Hflag & _ & new & Ht & Hnew).
    split; [exact Hflag|]. exists new. split; [exact Ht|]. split.
    - intros index Hin. specialize (Hnew _ Hin). cbn in Hnew.
      now destruct Hnew.
    - intros e index Hin He. specialize (Hnew _ Hin). rewrite He in Hnew.
      now destruct Hnew. }
  split; [apply resume_ignores_stopFlag|].
  split.
  { intros index file p.
    destruct (Hprocessed index file p) as (p' & res & evs & H1 & _ & H2).
    now exists p', res, evs. }
  split; [exact Hsubmit|].
  split.
  { intros index path prev p H. cbn [resumeFile]. unfold resumeWithContent.
    destruct H as [-> | [[e ->] | (name & content & -> & ->)]];
      try (now eexists).
    replace (option_string_eqb (Some (createChecksum content))
               (Some (createChecksum content))) with true
      by (symmetry; now apply option_string_eqb_eq).
    now eexists. }
  split.
  { intros r index path prev name content Hstop Hl Hc Hne. cbv zeta.
    assert (Hr1 : step' job (Settle index) r
                  = {| provider :=
                         emit (EvProcessFile (sourceId job) index
                                 {| path := path; name := name;
                                    content := content |}) (provider r);
                       queue := queue r;
                       active :=
                         replaceActive index
                           (AwaitProcess {| path := path; name := name;
                                            content := content |})
                           (active r);
                       rejection := rejection r;
                       processedContent :=
                         contentsAfter job index (AwaitContent path prev)
                           (processedContent r);
                       returned := returned r |}).
    { cbn [step]. rewrite Hl. cbv zeta.
      now rewrite (Hsubmit index path prev (provider r) name content Hc Hne). }
    rewrite Hr1. cbn [provider active trace emit].
    split; [reflexivity|].
    split; [now apply (lookupActive_replaceActive _ _ _ _ Hl)|].
    cbn [step]. cbn [provider active queue rejection processedContent returned].
    rewrite (lookupActive_replaceActive _ _ _ _ Hl). cbv zeta.
    destruct (Hprocessed index
                {| path := path; name := name; content := content |}
                (emit (EvProcessFile (sourceId job) index
                         {| path := path; name := name; content := content |})
                   (provider r)))
      as (p' & res & evs & Heq & Hflag & Ht & Hcb & Hin).
    rewrite Heq. unfold pumped.
    cbn [provider active queue rejection processedContent returned].
    rewrite pump_stopped by (rewrite Hflag; exact Hstop).
    cbn [provider]. exists evs. repeat split; assumption. }
  split; [|reflexivity].
  intros p. cbv zeta. unfold startRunAfter, pumped. cbn [step].
  unfold withProvider, beginRun.
  cbn [provider active queue rejection processedContent returned].
  rewrite pump_stopped by reflexivity.
  cbn [provider active queue List.length Nat.ltb Nat.leb concurrency].
  repeat split.
Qed.

(** *** How a call returns *)

Local Abbreviation execUntilReturn' :=
  (execUntilReturn minimatch URL_pathname createChecksum
     includeGlobs excludeGlobs QUOTA).
Local Abbreviation generateEmbeddings' :=
  (generateEmbeddings minimatch URL_pathname createChecksum
     includeGlobs excludeGlobs QUOTA).

Lemma returned_pumped (job : Job) (r : Run) :
  returned (pumped' job r) = returned r.
Proof.
  unfold pumped.
  destruct (pump' job (queue r) (provider r) (active r) (rejection r))
    as [[[p q] act] rej].
  reflexivity.
Qed.

Lemma returned_step (job : Job) (a : Action) (r : Run) :
  returned (step' job a r) = returned r \/
  (a = Join /\ returned r = None /\ joinable r = true /\
   returned (step' job a r) = Some Normal /\
   state (provider (step' job a r)) = Idle).
Proof.
  destruct a as [index| |]; cbn [step].
  - left. destruct (lookupActive index (active r)) as [ph|]; [|reflexivity].
    destruct (resume job index ph (provider r)) as [p' [ph'|res]];
      [reflexivity|].
    now rewrite returned_pumped.
  - now left.
  - destruct (joinable r) eqn:Hj; [|now left].
    right. repeat split; try assumption.
    unfold joinable in Hj. now destruct (returned r).
Qed.

Lemma execUntilReturn_is_exec (job : Job) (schedule : list Action) (r : Run) :
  exists done, execUntilReturn' job schedule r = exec' job done r.
Proof.
  revert r; induction schedule as [|a rest IH]; intros r.
  - exists []. cbn. now destruct (returned r).
  - cbn [execUntilReturn]. destruct (returned r).
    + now exists [].
    + destruct (IH (step' job a r)) as [done Hd].
      exists (a :: done). exact Hd.
Qed.

Lemma execUntilReturn_returned (job : Job) (schedule : list Action) (r : Run)
    (c : Completion) :
  returned r = Some c -> execUntilReturn' job schedule r = r.
Proof. intros Hr. destruct schedule; cbn; now rewrite Hr. Qed.

Lemma execUntilReturn_normal (job : Job) (schedule : list Action) (r : Run)
    (c : Completion) :
  returned r = None ->
  returned (execUntilReturn' job schedule r) = Some c ->
  c = Normal /\ state (provider (execUntilReturn' job schedule r)) = Idle.
Proof.
  revert r; induction schedule as [|a rest IH]; intros r Hr.
  - cbn. rewrite Hr. congruence.
  - cbn [execUntilReturn]. rewrite Hr.
    destruct (returned_step job a r) as [Hsame|(_ & _ & _ & Hn & Hidle)].
    + apply IH. congruence.
    + rewrite (execUntilReturn_returned job rest _ Normal Hn), Hn.
      intros [= <-]. now split.
Qed.

Lemma startRun_not_returned (job : Job) (p : Provider) :
  returned (startRun' job p) = None.
Proof. unfold startRun. now rewrite returned_pumped. Qed.

Lemma generateEmbeddings_normal (pid : string) (job : Job)
    (schedule : list Action) (p p' : Provider) (contents : list string)
    (c : Completion) :
  generateEmbeddings' (Some pid) job schedule p = Some (p', contents, c) ->
  c = Normal /\ state p' = Idle.
Proof.
  unfold generateEmbeddings.
  destruct (returned (execUntilReturn' job schedule (startRun' job p)))
    as [c'|] eqn:Hret; [|discriminate].
  intros [= <- _ <-].
  exact (execUntilReturn_normal job schedule _ c'
           (startRun_not_returned job p) Hret).
Qed.

Lemma pump_keeps_rejection (job : Job) (q : list nat) (p : Provider)
    (act : list (nat * Phase)) (e : ApiError) :
  snd (pump' job q p act (Some e)) = Some e.
Proof.
  revert p act; induction q as [|index q IH]; intros p act; cbn [pump].
  - reflexivity.
  - destruct (List.length act <? concurrency)%nat; [|reflexivity].
    destruct (start job index p) as [p' [ph|res]]; apply IH.
Qed.

Lemma rejection_pumped (job : Job) (r : Run) (e : ApiError) :
  rejection r = Some e -> rejection (pumped' job r) = Some e.
Proof.
  intros Hr. unfold pumped. rewrite Hr.
  pose proof (pump_keeps_rejection job (queue r) (provider r) (active r) e)
    as Hk.
  destruct (pump' job (queue r) (provider r) (active r) (Some e))
    as [[[p q] act] rej].
  exact Hk.
Qed.

(** *** Every call can return *)

Lemma countPhase_total (act : list (nat * Phase)) :
  countPhase isAwaitContent act + countPhase isAwaitProcess act
  = List.length act.
Proof.
  unfold countPhase. induction act as [|[i ph] act IH]; [reflexivity|].
  cbn. destruct ph; cbn; lia.
Qed.

Lemma pump_pending (job : Job) (q : list nat) (p : Provider)
    (act : list (nat * Phase)) (rej : option ApiError) :
  match pump' job q p act rej with
  | (_, q', act', _) =>
      pending q' act' <= pending q act /\
      (q' = [] \/ concurrency <= List.length act')
  end.
Proof.
  revert p act rej; induction q as [|index q IH]; intros p act rej.
  - cbn. split; [lia | now left].
  - cbn [pump]. destruct (List.length act <? concurrency)%nat eqn:Hlen.
    + destruct (start job index p) as [p' [ph|res]] eqn:Hs.
      * apply start_suspended in Hs. destruct Hs as (_ & _ & -> & _).
        specialize (IH p' (act ++ [(index, AwaitContent (getFilePath job index)
                     (prevChecksumOf (checksums job) (getFilePath job index)))])%list
                      rej).
        destruct (pump' job q p' _ rej) as [[[p2 q2] act2] rej2].
        destruct IH as [IH1 IH2]. split; [|exact IH2].
        unfold pending in *. rewrite !countPhase_app in IH1.
        cbn in *. lia.
      * specialize (IH p' act (noteSettled res rej)).
        destruct (pump' job q p' act _) as [[[p2 q2] act2] rej2].
        destruct IH as [IH1 IH2]. split; [|exact IH2].
        unfold pending in *. cbn in *. lia.
    + apply Nat.ltb_ge in Hlen. split; [lia | now right].
Qed.

Lemma settle_head_progress (job : Job) (r : Run) (index : nat) (ph : Phase)
    (rest : list (nat * Phase)) :
  active r = (index, ph) :: rest ->
  let r' := step' job (Settle index) r in
  pending (queue r') (active r') < pending (queue r) (active r) /\
  (queue r = [] \/ concurrency <= List.length (active r) ->
   queue r' = [] \/ concurrency <= List.length (active r')) /\
  returned r' = returned r.
Proof.
  intros Hact. cbv zeta.
  assert (Hl : lookupActive index (active r) = Some ph)
    by (rewrite Hact; cbn; now rewrite Nat.eqb_refl).
  cbn [step]. rewrite Hl.
  destruct (resume job index ph (provider r)) as [p' [ph'|res]] eqn:Hr.
  - cbn [queue active returned]. split; [|split; [|reflexivity]].
    + destruct ph as [path prev|file].
      * apply resume_content_suspended in Hr.
        destruct Hr as (name & content & _ & _ & -> & _).
        pose proof (countPhase_replace isAwaitContent index _
                      (AwaitProcess {| path := path; name := name;
                                       content := content |})
                      (active r) Hl) as Hc.
        pose proof (countPhase_replace isAwaitProcess index _
                      (AwaitProcess {| path := path; name := name;
                                       content := content |})
                      (active r) Hl) as Hp.
        unfold pending. cbn in *. lia.
      * apply resume_process_finished in Hr. destruct Hr as (res & [=] & _).
    + rewrite length_replaceActive. tauto.
  - pose proof (countPhase_remove isAwaitContent index _ (active r) Hl) as Hc.
    pose proof (countPhase_remove isAwaitProcess index _ (active r) Hl) as Hp.
    unfold pumped. cbn [queue provider active rejection].
    pose proof (pump_pending job (queue r) p' (removeActive index (active r))
                  (noteSettled res (rejection r))) as Hpump.
    destruct (pump' job (queue r) p' (removeActive index (active r))
                (noteSettled res (rejection r))) as [[[p2 q2] act2] rej2].
    cbn [queue active returned]. destruct Hpump as [Hle Hinv].
    split; [|split; [intros _; exact Hinv | reflexivity]].
    unfold pending in *. destruct ph; cbn in *; lia.
Qed.

Lemma pool_returns (job : Job) (n : nat) (r : Run) :
  pending (queue r) (active r) <= n ->
  queue r = [] \/ concurrency <= List.length (active r) ->
  returned r = None ->
  exists schedule,
    returned (execUntilReturn' job schedule r) = Some Normal.
Proof.
  revert r; induction n as [|n IH]; intros r Hn Hinv Hret.
  - assert (Hact : active r = []).
    { destruct (active r) as [|x act] eqn:Ha; [reflexivity|].
      pose proof (countPhase_total (x :: act)) as Ht.
      unfold pending in Hn. cbn [List.length] in Ht. lia. }
    assert (Hq : queue r = []).
    { destruct Hinv as [Hq|Hlen]; [exact Hq|].
      rewrite Hact in Hlen. unfold concurrency in Hlen. cbn in Hlen. lia. }
    exists [Join]. cbn [execUntilReturn]. rewrite Hret.
    assert (Hj : joinable r = true).
    { unfold joinable. rewrite Hret, Hq, Hact. now destruct (rejection r). }
    assert (Hs : returned (step' job Join r) = Some Normal)
      by (cbn [step]; now rewrite Hj).
    now rewrite Hs.
  - destruct (active r) as [|[index ph] rest] eqn:Ha.
    + assert (Hq : queue r = []).
      { destruct Hinv as [Hq|Hlen]; [exact Hq|].
        unfold concurrency in Hlen. cbn in Hlen. lia. }
      exists [Join]. cbn [execUntilReturn]. rewrite Hret.
      assert (Hj : joinable r = true).
      { unfold joinable. rewrite Hret, Hq, Ha. now destruct (rejection r). }
      assert (Hs : returned (step' job Join r) = Some Normal)
        by (cbn [step]; now rewrite Hj).
      now rewrite Hs.
    + destruct (settle_head_progress job r index ph rest Ha)
        as (Hlt & Hinv' & Hret').
      rewrite Ha in Hinv'.
      destruct (IH (step' job (Settle index) r)) as [schedule Hs].
      * rewrite Ha in Hlt. lia.
      * apply Hinv'. exact Hinv.
      * congruence.
      * exists (Settle index :: schedule). cbn [execUntilReturn].
        now rewrite Hret.
Qed.

(** X22.  Whatever the job, some schedule lets the call return. *)
Lemma generateEmbeddings_can_return (pid : string) (job : Job) (p : Provider) :
  exists schedule p' contents,
    generateEmbeddings' (Some pid) job schedule p
    = Some (p', contents, Normal).
Proof.
  destruct (pool_returns job _ (startRun' job p) (le_n _)) as [schedule Hs].
  - unfold startRun, beginRun, pumped. cbn [queue provider active rejection].
    pose proof (pump_pending job (seq 0 (numFiles job))
                  (setStopFlag false (setErrors (fun _ => []) p)) [] None)
      as Hpump.
    destruct (pump' job (seq 0 (numFiles job)) _ [] None)
      as [[[p2 q2] act2] rej2].
    cbn [queue active]. exact (proj2 Hpump).
  - apply startRun_not_returned.
  - exists schedule. unfold generateEmbeddings. rewrite Hs. eauto.
Qed.

(** *** One item from start to end *)

Lemma runFile_callbacks (job : Job) (index : nat) (p : Provider) :
  exists new,
    trace (fst (runFile job index p)) = (trace p ++ new)%list /\
    submissions new = (if submitted job index p then 1 else 0) /\
    callbacks new = submissions new.
Proof.
  unfold generateEmbeddingForFile, isSubmitted.
  destruct (start job index p) as [p1 [ph|res]] eqn:Hs.
  - apply start_suspended in Hs. destruct Hs as (-> & -> & -> & ->).
    cbn [resumeFile negb andb]. unfold resumeWithContent.
    destruct (getFileNameContent job index) as [[[name content]|]|e].
    + destruct (option_string_eqb _ _); cbn [negb].
      * exists [EvFetchContent index]. now cbn.
      * match goal with
        | |- context [resumeFile _ _ _ _ (AwaitProcess ?f) ?q] =>
            destruct (resume_process_shape job index f q)
              as (p2 & res & Heq & Hshape)
        end.
        rewrite Heq. cbn [fst].
        apply processed_trace in Hshape.
        destruct Hshape as (evs & Hevs & _ & Hcb & Hsub & _ & _).
        eexists (EvFetchContent index :: EvProcessFile _ index _ :: evs).
        rewrite Hevs. cbn [trace emit setState].
        rewrite <- !app_assoc. split; [reflexivity|].
        unfold submissions, callbacks, countEvents in *. cbn. lia.
    + exists [EvFetchContent index]. now cbn.
    + exists [EvFetchContent index]. now cbn.
  - apply start_finished in Hs. destruct Hs as (-> & _ & [Hstop|Hacc]).
    + exists []. rewrite Hstop. cbn. now rewrite app_nil_r.
    + exists []. rewrite Hacc, andb_false_r. cbn. now rewrite app_nil_r.
Qed.

(** C7, as the code has it.  The callback is called exactly once for an
    item that is submitted (the stop flag is down, the path passes the
    filter, the content resolves with a value and its checksum differs
    from the stored one), whatever [processFile] settles with, and not at
    all for any other item: one skipped by the filter or by its checksum,
    one whose content is missing, one whose content fetch fails.  Along
    every schedule of the pool the callbacks made and the submissions in
    flight add up to the submissions made. *)
Theorem onFileProcessed_once_per_submission (job : Job) :
  (forall index p,
      exists new,
        trace (fst (runFile job index p)) = (trace p ++ new)%list /\
        submissions new = (if submitted job index p then 1 else 0) /\
        callbacks new = (if submitted job index p then 1 else 0)) /\
  (forall schedule p,
      exists new,
        trace (provider (exec' job schedule (startRun' job p)))
        = (trace p ++ new)%list /\
        callbacks new + inFlight (exec' job schedule (startRun' job p))
        = submissions new).
Proof.
  split.
  - intros index p.
    destruct (runFile_callbacks job index p) as (new & Ht & Hsub & Hcb).
    exists new. repeat split; congruence.
  - intros schedule p.
    destruct (count_holds job schedule p) as (new & Ht & _ & Hcb).
    exists new. split; assumption.
Qed.

Lemma generateEmbeddings_outcome (projectId : option string) (job : Job)
    (schedule : list Action) (p p' : Provider) (contents : list string)
    (c : Completion) :
  generateEmbeddings' projectId job schedule p = Some (p', contents, c) ->
  c = Normal /\
  exists new,
    trace p' = (trace p ++ new)%list /\
    submissions new <= numFiles job /\
    Forall (fromJob job) new.
Proof.
  unfold generateEmbeddings. destruct projectId as [pid|].
  - destruct (returned (execUntilReturn' job schedule (startRun' job p)))
      as [c'|] eqn:Hret; [|discriminate].
    intros [= <- _ <-].
    split.
    { exact (proj1 (execUntilReturn_normal job schedule _ c'
                      (startRun_not_returned job p) Hret)). }
    destruct (execUntilReturn_is_exec job schedule (startRun' job p))
      as [done ->].
    destruct (count_holds job done p) as (new & Ht & Hle & _).
    destruct (paths_holds job done p) as (new' & Ht' & Hfrom & _).
    rewrite Ht in Ht'. apply app_inv_head in Ht'. subst new'.
    exists new. repeat split; try assumption. lia.
  - intros [= <- _ <-]. split; [reflexivity|].
    exists []. rewrite app_nil_r. repeat split; [cbn; lia | constructor].
Qed.

Lemma quota_settle_rejects (job : Job) (r : Run) (index : nat)
    (file : FileData) (e : ApiError) :
  lookupActive index (active r) = Some (AwaitProcess file) ->
  processFile job index = Rejects e ->
  isQuotaExceeded QUOTA e = true ->
  exists first, rejection (step' job (Settle index) r) = Some first.
Proof.
  intros Hl Hp Hq. cbn [step]. rewrite Hl. cbn [resumeFile].
  unfold resumeWithProcessed. rewrite Hp, Hq.
  destruct (rejection r) as [first|] eqn:Hrej.
  - exists first. apply rejection_pumped. reflexivity.
  - exists e. apply rejection_pumped. reflexivity.
Qed.

End PoolFacts.

(** ** The orchestrator *)

Section OrchestratorFacts.
Import JsString Utils Training.

Variable minimatch : string -> string -> bool.
Variable URL_pathname : string -> option string.
Variable createChecksum : string -> string.
Variable includeGlobs excludeGlobs : list string.
Variable QUOTA : string.
Variable projectId : option string.
Variable URL_protocol_hostname : string -> option (string * string).
Variable removeSchema : string -> string.
Variable getGitHubFiles :
  string -> option string -> list string -> list string ->
  Promise (list FileData).
Variable getMarkpromptPathFromGitHubArchivePath : string -> string.
Variable getGitHubOwnerRepoString : string -> string.
Variable getMotifPublicFileMetadata :
  string -> list string -> list string -> Promise (list MotifFile).
Variable getMotifFileContent : string -> Promise string.
Variable fetchPageContent : string -> bool -> Promise (option string).
Variable extractLinksFromHtml : string -> list string.
Variable isSitemapUrl : string -> bool.
Variable fetchSitemapUrls : string -> bool -> Promise (list string).
Variable useCustomPageFetcher : bool.
Variable loadChecksums : nat -> string -> list ChecksumRow.
Variable processFileOutcome : nat -> nat -> Promise unit.

Local Abbreviation await :=
  (awaitGenerateEmbeddings minimatch URL_pathname createChecksum
     includeGlobs excludeGlobs QUOTA projectId).
Local Abbreviation forUrls :=
  (generateEmbeddingsForUrls minimatch URL_pathname createChecksum
     includeGlobs excludeGlobs QUOTA projectId fetchPageContent
     useCustomPageFetcher loadChecksums processFileOutcome).
Local Abbreviation trainSource' :=
  (trainSource minimatch URL_pathname createChecksum includeGlobs excludeGlobs
     QUOTA projectId URL_protocol_hostname removeSchema getGitHubFiles
     getMarkpromptPathFromGitHubArchivePath getGitHubOwnerRepoString
     getMotifPublicFileMetadata getMotifFileContent fetchPageContent
     extractLinksFromHtml isSitemapUrl fetchSitemapUrls useCustomPageFetcher
     loadChecksums processFileOutcome).
Local Abbreviation trainSources' :=
  (trainSources minimatch URL_pathname createChecksum includeGlobs excludeGlobs
     QUOTA projectId URL_protocol_hostname removeSchema getGitHubFiles
     getMarkpromptPathFromGitHubArchivePath getGitHubOwnerRepoString
     getMotifPublicFileMetadata getMotifFileContent fetchPageContent
     extractLinksFromHtml isSitemapUrl fetchSitemapUrls useCustomPageFetcher
     loadChecksums processFileOutcome).
Local Abbreviation gitHubJob' :=
  (gitHubJob getMarkpromptPathFromGitHubArchivePath loadChecksums
     processFileOutcome).
Local Abbreviation websiteJob' :=
  (websiteJob fetchPageContent useCustomPageFetcher loadChecksums
     processFileOutcome).

Lemma await_outcome (jobOf : nat -> Job) (o o' : Orchestrator)
    (contents : list string) (c : Completion) :
  await jobOf o = Some (contents, c, o') ->
  c = Normal /\
  calls o' = S (calls o) /\ rounds o' = rounds o /\
  exists new,
    trace (ui o') = (trace (ui o) ++ new)%list /\
    submissions new <= numFiles (jobOf (calls o)) /\
    Forall (fromJob (jobOf (calls o))) new.
Proof.
  unfold awaitGenerateEmbeddings.
  destruct (generateEmbeddings _ _ _ _ _ _ _ _ _ _)
    as [[[p cs] c']|] eqn:Hgen; [|discriminate].
  intros [= <- <- <-]. cbn.
  apply generateEmbeddings_outcome in Hgen.
  destruct Hgen as (-> & new & Ht & Hle & Hfrom).
  repeat split. now exists new.
Qed.

Local Abbreviation step' :=
  (step minimatch URL_pathname createChecksum includeGlobs excludeGlobs QUOTA).
Local Abbreviation generateEmbeddings' :=
  (generateEmbeddings minimatch URL_pathname createChecksum
     includeGlobs excludeGlobs QUOTA projectId).
Local Abbreviation discoverLinks' :=
  (discoverLinks minimatch URL_pathname createChecksum includeGlobs
     excludeGlobs QUOTA projectId URL_protocol_hostname removeSchema
     fetchPageContent extractLinksFromHtml useCustomPageFetcher
     loadChecksums processFileOutcome).

Lemma forUrls_outcome (sid : string) (urls : list string)
    (o o' : Orchestrator) (contents : list string) (c : Completion) :
  forUrls sid urls o = Some (contents, c, o') ->
  c = Normal /\
  calls o' = S (calls o) /\ rounds o' = (rounds o ++ [urls])%list /\
  exists new,
    trace (ui o') = (trace (ui o) ++ new)%list /\
    submissions new <= List.length urls /\
    (forall sid' index file,
        In (EvProcessFile sid' index file) new -> In (path file) urls).
Proof.
  unfold generateEmbeddingsForUrls. intros H.
  apply await_outcome in H. cbn in H.
  destruct H as (-> & Hcalls & Hrounds & new & Ht & Hle & Hfrom).
  repeat split; try assumption.
  exists new. repeat split; try assumption.
  intros sid' index file Hin.
  rewrite Forall_forall in Hfrom. specialize (Hfrom _ Hin). cbn in Hfrom.
  destruct Hfrom as (_ & Hlt & ->). now apply nth_In.
Qed.

(** C9.  For a website source whose URL is a sitemap, [_trainSource]
    makes one call of [generateEmbeddingsForUrls], on the first 10 URLs of
    the sitemap, and no link discovery: at most 10 submissions follow,
    each of a page among those first 10, whatever the length of the
    sitemap. *)
Theorem sitemap_mode_takes_first_10 (fuel : nat) (sid url : string)
    (sitemapUrls : list string) (o o' : Orchestrator)
    (Hsitemap :
       isSitemapUrl (toNormalizedUrl URL_pathname URL_protocol_hostname url false)
       = true)
    (Hurls :
       fetchSitemapUrls
         (toNormalizedUrl URL_pathname URL_protocol_hostname url false)
         useCustomPageFetcher
       = Resolves sitemapUrls)
    (Hrun : trainSource' fuel {| id := sid; data := WebsiteSource url |} o
            = Some o') :
  rounds o' = (rounds o ++ [firstn 10 sitemapUrls])%list /\
  calls o' = S (calls o) /\
  List.length (firstn 10 sitemapUrls) = Nat.min 10 (List.length sitemapUrls) /\
  exists new,
    trace (ui o') = (trace (ui o) ++ new)%list /\
    submissions new <= 10 /\
    (forall sid' index file,
        In (EvProcessFile sid' index file) new ->
        In (path file) (firstn 10 sitemapUrls)).
Proof.
  unfold trainSource in Hrun. cbn [data id] in Hrun.
  rewrite Hsitemap, Hurls in Hrun.
  destruct (forUrls sid (firstn 10 sitemapUrls) o)
    as [[[contents c] o1]|] eqn:Hfor; [|discriminate].
  apply forUrls_outcome in Hfor.
  destruct Hfor as (-> & Hcalls & Hrounds & new & Ht & Hle & Hin).
  injection Hrun as <-.
  split; [exact Hrounds|]. split; [exact Hcalls|].
  split; [apply length_firstn|].
  exists new. split; [exact Ht|]. split; [|exact Hin].
  rewrite length_firstn in Hle. lia.
Qed.

(** *** The frontier of the link discovery *)

Lemma array_includes_In (links : list string) (link : string) :
  array_includes links link = true <-> In link links.
Proof.
  unfold array_includes. rewrite existsb_exists. split.
  - intros (x & Hx & Heq). apply String.eqb_eq in Heq. now subst.
  - intros H. exists link. split; [assumption | apply String.eqb_refl].
Qed.

Lemma next_frontier_fresh (processedLinks discoveredLinks : list string)
    (link : string) :
  In link (filter (fun l => negb (array_includes processedLinks l))
             discoveredLinks) ->
  ~ In link processedLinks.
Proof.
  intros H. apply filter_In in H. destruct H as [_ H].
  apply negb_true_iff in H. intros Hin.
  apply array_includes_In in Hin. congruence.
Qed.

(** X24.  Every round of the link discovery is made of links that no earlier
    round has processed: a page is never taken up again in a later
    round. *)
Lemma discoverLinks_fresh (fuel : nat) (sid baseUrl : string)
    (processedLinks linksToProcess : list string) (o o' : Orchestrator) :
  (forall link, In link linksToProcess -> ~ In link processedLinks) ->
  discoverLinks' fuel sid baseUrl processedLinks linksToProcess o
  = Crawled o' ->
  exists rs,
    rounds o' = (rounds o ++ rs)%list /\ freshRounds processedLinks rs.
Proof.
  revert processedLinks linksToProcess o.
  induction fuel as [|fuel IH]; intros processed frontier o Hfresh Hrun.
  - destruct frontier; [|discriminate]. injection Hrun as <-.
    exists []. now rewrite app_nil_r.
  - destruct frontier as [|link0 frontier0].
    { injection Hrun as <-. exists []. now rewrite app_nil_r. }
    cbn [discoverLinks] in Hrun.
    remember (link0 :: frontier0) as frontier eqn:Hfrontier in *.
    clear Hfrontier link0 frontier0.
    destruct (forUrls sid frontier o) as [[[contents c] o1]|] eqn:Hfor;
      [|discriminate].
    pose proof (forUrls_outcome _ _ _ _ _ _ Hfor) as (-> & _ & Hrounds & _).
    apply IH in Hrun.
    + destruct Hrun as (rs & Hrs & Hfr).
      exists (frontier :: rs). split.
      * rewrite Hrs, Hrounds, <- app_assoc. reflexivity.
      * split; assumption.
    + intros link. apply next_frontier_fresh.
Qed.

(** *** The links left to process *)

Lemma filter_length_lt (f g : string -> bool) (x : string) (l : list string) :
  (forall u, f u = true -> g u = true) ->
  In x l -> g x = true -> f x = false ->
  List.length (filter f l) < List.length (filter g l).
Proof.
  intros Hfg Hin Hg Hf.
  induction l as [|u l IH]; [destruct Hin|].
  assert (Hle : List.length (filter f l) <= List.length (filter g l)).
  { clear IH Hin. induction l as [|v l IHl]; [simpl; lia|].
    cbn [filter]. destruct (f v) eqn:Hfv.
    - rewrite (Hfg v Hfv). simpl. lia.
    - destruct (g v); simpl; lia. }
  cbn [filter]. destruct Hin as [->|Hin].
  - rewrite Hf, Hg. simpl. lia.
  - specialize (IH Hin). destruct (f u) eqn:Hfu.
    + rewrite (Hfg u Hfu). simpl. lia.
    + destruct (g u); simpl; lia.
Qed.

Lemma unprocessed_shrinks (universe processedLinks linksToProcess : list string)
    (link : string) :
  In link universe -> ~ In link processedLinks -> In link linksToProcess ->
  List.length (unprocessed universe (processedLinks ++ linksToProcess))
  < List.length (unprocessed universe processedLinks).
Proof.
  intros Hu Hfresh Hin. unfold unprocessed.
  apply filter_length_lt with (x := link); try assumption.
  - intros u Hf. apply negb_true_iff in Hf. apply negb_true_iff.
    destruct (array_includes processedLinks u) eqn:Hp; [|reflexivity].
    apply array_includes_In in Hp.
    assert (Hpf : array_includes (processedLinks ++ linksToProcess) u = true)
      by (apply array_includes_In, in_or_app; now left).
    congruence.
  - apply negb_true_iff.
    destruct (array_includes processedLinks link) eqn:Hp; [|reflexivity].
    apply array_includes_In in Hp. contradiction.
  - apply negb_false_iff. apply array_includes_In, in_or_app. now right.
Qed.

(** *** The contents of a round *)

Local Abbreviation exec' :=
  (exec minimatch URL_pathname createChecksum includeGlobs excludeGlobs QUOTA).
Local Abbreviation startRun' :=
  (startRun minimatch URL_pathname includeGlobs excludeGlobs).
Local Abbreviation pumped' :=
  (pumped minimatch URL_pathname includeGlobs excludeGlobs).

Lemma exec_snoc (job : Job) (schedule : list Action) (a : Action) (r : Run) :
  exec' job (schedule ++ [a]) r = step' job a (exec' job schedule r).
Proof.
  revert r; induction schedule as [|b rest IH]; intros r; cbn [exec app];
    [reflexivity | apply IH].
Qed.

Lemma processedContent_pumped (job : Job) (r : Run) :
  processedContent (pumped' job r) = processedContent r.
Proof.
  unfold pumped.
  now destruct (pump _ _ _ _ job (queue r) (provider r) (active r)
                  (rejection r)) as [[[p q] act] rej].
Qed.

(** The contents gathered by a call are contents that
    [getFileNameContent] resolves with, for items of the job. *)
Lemma contents_of_run (job : Job) (schedule : list Action) (p : Provider)
    (content : string) :
  In content (processedContent (exec' job schedule (startRun' job p))) ->
  exists index name,
    index < numFiles job /\
    getFileNameContent job index = Resolves (Some (name, content)).
Proof.
  induction schedule as [|a schedule IH] using rev_ind.
  - cbn [exec]. unfold startRun. rewrite processedContent_pumped.
    intros [].
  - rewrite exec_snoc.
    pose proof (paths_holds minimatch URL_pathname createChecksum
                  includeGlobs excludeGlobs QUOTA job schedule p)
      as (_ & _ & _ & Hact & _).
    set (r := exec' job schedule (startRun' job p)) in *.
    destruct a as [index| |]; cbn [step].
    + destruct (lookupActive index (active r)) as [ph|] eqn:Hl; [|exact IH].
      assert (Hcontents :
                In content (contentsAfter job index ph (processedContent r)) ->
                exists index name,
                  index < numFiles job /\
                  getFileNameContent job index
                  = Resolves (Some (name, content))).
      { unfold contentsAfter. destruct ph as [path prev|file]; [|exact IH].
        destruct (getFileNameContent job index) as [[[name c]|]|e] eqn:Hc;
          try exact IH.
        intros Hin. apply in_app_or in Hin.
        destruct Hin as [Hin|[<-|[]]]; [now apply IH|].
        exists index, name. split; [|exact Hc].
        exact (proj1 (Hact _ (lookupActive_In _ _ _ Hl))). }
      destruct (resumeFile createChecksum QUOTA job index ph (provider r))
        as [p' [ph'|res]].
      * exact Hcontents.
      * rewrite processedContent_pumped. exact Hcontents.
    + exact IH.
    + destruct (joinable r); exact IH.
Qed.

Lemma generateEmbeddings_contents (job : Job) (schedule : list Action)
    (p p' : Provider) (contents : list string) (c : Completion)
    (content : string) :
  generateEmbeddings' job schedule p = Some (p', contents, c) ->
  In content contents ->
  exists index name,
    index < numFiles job /\
    getFileNameContent job index = Resolves (Some (name, content)).
Proof.
  unfold generateEmbeddings. destruct projectId as [pid|].
  - destruct (execUntilReturn_is_exec minimatch URL_pathname createChecksum
                includeGlobs excludeGlobs QUOTA job schedule (startRun' job p))
      as [done Hdone].
    rewrite Hdone.
    destruct (returned (exec' job done (startRun' job p))); [|discriminate].
    intros [= _ <- _]. apply contents_of_run.
  - intros [= _ <- _] [].
Qed.

(** The contents of a round are those of pages of the round. *)
Lemma forUrls_contents (sid : string) (urls : list string)
    (o o' : Orchestrator) (contents : list string) (c : Completion)
    (content : string) :
  forUrls sid urls o = Some (contents, c, o') ->
  In content contents ->
  exists url,
    In url urls /\
    fetchPageContent url useCustomPageFetcher = Resolves (Some content).
Proof.
  unfold generateEmbeddingsForUrls, awaitGenerateEmbeddings.
  cbn [ui schedules calls].
  destruct (generateEmbeddings _ _ _ _ _ _ _ _ _ _)
    as [[[p cs] c']|] eqn:Hgen; [|discriminate].
  intros [= <- _ _] Hin.
  destruct (generateEmbeddings_contents _ _ _ _ _ _ _ Hgen Hin)
    as (index & name & Hlt & Hc).
  cbn [websiteJob numFiles getFileNameContent] in Hlt, Hc.
  exists (nth index urls EmptyString). split; [now apply nth_In|].
  destruct (fetchPageContent (nth index urls EmptyString)
              useCustomPageFetcher) as [[[|ch rest]|]|e];
    try discriminate.
  now injection Hc as _ <-.
Qed.

Lemma uniq_from_In (x : string) (seen l : list string) :
  In x (uniq_from seen l) -> In x l.
Proof.
  revert seen; induction l as [|y l IH]; intros seen; cbn [uniq_from];
    [intros []|].
  destruct (existsb (String.eqb y) seen).
  - intros H. right. now apply (IH seen).
  - intros [->|H]; [now left | right; now apply (IH (y :: seen))].
Qed.

(** A discovered link is the completion of a link of the base URL that
    one of the contents holds. *)
Lemma discovered_from_content (baseUrl : string) (contents : list string)
    (link : string) :
  In link (discoveredLinksOf URL_pathname URL_protocol_hostname removeSchema
             extractLinksFromHtml baseUrl contents) ->
  exists content href,
    In content contents /\ In href (extractLinksFromHtml content) /\
    isHrefFromBaseUrl URL_pathname URL_protocol_hostname baseUrl href = true /\
    link = completeHrefWithBaseUrl removeSchema baseUrl href.
Proof.
  unfold discoveredLinksOf. intros H.
  apply in_map_iff in H. destruct H as (href & <- & H).
  apply filter_In in H. destruct H as [H Hhref].
  apply uniq_from_In in H. apply in_flat_map in H.
  destruct H as (content & Hcontent & Hin).
  exists content, href. repeat split; assumption.
Qed.

(** *** The number of rounds of the link discovery *)

Section ClosedSite.
(** A finite set of pages that holds the completion of every link of
    the base URL found on one of its pages. *)
Variable universe : list string.
Variable baseUrl : string.
Hypothesis closed :
  forall page content href,
    In page universe ->
    fetchPageContent page useCustomPageFetcher = Resolves (Some content) ->
    In href (extractLinksFromHtml content) ->
    isHrefFromBaseUrl URL_pathname URL_protocol_hostname baseUrl href = true ->
    In (completeHrefWithBaseUrl removeSchema baseUrl href) universe.

Lemma next_frontier_in_universe (sid : string)
    (processedLinks linksToProcess : list string) (o o' : Orchestrator)
    (contents : list string) (c : Completion) (link : string) :
  (forall l, In l linksToProcess -> In l universe) ->
  forUrls sid linksToProcess o = Some (contents, c, o') ->
  In link
    (filter (fun l => negb (array_includes
                              (processedLinks ++ linksToProcess) l))
       (discoveredLinksOf URL_pathname URL_protocol_hostname removeSchema
          extractLinksFromHtml baseUrl contents)) ->
  In link universe /\ ~ In link (processedLinks ++ linksToProcess)%list.
Proof.
  intros Hfrontier Hfor Hin. split; [|eapply next_frontier_fresh; eauto].
  apply filter_In in Hin. destruct Hin as [Hin _].
  apply discovered_from_content in Hin.
  destruct Hin as (content & href & Hcontent & Hhref & Hbase & ->).
  destruct (forUrls_contents _ _ _ _ _ _ _ Hfor Hcontent)
    as (url & Hurl & Hfetch).
  eapply closed; eauto.
Qed.

(** The loop needs no more rounds than there are unprocessed links of
    the universe, plus one: it never runs out of rounds. *)
Lemma discoverLinks_rounds_bounded (sid : string)
    (fuel : nat) (processedLinks linksToProcess : list string)
    (o : Orchestrator) :
  (forall link, In link linksToProcess ->
                In link universe /\ ~ In link processedLinks) ->
  List.length (unprocessed universe processedLinks) < fuel ->
  discoverLinks' fuel sid baseUrl processedLinks linksToProcess o
  <> OutOfFuel.
Proof.
  revert processedLinks linksToProcess o.
  induction fuel as [|fuel IH]; intros processed frontier o Hfrontier Hfuel;
    [lia|].
  destruct frontier as [|link0 frontier0]; [discriminate|].
  cbn [discoverLinks].
  remember (link0 :: frontier0) as frontier eqn:Hf in *.
  assert (Hlink0 : In link0 frontier) by (subst frontier; now left).
  clear Hf frontier0.
  destruct (forUrls sid frontier o) as [[[contents c] o1]|] eqn:Hfor;
    [|discriminate].
  destruct c; [|discriminate].
  apply IH.
  - intros link Hin.
    eapply next_frontier_in_universe; eauto.
    intros l Hl. now apply Hfrontier.
  - destruct (Hfrontier link0 Hlink0) as [Hu Hfresh].
    pose proof (unprocessed_shrinks universe processed frontier link0
                  Hu Hfresh Hlink0).
    lia.
Qed.

(** The rounds made are no more than the unprocessed links of the
    universe. *)
Lemma discoverLinks_rounds_count (sid : string)
    (fuel : nat) (processedLinks linksToProcess : list string)
    (o o' : Orchestrator) :
  (forall link, In link linksToProcess ->
                In link universe /\ ~ In link processedLinks) ->
  discoverLinks' fuel sid baseUrl processedLinks linksToProcess o
  = Crawled o' ->
  List.length (rounds o')
  <= List.length (rounds o)
     + List.length (unprocessed universe processedLinks).
Proof.
  revert processedLinks linksToProcess o.
  induction fuel as [|fuel IH]; intros processed frontier o Hfrontier;
    destruct frontier as [|link0 frontier0]; cbn [discoverLinks];
    try discriminate; try (intros [= <-]; lia).
  remember (link0 :: frontier0) as frontier eqn:Hf in *.
  assert (Hlink0 : In link0 frontier) by (subst frontier; now left).
  clear Hf frontier0.
  destruct (forUrls sid frontier o) as [[[contents c] o1]|] eqn:Hfor;
    [|discriminate].
  pose proof (forUrls_outcome _ _ _ _ _ _ Hfor) as (-> & _ & Hrounds & _).
  intros Hrun. apply IH in Hrun.
  - destruct (Hfrontier link0 Hlink0) as [Hu Hfresh].
    pose proof (unprocessed_shrinks universe processed frontier link0
                  Hu Hfresh Hlink0).
    rewrite Hrounds, length_app in Hrun. cbn [List.length] in Hrun. lia.
  - intros link Hin.
    eapply next_frontier_in_universe; eauto.
    intros l Hl. now apply Hfrontier.
Qed.

Lemma call_can_return (job : Job) (p : Provider) :
  exists schedule p' contents c,
    generateEmbeddings' job schedule p = Some (p', contents, c).
Proof.
  unfold generateEmbeddings. destruct projectId as [pid|].
  - destruct (pool_returns minimatch URL_pathname createChecksum includeGlobs
                excludeGlobs QUOTA job _ (startRun' job p) (le_n _))
      as [schedule Hs].
    + unfold startRun, beginRun, pumped.
      cbn [queue provider active rejection].
      pose proof (pump_pending minimatch URL_pathname includeGlobs
                    excludeGlobs job (seq 0 (numFiles job))
                    (setStopFlag false (setErrors (fun _ => []) p)) [] None)
        as Hpump.
      destruct (pump _ _ _ _ job (seq 0 (numFiles job)) _ [] None)
        as [[[p2 q2] act2] rej2].
      cbn [queue active]. exact (proj2 Hpump).
    + apply startRun_not_returned.
    + exists schedule. rewrite Hs. eauto.
  - exists []. eauto.
Qed.

(** Schedules exist under which the loop ends. *)
Lemma discoverLinks_can_end (sid : string)
    (fuel : nat) (processedLinks linksToProcess : list string)
    (o : Orchestrator) :
  (forall link, In link linksToProcess ->
                In link universe /\ ~ In link processedLinks) ->
  List.length (unprocessed universe processedLinks) < fuel ->
  exists schedules o',
    discoverLinks' fuel sid baseUrl processedLinks linksToProcess
      {| ui := ui o; schedules := schedules; calls := calls o;
         rounds := rounds o |}
    = Crawled o'.
Proof.
  revert processedLinks linksToProcess o.
  induction fuel as [|fuel IH]; intros processed frontier o Hfrontier Hfuel;
    [lia|].
  destruct frontier as [|link0 frontier0].
  { exists []. eexists. reflexivity. }
  remember (link0 :: frontier0) as frontier eqn:Hf in *.
  assert (Hlink0 : In link0 frontier) by (subst frontier; now left).
  destruct (call_can_return (websiteJob' (calls o) sid frontier) (ui o))
    as (schedule & p1 & contents & c & Hcall).
  set (o1 := {| ui := p1; schedules := []; calls := S (calls o);
                rounds := (rounds o ++ [frontier])%list |}).
  assert (Hfor : forall rest,
             forUrls sid frontier
               {| ui := ui o; schedules := schedule :: rest;
                  calls := calls o; rounds := rounds o |}
             = Some (contents, c,
                     {| ui := ui o1; schedules := rest; calls := calls o1;
                        rounds := rounds o1 |})).
  { intros rest. unfold generateEmbeddingsForUrls, awaitGenerateEmbeddings.
    cbn [ui schedules calls rounds hd tl]. now rewrite Hcall. }
  pose proof (generateEmbeddings_outcome _ _ _ _ _ _ _ _ _ _ _ _ _ Hcall)
    as [-> _].
  destruct (IH (processed ++ frontier)%list
              (filter (fun l => negb (array_includes
                                        (processed ++ frontier) l))
                 (discoveredLinksOf URL_pathname URL_protocol_hostname
                    removeSchema extractLinksFromHtml baseUrl contents))
              o1) as (rest & o' & Hrest).
  - intros link Hin.
    exact (next_frontier_in_universe sid processed frontier _ _ contents
             Normal link (fun l Hl => proj1 (Hfrontier l Hl)) (Hfor []) Hin).
  - destruct (Hfrontier link0 Hlink0) as [Hu Hfresh].
    pose proof (unprocessed_shrinks universe processed frontier link0
                  Hu Hfresh Hlink0).
    lia.
  - exists (schedule :: rest), o'.
    rewrite Hf. cbn [discoverLinks]. rewrite <- Hf.
    rewrite (Hfor rest). exact Hrest.
Qed.

End ClosedSite.

(** X23.  Take a finite set of pages that holds the source URL and, for
    every page of the set that can be fetched, the completion of each
    link of the base URL on that page.  Then the [while] loop of the
    link discovery cannot go round forever: with as many rounds allowed
    as the set has pages, plus one, it never runs out of rounds,
    whatever the schedules of the calls; under suitable schedules it
    ends; and when it ends it has made no more rounds than the set has
    pages. *)
Theorem discoverLinks_terminates (universe : list string)
    (sid baseUrl url : string)
    (Hurl : In url universe)
    (Hclosed : forall page content href,
        In page universe ->
        fetchPageContent page useCustomPageFetcher
        = Resolves (Some content) ->
        In href (extractLinksFromHtml content) ->
        isHrefFromBaseUrl URL_pathname URL_protocol_hostname baseUrl href
        = true ->
        In (completeHrefWithBaseUrl removeSchema baseUrl href) universe) :
  (forall o,
      discoverLinks' (S (List.length universe)) sid baseUrl [] [url] o
      <> OutOfFuel) /\
  (forall o,
      exists schedules o',
        discoverLinks' (S (List.length universe)) sid baseUrl [] [url]
          {| ui := ui o; schedules := schedules; calls := calls o;
             rounds := rounds o |}
        = Crawled o') /\
  (forall fuel o o',
      discoverLinks' fuel sid baseUrl [] [url] o = Crawled o' ->
      List.length (rounds o')
      <= List.length (rounds o) + List.length universe).
Proof.
  assert (Hstart : forall link,
             In link [url] -> In link universe /\ ~ In link []).
  { intros link [<-|[]]. split; [exact Hurl | intros []]. }
  assert (Hall : List.length (unprocessed universe [])
                 <= List.length universe)
    by apply filter_length_le.
  split; [|split].
  - intros o.
    apply (discoverLinks_rounds_bounded universe baseUrl Hclosed);
      [exact Hstart | lia].
  - intros o.
    apply (discoverLinks_can_end universe baseUrl Hclosed);
      [exact Hstart | lia].
  - intros fuel o o' Hrun.
    pose proof (discoverLinks_rounds_count universe baseUrl Hclosed
                  sid fuel [] [url] o o' Hstart Hrun).
    lia.
Qed.

(** *** What reaches [onError] *)

Lemma reported_app (s t : list Event) :
  reported (s ++ t) = (reported s ++ reported t)%list.
Proof. apply flat_map_app. Qed.

Lemma fromJob_reported (job : Job) (new : list Event) :
  Forall (fromJob job) new -> reported new = [].
Proof.
  induction 1 as [|e new He _ IH]; [reflexivity|].
  destruct e; cbn in *; try assumption. destruct He.
Qed.

Lemma await_quiet (jobOf : nat -> Job) (o o' : Orchestrator)
    (contents : list string) (c : Completion) :
  await jobOf o = Some (contents, c, o') ->
  c = Normal /\
  exists new,
    trace (ui o') = (trace (ui o) ++ new)%list /\ reported new = [].
Proof.
  intros H. apply await_outcome in H.
  destruct H as (-> & _ & _ & new & Ht & _ & Hfrom).
  split; [reflexivity|]. exists new. split; [exact Ht|].
  now apply fromJob_reported in Hfrom.
Qed.

Lemma forUrls_quiet (sid : string) (urls : list string)
    (o o' : Orchestrator) (contents : list string) (c : Completion) :
  forUrls sid urls o = Some (contents, c, o') ->
  c = Normal /\
  exists new,
    trace (ui o') = (trace (ui o) ++ new)%list /\ reported new = [].
Proof.
  unfold generateEmbeddingsForUrls. intros H.
  apply await_quiet in H. exact H.
Qed.

Lemma discoverLinks_quiet (fuel : nat) (sid baseUrl : string)
    (processedLinks linksToProcess : list string) (o o' : Orchestrator) :
  discoverLinks' fuel sid baseUrl processedLinks linksToProcess o
  = Crawled o' ->
  exists new,
    trace (ui o') = (trace (ui o) ++ new)%list /\ reported new = [].
Proof.
  revert processedLinks linksToProcess o.
  induction fuel as [|fuel IH]; intros processedLinks linksToProcess o;
    destruct linksToProcess as [|link links]; cbn [discoverLinks];
    try discriminate;
    try (intros [= <-]; exists []; now rewrite app_nil_r).
  destruct (forUrls sid (link :: links) o)
    as [[[contents c] o1]|] eqn:Hfor; [|discriminate].
  apply forUrls_quiet in Hfor. destruct Hfor as (-> & new & Ht & Hq).
  intros H. apply IH in H. destruct H as (new' & Ht' & Hq').
  exists (new ++ new')%list. rewrite Ht', Ht, <- app_assoc.
  split; [reflexivity|]. now rewrite reported_app, Hq, Hq'.
Qed.

Local Abbreviation listingRejects' :=
  (listingRejects URL_pathname includeGlobs excludeGlobs
     URL_protocol_hostname getGitHubFiles getMotifPublicFileMetadata
     isSitemapUrl fetchSitemapUrls useCustomPageFetcher).

Lemma trainSource_reports (fuel : nat) (source : Source)
    (o o' : Orchestrator) :
  trainSource' fuel source o = Some o' ->
  exists new,
    trace (ui o') = (trace (ui o) ++ new)%list /\
    (reported new = [] \/
     exists e message,
       listingRejects' source e /\ reported new = [message] /\
       submissions new = 0 /\ calls o' = calls o).
Proof.
  assert (Hawait : forall jobOf (failed : ApiError -> string),
             match await jobOf o with
             | None => None
             | Some (_, Normal, o1) => Some o1
             | Some (_, Throws e, o1) => Some (onError (failed e) o1)
             end = Some o' ->
             exists new,
               trace (ui o') = (trace (ui o) ++ new)%list /\
               reported new = []).
  { intros jobOf failed H.
    destruct (await jobOf o) as [[[contents c] o1]|] eqn:Haw;
      [|discriminate].
    apply await_quiet in Haw. destruct Haw as (-> & new & Ht & Hq).
    injection H as <-. now exists new. }
  unfold trainSource, listingRejects.
  destruct (data source) as [url branch|projectDomain|url| |].
  - destruct (getGitHubFiles url branch includeGlobs excludeGlobs)
      as [fileData|e] eqn:Hfiles.
    + intros H. apply Hawait in H. destruct H as (new & Ht & Hq).
      exists new. split; [exact Ht | now left].
    + intros [= <-]. eexists. split; [reflexivity|]. right.
      exists e. eexists. repeat split; reflexivity.
  - destruct (getMotifPublicFileMetadata projectDomain includeGlobs
                excludeGlobs) as [filesMetadata|e] eqn:Hfiles.
    + intros H. apply Hawait in H. destruct H as (new & Ht & Hq).
      exists new. split; [exact Ht | now left].
    + intros [= <-]. eexists. split; [reflexivity|]. right.
      exists e. eexists. repeat split; reflexivity.
  - cbv zeta.
    destruct (isSitemapUrl _) eqn:Hsitemap.
    + destruct (fetchSitemapUrls _ useCustomPageFetcher)
        as [sitemapUrls|e] eqn:Hurls.
      * intros H.
        destruct (forUrls (id source) (firstn 10 sitemapUrls) o)
          as [[[contents c] o1]|] eqn:Hfor; [|discriminate].
        apply forUrls_quiet in Hfor. destruct Hfor as (-> & new & Ht & Hq).
        injection H as <-. exists new. split; [exact Ht | now left].
      * intros [= <-]. eexists. split; [reflexivity|]. right.
        exists e. eexists. split; [now split | repeat split; reflexivity].
    + destruct (discoverLinks' fuel (id source) _ [] [url] o)
        as [o1| |] eqn:Hcrawl; try discriminate.
      intros [= <-]. apply discoverLinks_quiet in Hcrawl.
      destruct Hcrawl as (new & Ht & Hq).
      exists new. split; [exact Ht | now left].
  - intros [= <-]. exists []. rewrite app_nil_r. split; [reflexivity | now left].
  - intros [= <-]. exists []. rewrite app_nil_r. split; [reflexivity | now left].
Qed.

Lemma trainSources_reports (fuel : nat) (sources : list Source)
    (o o' : Orchestrator) :
  trainSources' fuel sources o = Some o' ->
  exists new,
    trace (ui o') = (trace (ui o) ++ new)%list /\
    forall message,
      In message (reported new) ->
      exists source e, In source sources /\ listingRejects' source e.
Proof.
  revert o; induction sources as [|source rest IH]; intros o;
    cbn [trainSources].
  - intros [= <-]. exists []. rewrite app_nil_r. split; [reflexivity|].
    intros message [].
  - destruct (trainSource' fuel source o) as [o1|] eqn:Hone; [|discriminate].
    intros H. apply IH in H. destruct H as (new' & Ht' & Hrest).
    apply trainSource_reports in Hone. destruct Hone as (new & Ht & Hone).
    exists (new ++ new')%list. rewrite Ht', Ht, <- app_assoc.
    split; [reflexivity|]. intros message Hin.
    rewrite reported_app in Hin. apply in_app_or in Hin.
    destruct Hin as [Hin|Hin].
    + destruct Hone as [Hq|(e & m & Hrej & _)].
      * rewrite Hq in Hin. destruct Hin.
      * exists source, e. split; [now left | exact Hrej].
    + destruct (Hrest _ Hin) as (src & e & Hsrc & Hrej).
      exists src, e. split; [now right | exact Hrej].
Qed.

Lemma trainSources_app (fuel : nat) (before after : list Source)
    (o : Orchestrator) :
  trainSources' fuel (before ++ after)%list o
  = match trainSources' fuel before o with
    | Some o1 => trainSources' fuel after o1
    | None => None
    end.
Proof.
  revert o; induction before as [|source rest IH]; intros o;
    cbn [trainSources app]; [reflexivity|].
  destruct (trainSource' fuel source o) as [o1|]; [apply IH | reflexivity].
Qed.

(** *** A quota failure *)

(** C1, as the code has it.  When [processFile] fails with the quota
    error the item calls [onFileProcessed], sets the state to idle and
    rejects; the pool records the rejection; the continuation of
    [generateEmbeddings] then logs it, sets the state to idle and returns
    normally.  So no call of [generateEmbeddings] ever throws,
    [_trainSource] hands the orchestrator on without calling [onError],
    and [trainAllSources] goes on with the remaining sources.  This
    holds for every kind of source, GitHub, Motif or website, by sitemap
    or by link discovery: a source makes at most one call of [onError],
    only when the step that lists what the source holds has rejected,
    and then [generateEmbeddings] is not called for that source; whatever
    [processFile] does within [generateEmbeddings], the quota failure
    included, no [onError] follows.  The sources after the first ones
    are trained from the orchestrator that the first ones leave, and
    every call of [generateEmbeddings] starts with the stop flag
    lowered, no errors and all its items queued. *)
Theorem quota_failure_is_absorbed :
  (forall index file e p,
      isQuotaExceeded QUOTA e = true ->
      resumeWithProcessed QUOTA index file (Rejects e) p
      = (setState Idle
           (emit (EvFileProcessed index) (emit (EvToastQuota index) p)),
         Finished (Rejects e))) /\
  (forall job r index file e,
      lookupActive index (active r) = Some (AwaitProcess file) ->
      processFile job index = Rejects e ->
      isQuotaExceeded QUOTA e = true ->
      exists first, rejection (step' job (Settle index) r) = Some first) /\
  (forall job r e,
      returned r = None -> rejection r = Some e ->
      returned (step' job Join r) = Some Normal /\
      state (provider (step' job Join r)) = Idle /\
      trace (provider (step' job Join r))
      = (trace (provider r) ++ [EvConsoleError e])%list) /\
  (forall job r index file e,
      lookupActive index (active r) = Some (AwaitProcess file) ->
      processFile job index = Rejects e ->
      isQuotaExceeded QUOTA e = true ->
      returned r = None ->
      returned (step' job Join (step' job (Settle index) r)) = Some Normal /\
      state (provider (step' job Join (step' job (Settle index) r))) = Idle) /\
  (forall job schedule p p' contents c,
      generateEmbeddings' job schedule p = Some (p', contents, c) ->
      c = Normal) /\
  (forall fuel sid url branch fileData o,
      getGitHubFiles url branch includeGlobs excludeGlobs = Resolves fileData ->
      trainSource' fuel {| id := sid; data := GitHubSource url branch |} o
      = option_map snd (await (fun call => gitHubJob' call sid fileData) o)) /\
  (forall fuel source rest o o1,
      trainSource' fuel source o = Some o1 ->
      trainSources' fuel (source :: rest) o = trainSources' fuel rest o1) /\
  (forall fuel source o o',
      trainSource' fuel source o = Some o' ->
      exists new,
        trace (ui o') = (trace (ui o) ++ new)%list /\
        (reported new = [] \/
         exists e message,
           listingRejects URL_pathname includeGlobs excludeGlobs
             URL_protocol_hostname getGitHubFiles getMotifPublicFileMetadata
             isSitemapUrl fetchSitemapUrls useCustomPageFetcher source e /\
           reported new = [message] /\
           submissions new = 0 /\ calls o' = calls o)) /\
  (forall fuel sources o o',
      trainSources' fuel sources o = Some o' ->
      exists new,
        trace (ui o') = (trace (ui o) ++ new)%list /\
        forall message,
          In message (reported new) ->
          exists source e,
            In source sources /\
            listingRejects URL_pathname includeGlobs excludeGlobs
              URL_protocol_hostname getGitHubFiles getMotifPublicFileMetadata
              isSitemapUrl fetchSitemapUrls useCustomPageFetcher source e) /\
  (forall fuel before after o,
      trainSources' fuel (before ++ after)%list o
      = match trainSources' fuel before o with
        | Some o1 => trainSources' fuel after o1
        | None => None
        end) /\
  (forall job p,
      stopFlag (provider (beginRun job p)) = false /\
      errors (provider (beginRun job p)) = [] /\
      state (provider (beginRun job p)) = state p /\
      trace (provider (beginRun job p)) = trace p /\
      queue (beginRun job p) = seq 0 (numFiles job) /\
      rejection (beginRun job p) = None).
Proof.
  split.
  { intros index file e p Hq. unfold resumeWithProcessed. now rewrite Hq. }
  split.
  { intros job r index file e. apply quota_settle_rejects. }
  split.
  { intros job r e Hret Hrej. cbn [step]. unfold joinable.
    rewrite Hret, Hrej. cbn. repeat split. }
  split.
  { intros job r index file e Hl Hp Hq Hret.
    destruct (quota_settle_rejects minimatch URL_pathname createChecksum
                includeGlobs excludeGlobs QUOTA job r index file e Hl Hp Hq)
      as [first Hrej].
    assert (Hret' : returned (step' job (Settle index) r) = None).
    { destruct (returned_step minimatch URL_pathname createChecksum
                  includeGlobs excludeGlobs QUOTA job (Settle index) r)
        as [Hsame|(Hjoin & _)]; [congruence | discriminate]. }
    set (r1 := step' job (Settle index) r) in *.
    cbn [step]. unfold joinable. rewrite Hret', Hrej. cbn. split; reflexivity. }
  split.
  { intros job schedule p p' contents c H.
    now apply generateEmbeddings_outcome in H. }
  split.
  { intros fuel sid url branch fileData o Hfiles.
    unfold trainSource. cbn [data id]. rewrite Hfiles.
    destruct (await _ o) as [[[contents c] o1]|] eqn:Haw; [|reflexivity].
    apply await_outcome in Haw. destruct Haw as (-> & _). reflexivity. }
  split.
  { intros fuel source rest o o1 H. cbn [trainSources]. now rewrite H. }
  split; [exact trainSource_reports|].
  split; [exact trainSources_reports|].
  split; [exact trainSources_app|].
  intros job p. repeat split.
Qed.

End OrchestratorFacts.

(** ** The concrete runs *)

Section Runs.
Import JsString Utils Training Scenario.

Lemma quotaRun_result :
  exists o,
    quotaRun = Some o /\
    state (ui o) = Idle /\ calls o = 2 /\
    trace (ui o)
    = [ EvFetchContent 0;
        EvProcessFile "s1" 0
          {| path := "a.md"; name := "a.md"; content := "alpha" |};
        EvToastQuota 0;
        EvFileProcessed 0;
        EvConsoleError quotaError;
        EvFetchContent 0;
        EvProcessFile "s2" 0
          {| path := "b.md"; name := "b.md"; content := "beta" |};
        EvFileProcessed 0 ].
Proof. eexists. vm_compute. repeat split. Qed.

(** C1 fails as stated.  The first of two repositories hits the quota on
    its only file; [generateEmbeddings] returns normally, [onError] is
    not called, and the file of the second repository is submitted. *)
Lemma quota_failure_does_not_halt_sources :
  exists o, quotaRun = Some o /\ ~ haltsOnQuota (trace (ui o)).
Proof.
  destruct quotaRun_result as (o & Hrun & _ & _ & Ht).
  exists o. split; [exact Hrun|]. rewrite Ht. intros H.
  specialize (H [EvFetchContent 0;
                 EvProcessFile "s1" 0
                   {| path := "a.md"; name := "a.md"; content := "alpha" |}]
                0 _ eq_refl).
  vm_compute in H. discriminate.
Qed.

(** The quota error of the first run meets the quota test. *)
Lemma quota_failure_is_absorbed_witness :
  resumeWithProcessed QUOTA 0 fileA (Rejects quotaError) idle
  = (setState Idle (emit (EvFileProcessed 0) (emit (EvToastQuota 0) idle)),
     Finished (Rejects quotaError)).
Proof.
  apply (quota_failure_is_absorbed Reference.globMatch Reference.pathnameOf
           checksumOf includeGlobs excludeGlobs QUOTA (Some "project")
           Reference.protocolHostnameOf Reference.schemaRemoved
           archives archiveRootRemoved (fun url => url)
           (fun _ _ _ => Resolves []) (fun _ => Resolves EmptyString)
           noPage hrefsOf noSitemap noSitemapUrls false
           (fun _ _ => []) quotaDuringFirstCall).
  reflexivity.
Defined.

(** *** A page that cannot be fetched *)

(** C7 fails as stated.  The page passes the path filter and has no
    stored checksum, its content is asked for, the fetch yields nothing,
    and the item ends without a callback. *)
Lemma no_callback_without_content :
  shouldIncludeFileWithPath Reference.globMatch Reference.pathnameOf
    (getFilePath missingPageJob 0) includeGlobs excludeGlobs true = true /\
  prevChecksumOf (checksums missingPageJob) (getFilePath missingPageJob 0)
  = None /\
  trace (fst runMissingPage) = [EvFetchContent 0] /\
  callbacks (trace (fst runMissingPage)) = 0 /\
  callbacks (trace (fst runMissingPage)) <> 1.
Proof. vm_compute. repeat split. discriminate. Qed.

(** C4 fails as stated.  The page is started and its content asked
    for; then the user asks to stop; the fetch yields nothing, the item
    ends, the call returns, and the callback has not been called for the
    item that was under way. *)
Lemma started_item_ends_without_callback :
  trace (provider (poolRun missingPageJob [])) = [EvFetchContent 0] /\
  map fst (active (poolRun missingPageJob [])) = [0] /\
  stopFlag (provider (poolRun missingPageJob [Cancel; Settle 0; Join]))
  = true /\
  active (poolRun missingPageJob [Cancel; Settle 0; Join]) = [] /\
  returned (poolRun missingPageJob [Cancel; Settle 0; Join]) = Some Normal /\
  callbacks (trace (provider (poolRun missingPageJob [Cancel; Settle 0; Join])))
  = 0.
Proof. vm_compute. repeat split. Qed.

(** *** The crawl of the two-way link *)

(** C3 at the failing input.  The start page links to one page by the
    relative href [a] and by its absolute URL; the two hrefs differ, so
    [uniq] keeps both, and both complete to the same URL.  The second
    round is handed that URL twice and the page is fetched and submitted
    twice; the loop ends after that round although the page links back to
    the start page. *)
Theorem crawl_submits_page_twice :
  exists o,
    crawlRun = Some o /\
    rounds o = [[docsUrl]; [pageUrl; pageUrl]] /\
    submissionsOf docsUrl (trace (ui o)) = 1 /\
    submissionsOf pageUrl (trace (ui o)) = 2.
Proof. eexists. vm_compute. repeat split. Qed.

(** *** The sitemap of 15 pages *)

Lemma sitemapRun_submissions :
  sitemapSourceRun = Some sitemapOutcome /\
  submissions (trace (ui sitemapOutcome)) = 10.
Proof. vm_compute. split; reflexivity. Qed.

(** The run on the sitemap of 15 pages meets the hypotheses of the
    sitemap theorem. *)
Lemma sitemap_mode_takes_first_10_witness :
  rounds sitemapOutcome = [firstn 10 fifteenPages] /\
  calls sitemapOutcome = 1 /\
  exists new,
    trace (ui sitemapOutcome) = new /\ submissions new <= 10.
Proof.
  destruct (sitemap_mode_takes_first_10
              Reference.globMatch Reference.pathnameOf checksumOf
              includeGlobs excludeGlobs QUOTA (Some "project")
              Reference.protocolHostnameOf Reference.schemaRemoved
              noArchive archiveRootRemoved (fun url => url)
              (fun _ _ _ => Resolves []) (fun _ => Resolves EmptyString)
              everyPage hrefsOf isXml sitemapOf false
              (fun _ _ => []) allProcessed
              10 "site" sitemapUrl fifteenPages sitemapStart sitemapOutcome
              ltac:(vm_compute; reflexivity) ltac:(vm_compute; reflexivity)
              ltac:(vm_compute; reflexivity))
    as (Hrounds & Hcalls & _ & new & Ht & Hle & _).
  split; [exact Hrounds|]. split; [exact Hcalls|].
  exists new. split; [exact Ht | exact Hle].
Defined.

(** *** An unchanged file *)

(** The file of the first repository, stored with its present checksum,
    meets the hypotheses of the theorem on unchanged items. *)
Lemma unchanged_item_not_submitted_witness :
  snd (generateEmbeddingForFile Reference.globMatch Reference.pathnameOf
         checksumOf includeGlobs excludeGlobs QUOTA storedJob 0 idle)
  = Resolves tt /\
  errors (fst (generateEmbeddingForFile Reference.globMatch
                 Reference.pathnameOf checksumOf includeGlobs excludeGlobs
                 QUOTA storedJob 0 idle))
  = [].
Proof.
  destruct (unchanged_item_not_submitted
              Reference.globMatch Reference.pathnameOf checksumOf
              includeGlobs excludeGlobs QUOTA storedJob 0 "a.md" "alpha"
              ltac:(vm_compute; reflexivity) ltac:(vm_compute; reflexivity))
    as [Htask _].
  destruct (Htask idle) as (Hres & Herr & _).
  split; [exact Hres | exact Herr].
Defined.

(** *** A request to stop *)

(** Under the raised flag the theorem on cancellation applies to the
    file of the first repository; and of seven pages, the first, started
    before the request, is submitted after it. *)
Lemma cancellation_is_cooperative_witness :
  stopFlag stopped = true /\
  startFile Reference.globMatch Reference.pathnameOf includeGlobs excludeGlobs
    storedJob 0 stopped
  = (stopped, Finished (Resolves tt)) /\
  trace (provider (poolRun sevenPagesJob [Cancel; Settle 0]))
  = (trace (provider (poolRun sevenPagesJob [Cancel]))
     ++ [EvProcessFile "site" 0
           {| path := pageNumber 0; name := "pa.html";
              content := pageNumber 0 |}])%list.
Proof.
  split; [reflexivity|]. split.
  - apply (cancellation_is_cooperative Reference.globMatch
             Reference.pathnameOf checksumOf includeGlobs excludeGlobs QUOTA
             storedJob).
    reflexivity.
  - destruct (cancellation_is_cooperative Reference.globMatch
                Reference.pathnameOf checksumOf includeGlobs excludeGlobs
                QUOTA sevenPagesJob)
      as (_ & _ & _ & _ & _ & _ & _ & H & _).
    refine (proj1 (H (poolRun sevenPagesJob [Cancel]) 0 (pageNumber 0) None
                     "pa.html" (pageNumber 0) _ _ _ _)).
    + reflexivity.
    + reflexivity.
    + reflexivity.
    + discriminate.
Defined.

(** The pool does fill up: with six files, five submissions are in
    flight once the first five contents have arrived. *)
Lemma pool_can_be_full :
  inFlight
    (exec Reference.globMatch Reference.pathnameOf checksumOf
       includeGlobs excludeGlobs QUOTA
       (websiteJob everyPage false (fun _ _ => []) allProcessed 0 "site"
          (firstn 6 fifteenPages))
       (map Settle (seq 0 5))
       (startRun Reference.globMatch Reference.pathnameOf
          includeGlobs excludeGlobs
          (websiteJob everyPage false (fun _ _ => []) allProcessed 0 "site"
             (firstn 6 fifteenPages))
          idle))
  = 5.
Proof. vm_compute. reflexivity. Qed.

(** Within one pool the limiter goes on after the rejection: the sixth
    page is started, and submitted after the call has returned. *)
Lemma queued_item_starts_after_quota :
  trace (provider (poolRun sixPagesJob quotaThenSixth))
  = [ EvFetchContent 0; EvFetchContent 1; EvFetchContent 2;
      EvFetchContent 3; EvFetchContent 4;
      EvProcessFile "site" 0
        {| path := pageNumber 0; name := "pa.html"; content := pageNumber 0 |};
      EvToastQuota 0; EvFileProcessed 0;
      EvFetchContent 5;
      EvConsoleError quotaError;
      EvProcessFile "site" 5
        {| path := pageNumber 5; name := "pf.html"; content := pageNumber 5 |};
      EvFileProcessed 5 ] /\
  returned (poolRun sixPagesJob quotaThenSixth) = Some Normal.
Proof. vm_compute. split; reflexivity. Qed.

(** After the request to stop the five active pages end with their
    callbacks and the two queued pages are never fetched. *)
Lemma stop_in_mid_pool :
  let r := poolRun sevenPagesJob stopAfterFirstSubmission in
  map eventItem
    (filter (fun e => match e with EvFetchContent _ => true | _ => false end)
       (trace (provider r)))
  = [Some 0; Some 1; Some 2; Some 3; Some 4] /\
  submissions (trace (provider r)) = 5 /\
  callbacks (trace (provider r)) = 5 /\
  queue r = [] /\ active r = [] /\
  returned r = Some Normal.
Proof. vm_compute. repeat split. Qed.

End Runs.

(** * Further properties *)

(** ** Truncation *)

Section TruncationFacts.
Import JsString UtilsExtra.

(** X1.  [truncate] returns a text of at most [maxLength] characters as it
    is, and otherwise its first [maxLength] characters followed by three
    dots: the result has [maxLength + 3] characters, so a text that
    exceeds the limit by one or two characters comes back longer than it
    was. *)
Theorem truncate_length (text : string) (maxLength : nat) :
  (String.length text <= maxLength -> truncate text maxLength = text) /\
  (maxLength < String.length text ->
   truncate text maxLength = take maxLength text ++ "..." /\
   String.length (truncate text maxLength) = maxLength + 3) /\
  (maxLength < String.length text < maxLength + 3 ->
   String.length text < String.length (truncate text maxLength)).
Proof.
  unfold truncate, slice. rewrite Nat.sub_0_r. cbn [drop].
  destruct (Nat.ltb_spec maxLength (String.length text)) as [Hlt|Hge].
  - split; [lia|].
    assert (Hlen : String.length (take maxLength text ++ "...") = maxLength + 3).
    { rewrite length_append, length_take_exact by lia. reflexivity. }
    split; [intros _; split; [reflexivity | exact Hlen]|].
    intros H. rewrite Hlen. lia.
  - split; [reflexivity|]. split; intros; lia.
Qed.

(** X2.  [truncateMiddle] keeps a text of at most [offsetStart + offsetEnd]
    characters; of a longer one it keeps the first [offsetStart] and the
    last [offsetEnd] characters around the truncation text.  With
    [offsetEnd = 0] the part after the truncation text is the whole text,
    not the empty string.  [generateHint] is the same function with three
    dots. *)
Theorem truncateMiddle_shape (text : string) (offsetStart offsetEnd : nat)
    (truncateText : string) :
  (String.length text <= offsetStart + offsetEnd ->
   truncateMiddle text offsetStart offsetEnd truncateText = text) /\
  (offsetStart + offsetEnd < String.length text -> 0 < offsetEnd ->
   truncateMiddle text offsetStart offsetEnd truncateText
   = take offsetStart text ++ truncateText
     ++ drop (String.length text - offsetEnd) text /\
   String.length (truncateMiddle text offsetStart offsetEnd truncateText)
   = offsetStart + String.length truncateText + offsetEnd) /\
  (offsetStart < String.length text ->
   truncateMiddle text offsetStart 0 truncateText
   = take offsetStart text ++ truncateText ++ text) /\
  generateHint text offsetStart offsetEnd
  = truncateMiddle text offsetStart offsetEnd "...".
Proof.
  unfold truncateMiddle, generateHint, slice. rewrite !Nat.sub_0_r.
  cbn [drop]. split; [|split; [|split; [|reflexivity]]].
  - intros H. apply Nat.leb_le in H. now rewrite H.
  - intros Hlt Hend.
    destruct (Nat.leb_spec (String.length text) (offsetStart + offsetEnd));
      [lia|].
    unfold sliceFromEnd. destruct offsetEnd as [|k]; [lia|].
    split; [reflexivity|].
    rewrite !length_append, length_take_exact, length_drop by lia. lia.
  - intros Hlt. rewrite Nat.add_0_r.
    destruct (Nat.leb_spec (String.length text) offsetStart); [lia|].
    reflexivity.
Qed.

End TruncationFacts.

(** The text [abcdef] meets the hypotheses of the theorem on truncation
    in the middle. *)
Lemma truncateMiddle_shape_witness :
  UtilsExtra.truncateMiddle "abcdef" 2 1 "..." = "ab...f" /\
  UtilsExtra.truncateMiddle "abcdef" 2 0 "..." = "ab...abcdef".
Proof.
  destruct (truncateMiddle_shape "abcdef" 2 1 "...") as (_ & H1 & _).
  destruct (truncateMiddle_shape "abcdef" 2 0 "...") as (_ & _ & H2 & _).
  split.
  - exact (proj1 (H1 ltac:(cbn; lia) ltac:(lia))).
  - exact (H2 ltac:(cbn; lia)).
Defined.

(** The text [abc] meets the hypotheses of the theorem on truncation. *)
Lemma truncate_length_witness :
  String.length "abc" < String.length (UtilsExtra.truncate "abc" 2).
Proof.
  apply (truncate_length "abc" 2). cbn. lia.
Defined.

(** ** File names, extensions and types *)

Section FileNameFacts.
Import JsString Utils UtilsExtra.

Lemma getFileExtension_split (name ext : string) :
  getFileExtension name = Some ext ->
  exists pre, name = pre ++ "." ++ ext /\ all_chars isWordChar ext = true.
Proof.
  induction name as [|c t IH]; [discriminate|].
  cbn [getFileExtension].
  destruct (Ascii.eqb_spec c "."%char) as [->|Hc]; cbn [andb].
  - destruct (all_chars isWordChar t) eqn:Hw.
    + intros [= <-]. now exists EmptyString.
    + intros H. destruct (IH H) as (pre & -> & Hext).
      now exists (String "." pre).
  - intros H. destruct (IH H) as (pre & -> & Hext).
    now exists (String c pre).
Qed.

Lemma endsWith_append (s suf : string) : endsWith (s ++ suf) suf = true.
Proof.
  induction s as [|c s IH].
  - cbn [append]. destruct suf; [reflexivity|].
    cbn [endsWith]. now rewrite String.eqb_refl.
  - cbn [append endsWith]. rewrite IH. apply orb_true_r.
Qed.

Lemma endsWith_split (s suf : string) :
  endsWith s suf = true -> exists pre, s = pre ++ suf.
Proof.
  induction s as [|c s IH]; cbn [endsWith].
  - rewrite orb_false_r. intros H. apply String.eqb_eq in H. subst.
    now exists EmptyString.
  - intros H. apply orb_true_iff in H. destruct H as [H|H].
    + apply String.eqb_eq in H. subst. now exists EmptyString.
    + destruct (IH H) as [pre ->]. now exists (String c pre).
Qed.

(** X3.  The name given to a page of a website always ends in [.html],
    whatever the URL, so the page is typed as HTML and its name passes
    the file type check. *)
Theorem getNameFromUrlOrPath_is_html (url : string) :
  endsWith (getNameFromUrlOrPath url) ".html" = true /\
  getFileExtension (getNameFromUrlOrPath url) = Some "html" /\
  getFileType (getNameFromUrlOrPath url) = ft_html /\
  isSupportedFileType (getNameFromUrlOrPath url) = true.
Proof.
  assert (H : exists pre, getNameFromUrlOrPath url = pre ++ ".html").
  { unfold getNameFromUrlOrPath.
    destruct (endsWith (getNameFromPath url) ".html") eqn:He.
    - now apply endsWith_split.
    - destruct (negb _); [now eexists | now exists "index"]. }
  destruct H as [pre ->].
  assert (Hext : getFileExtension (pre ++ ".html") = Some "html")
    by (now apply (getFileExtension_append pre "html")).
  split; [apply endsWith_append|]. split; [exact Hext|].
  unfold getFileType, isSupportedFileType. rewrite Hext. split; reflexivity.
Qed.

(** X4.  A name that is typed as anything but plain text has a supported
    extension: the type switch knows no extension that the file type
    check refuses. *)
Theorem typed_files_are_supported (name : string) :
  getFileType name <> ft_txt ->
  isSupportedFileType name = true /\
  exists extension,
    getFileExtension name = Some extension /\
    In extension SUPPORTED_EXTENSIONS.
Proof.
  unfold getFileType, isSupportedFileType.
  destruct (getFileExtension name) as [ext|]; [|congruence].
  intros H.
  assert (Hin : In ext SUPPORTED_EXTENSIONS).
  { revert H.
    repeat match goal with
           | |- context [String.eqb ext ?lit] =>
               destruct (String.eqb_spec ext lit) as [->|];
               [intros _; cbn; tauto|]
           end.
    congruence. }
  split; [|now exists ext].
  destruct ext; [reflexivity|].
  apply existsb_exists. eexists. split; [exact Hin | apply String.eqb_refl].
Qed.

Lemma lastIndexOfChar_none (c : ascii) (s : string) :
  all_chars (fun d => negb (Ascii.eqb d c)) s = true ->
  lastIndexOfChar c s = None.
Proof.
  induction s as [|d t IH]; [reflexivity|]. cbn.
  intros H. apply andb_true_iff in H. destruct H as [Hd Ht].
  rewrite (IH Ht). apply negb_true_iff in Hd. now rewrite Hd.
Qed.

Lemma lastIndexOfChar_append (c : ascii) (pre post : string) :
  lastIndexOfChar c post = None ->
  lastIndexOfChar c (pre ++ String c post) = Some (String.length pre).
Proof.
  intros Hpost. induction pre as [|d pre IH].
  - cbn. now rewrite Hpost, Ascii.eqb_refl.
  - cbn [append lastIndexOfChar String.length]. now rewrite IH.
Qed.

Lemma take_append (pre post : string) :
  take (String.length pre) (pre ++ post) = pre.
Proof.
  induction pre as [|c pre IH]; cbn; [now destruct post | now rewrite IH].
Qed.

Lemma wordChars_have_no_dot (ext : string) :
  all_chars isWordChar ext = true ->
  all_chars (fun d => negb (Ascii.eqb d "."%char)) ext = true.
Proof.
  induction ext as [|c ext IH]; [reflexivity|]. cbn [all_chars].
  intros H. apply andb_true_iff in H. destruct H as [Hc Hext].
  rewrite (IH Hext), andb_true_r.
  destruct (Ascii.eqb_spec c "."%char) as [->|]; [discriminate | reflexivity].
Qed.

(** X5.  When a name has an extension, removing the extension and putting it
    back after a dot gives the name again; a name without any dot is
    left as it is. *)
Theorem removeFileExtension_inverse (name : string) :
  (forall extension,
      getFileExtension name = Some extension ->
      removeFileExtension name ++ "." ++ extension = name) /\
  (all_chars (fun d => negb (Ascii.eqb d "."%char)) name = true ->
   removeFileExtension name = name /\ getFileExtension name = None).
Proof.
  split.
  - intros ext H. apply getFileExtension_split in H.
    destruct H as (pre & -> & Hext).
    unfold removeFileExtension. cbn [append].
    rewrite lastIndexOfChar_append
      by (apply lastIndexOfChar_none, wordChars_have_no_dot, Hext).
    unfold slice. rewrite Nat.sub_0_r. cbn [drop].
    now rewrite take_append.
  - intros H. unfold removeFileExtension.
    rewrite (lastIndexOfChar_none _ _ H). split; [reflexivity|].
    destruct (getFileExtension name) as [ext|] eqn:He; [|reflexivity].
    apply getFileExtension_split in He. destruct He as (pre & -> & _).
    rewrite all_chars_append in H. cbn in H.
    rewrite andb_false_r in H. discriminate.
Qed.

End FileNameFacts.

(** The name [notes.md] meets the hypotheses of the two theorems on
    extensions. *)
Lemma typed_files_are_supported_witness :
  Utils.isSupportedFileType "notes.md" = true.
Proof.
  apply (typed_files_are_supported "notes.md"). cbn. discriminate.
Defined.

Lemma removeFileExtension_inverse_witness :
  UtilsExtra.removeFileExtension "notes.md" ++ "." ++ "md" = "notes.md" /\
  UtilsExtra.removeFileExtension "README" = "README".
Proof.
  split.
  - apply (removeFileExtension_inverse "notes.md"). reflexivity.
  - apply (removeFileExtension_inverse "README"). reflexivity.
Defined.

(** ** The authorization header *)

Section AuthorizationFacts.
Import JsString Search UtilsExtra.

Lemma trimEnd_idempotent (s : string) : trimEnd (trimEnd s) = trimEnd s.
Proof.
  induction s as [|c t IH]; [reflexivity|]. cbn [trimEnd].
  destruct (trimEnd t) as [|d t'] eqn:Ht.
  - destruct (isSpace c) eqn:Hc; [reflexivity|]. cbn. now rewrite Hc.
  - cbn [trimEnd]. cbn [trimEnd] in IH. now rewrite IH.
Qed.

Lemma trimStart_head (s : string) :
  match trimStart s with
  | EmptyString => True
  | String c _ => isSpace c = false
  end.
Proof.
  induction s as [|c t IH]; [exact I|]. cbn [trimStart].
  destruct (isSpace c) eqn:Hc; [exact IH | exact Hc].
Qed.

Lemma trimEnd_head (c : ascii) (t : string) :
  isSpace c = false -> exists t', trimEnd (String c t) = String c t'.
Proof.
  intros Hc. cbn [trimEnd]. destruct (trimEnd t) as [|d t'].
  - rewrite Hc. now eexists.
  - now eexists.
Qed.

Lemma trim_idempotent (s : string) : trim (trim s) = trim s.
Proof.
  unfold trim. pose proof (trimStart_head s) as Hhead.
  destruct (trimStart s) as [|c t]; [reflexivity|].
  destruct (trimEnd_head c t Hhead) as [t' Ht']. rewrite Ht'.
  cbn [trimStart]. rewrite Hhead, <- Ht'. apply trimEnd_idempotent.
Qed.

(** X6.  An absent header gives no token.  Otherwise the first occurrence of
    the word [Bearer] with its space is removed, wherever it stands in
    the header, and only the first; the rest is trimmed, so the token has
    no white space at either end.  A header without the word is returned
    trimmed. *)
Theorem getAuthorizationToken_removes_first_bearer :
  getAuthorizationToken None = None /\
  (forall token,
      getAuthorizationToken (Some ("Bearer " ++ token)) = Some (trim token)) /\
  (forall header i,
      firstOccurrence header "Bearer " i ->
      getAuthorizationToken (Some header)
      = Some (trim (take i header ++ drop (i + 7) header))) /\
  (forall header,
      (forall i, ~ occursAt header "Bearer " i) ->
      getAuthorizationToken (Some header) = Some (trim header)) /\
  (forall header token,
      getAuthorizationToken header = Some token -> trim token = token).
Proof.
  split; [reflexivity|]. split; [reflexivity|].
  split; [|split].
  - intros header i H. unfold getAuthorizationToken, replaceFirst, indexOf.
    rewrite (indexOf_from_first _ _ 0 _ H). reflexivity.
  - intros header H. unfold getAuthorizationToken, replaceFirst, indexOf.
    now rewrite (indexOf_from_absent _ _ 0 H).
  - intros [h|] token; [|discriminate]. cbn [getAuthorizationToken].
    intros [= <-]. apply trim_idempotent.
Qed.

End AuthorizationFacts.

(** A header in which the word is not at the start. *)
Lemma getAuthorizationToken_removes_first_bearer_witness :
  UtilsExtra.getAuthorizationToken (Some "Token Bearer abc ")
  = Some "Token abc".
Proof.
  destruct getAuthorizationToken_removes_first_bearer as (_ & _ & H & _).
  apply (H "Token Bearer abc " 6). split.
  - now exists "Token ", "abc ".
  - intros j Hj.
    do 6 (destruct j as [|j];
          [intros Hocc; apply occursAt_0 in Hocc; discriminate|];
          try (rewrite occursAt_S)).
    lia.
Defined.

(** ** Splitting a line into pieces *)

Section SplitFacts.
Import JsString UtilsExtra.

Local Abbreviation noSep sep := (fun d => negb (Ascii.eqb d sep)).

Lemma split_on_append (sep : ascii) (a b cur : string) :
  split_on sep (a ++ String sep b) cur
  = (split_on sep a cur ++ split_on sep b EmptyString)%list.
Proof.
  revert cur; induction a as [|c a IH]; intros cur.
  - cbn. now rewrite Ascii.eqb_refl.
  - cbn [append split_on]. destruct (Ascii.eqb c sep).
    + now rewrite IH.
    + apply IH.
Qed.

Lemma split_on_word (sep : ascii) (w cur : string) :
  all_chars (noSep sep) w = true -> split_on sep w cur = [cur ++ w].
Proof.
  revert cur; induction w as [|c w IH]; intros cur H.
  - cbn. now rewrite append_empty_r.
  - cbn [all_chars] in H. apply andb_true_iff in H. destruct H as [Hc Hw].
    apply negb_true_iff in Hc. cbn [split_on]. rewrite Hc, (IH _ Hw).
    now rewrite append_assoc.
Qed.

Lemma split_on_words (sep : ascii) (s cur : string) :
  all_chars (noSep sep) cur = true ->
  Forall (fun w => all_chars (noSep sep) w = true) (split_on sep s cur).
Proof.
  revert cur; induction s as [|c s IH]; intros cur Hcur.
  - now constructor.
  - cbn [split_on]. destruct (Ascii.eqb c sep) eqn:Hc.
    + constructor; [exact Hcur | now apply IH].
    + apply IH. rewrite all_chars_append, Hcur. cbn. now rewrite Hc.
Qed.

Lemma wordsOf_app (l1 l2 : list string) :
  nonEmptyWords (flat_map (fun p => split p " "%char) (l1 ++ l2))
  = (nonEmptyWords (flat_map (fun p => split p " "%char) l1)
     ++ nonEmptyWords (flat_map (fun p => split p " "%char) l2))%list.
Proof.
  unfold nonEmptyWords. now rewrite flat_map_app, filter_app.
Qed.

Lemma wordsOf_piece (cur word : string) :
  all_chars (noSep " "%char) word = true ->
  nonEmptyWords
    (split (cur ++ (if (0 <? String.length cur)%nat then " " else "") ++ word)
       " "%char)
  = (nonEmptyWords (split cur " "%char) ++ nonEmptyWords [word])%list.
Proof.
  intros Hw. destruct cur as [|c cur].
  - cbn [String.length Nat.ltb Nat.leb append]. unfold split.
    rewrite (split_on_word _ _ _ Hw). reflexivity.
  - cbn [String.length Nat.ltb Nat.leb]. unfold split.
    change (String c cur ++ " " ++ word)
      with (String c cur ++ String " "%char word).
    rewrite split_on_append, (split_on_word _ _ _ Hw).
    unfold nonEmptyWords. now rewrite filter_app.
Qed.

Lemma splitLoop_words (maxLength : nat) (words result : list string)
    (cur : string) :
  Forall (fun w => all_chars (noSep " "%char) w = true) words ->
  let (result', cur') := splitLoop maxLength words result cur in
  nonEmptyWords (flat_map (fun p => split p " "%char) (result' ++ [cur']))
  = (nonEmptyWords (flat_map (fun p => split p " "%char) (result ++ [cur]))
     ++ nonEmptyWords words)%list.
Proof.
  revert result cur; induction words as [|word rest IH]; intros result cur H.
  - cbn [splitLoop]. unfold nonEmptyWords at 3. cbn [filter].
    now rewrite app_nil_r.
  - inversion H as [|? ? Hword Hrest]; subst. cbn [splitLoop].
    assert (Hcons : nonEmptyWords (word :: rest)
                    = (nonEmptyWords [word] ++ nonEmptyWords rest)%list)
      by (unfold nonEmptyWords; now rewrite <- filter_app).
    destruct (_ <=? maxLength)%nat.
    + specialize (IH result
        (cur ++ (if (0 <? String.length cur)%nat then " " else "") ++ word)
        Hrest).
      destruct (splitLoop maxLength rest result _) as [result' cur'].
      rewrite IH, Hcons, app_assoc. f_equal.
      rewrite !wordsOf_app. cbn [flat_map]. rewrite !app_nil_r.
      now rewrite (wordsOf_piece _ _ Hword), app_assoc.
    + specialize (IH (result ++ [cur])%list word Hrest).
      destruct (splitLoop maxLength rest _ word) as [result' cur'].
      rewrite IH, Hcons, app_assoc. f_equal.
      rewrite (wordsOf_app (result ++ [cur])). f_equal.
      cbn [flat_map]. rewrite app_nil_r. unfold split.
      rewrite (split_on_word _ _ _ Hword). reflexivity.
Qed.

(** X7.  The pieces hold the words of the line, in the order of the line:
    splitting the pieces at the spaces gives the non-empty words of the
    line again.  No word is dropped, repeated or cut. *)
Theorem splitIntoSubstrings_keeps_words (line : string) (maxLength : nat) :
  nonEmptyWords
    (flat_map (fun piece => split piece " "%char)
       (splitIntoSubstringsOfMaxLength line maxLength))
  = nonEmptyWords (split line " "%char).
Proof.
  unfold splitIntoSubstringsOfMaxLength.
  pose proof (splitLoop_words maxLength (split line " "%char) [] EmptyString
                (split_on_words " "%char line EmptyString eq_refl)) as H.
  destruct (splitLoop maxLength (split line " "%char) [] EmptyString)
    as [result cur].
  etransitivity; [|exact H].
  destruct cur as [|c cur]; cbn [String.length Nat.ltb Nat.leb].
  - rewrite wordsOf_app. cbn. now rewrite app_nil_r.
  - reflexivity.
Qed.

Lemma splitLoop_lengths (maxLength : nat) (all words result : list string)
    (cur : string) :
  let P := fun piece =>
             String.length piece <= maxLength + 1 \/ In piece all in
  incl words all -> Forall P result -> P cur ->
  let (result', cur') := splitLoop maxLength words result cur in
  Forall P result' /\ P cur'.
Proof.
  intros P. revert result cur.
  induction words as [|word rest IH]; intros result cur Hincl Hres Hcur.
  - now split.
  - cbn [splitLoop].
    assert (Hrest : incl rest all)
      by (intros w Hw; apply Hincl; now right).
    destruct (Nat.leb_spec (String.length cur + String.length word) maxLength)
      as [Hfit|Hover].
    + apply IH; [exact Hrest | exact Hres|]. left.
      rewrite !length_append.
      destruct (0 <? String.length cur)%nat; cbn [String.length]; lia.
    + apply IH; [exact Hrest | |].
      * apply Forall_app. split; [exact Hres | now constructor].
      * right. apply Hincl. now left.
Qed.

(** X8.  A piece can exceed [maxLength]: the space that joins two words is
    not counted, so a piece has up to [maxLength + 1] characters, and a
    word longer than that is a piece by itself.  When the first word
    does not fit, the first piece is the empty string. *)
Theorem splitIntoSubstrings_piece_length (line : string) (maxLength : nat) :
  Forall (fun piece =>
            String.length piece <= maxLength + 1 \/
            In piece (split line " "%char))
    (splitIntoSubstringsOfMaxLength line maxLength) /\
  splitIntoSubstringsOfMaxLength "ab cde" 5 = ["ab cde"] /\
  splitIntoSubstringsOfMaxLength "abcdefgh" 3 = [""; "abcdefgh"].
Proof.
  split; [|split; reflexivity].
  unfold splitIntoSubstringsOfMaxLength.
  pose proof (splitLoop_lengths maxLength (split line " "%char)
                (split line " "%char) [] EmptyString
                (incl_refl _) (Forall_nil _)
                (or_introl (Nat.le_0_l _))) as H.
  destruct (splitLoop maxLength (split line " "%char) [] EmptyString)
    as [result cur].
  destruct H as [Hres Hcur].
  destruct (0 <? String.length cur)%nat; [|exact Hres].
  apply Forall_app. split; [exact Hres | now constructor].
Qed.

End SplitFacts.

(** ** GitHub URLs *)

Section GitHubFacts.
Import JsString UtilsExtra.

Lemma spanRepoChars_append (run rest : string) :
  all_chars isRepoChar run = true -> endsRepo rest ->
  spanRepoChars (run ++ rest) = (run, rest).
Proof.
  intros Hrun Hrest. induction run as [|c run IH].
  - cbn [append]. destruct rest as [|d rest]; [reflexivity|].
    cbn [spanRepoChars]. cbn in Hrest. now rewrite Hrest.
  - cbn [all_chars] in Hrun. apply andb_true_iff in Hrun.
    destruct Hrun as [Hc Hrun]. cbn [append spanRepoChars].
    now rewrite Hc, (IH Hrun).
Qed.

Lemma spanRepoChars_split (s run rest : string) :
  spanRepoChars s = (run, rest) ->
  s = run ++ rest /\ all_chars isRepoChar run = true /\ endsRepo rest.
Proof.
  revert run rest; induction s as [|c s IH]; intros run rest.
  - intros [= <- <-]. now repeat split.
  - cbn [spanRepoChars]. destruct (isRepoChar c) eqn:Hc.
    + destruct (spanRepoChars s) as [run' rest'].
      intros [= <- <-]. destruct (IH _ _ eq_refl) as (-> & Hrun & Hrest).
      cbn [all_chars]. now rewrite Hc, Hrun.
    + intros [= <- <-]. now repeat split.
Qed.

(** X9.  A URL made of the GitHub prefix, an owner, a slash and a repository
    is parsed into that owner and that repository, whatever follows the
    repository, as long as what follows does not continue the name.  The
    dot before [com] is not escaped in the pattern: any character in its
    place is accepted, line terminators apart. *)
Theorem parseGitHubURL_round_trip (dot : ascii) (owner repo rest : string) :
  owner <> EmptyString -> repo <> EmptyString ->
  all_chars isRepoChar owner = true ->
  all_chars isRepoChar repo = true ->
  endsRepo rest ->
  isLineTerminator dot = false ->
  parseGitHubURL
    ("https://github" ++ String dot ("com/" ++ owner ++ "/" ++ repo ++ rest))
  = Some (owner, repo) /\
  getGitHubOwnerRepoString
    ("https://github" ++ String dot ("com/" ++ owner ++ "/" ++ repo ++ rest))
  = Some (owner ++ "/" ++ repo).
Proof.
  intros Ho Hr Howner Hrepo Hrest Hdot.
  assert (H : parseGitHubURL
                ("https://github"
                 ++ String dot ("com/" ++ owner ++ "/" ++ repo ++ rest))
              = Some (owner, repo)).
  { unfold parseGitHubURL.
    change (startsWith
              ("https://github"
               ++ String dot ("com/" ++ owner ++ "/" ++ repo ++ rest))
              "https://github") with true.
    change (drop 14
              ("https://github"
               ++ String dot ("com/" ++ owner ++ "/" ++ repo ++ rest)))
      with (String dot ("com/" ++ owner ++ "/" ++ repo ++ rest)).
    cbv iota. rewrite Hdot.
    change (startsWith ("com/" ++ owner ++ "/" ++ repo ++ rest) "com/")
      with true.
    change (drop 4 ("com/" ++ owner ++ "/" ++ repo ++ rest))
      with (owner ++ "/" ++ repo ++ rest).
    cbn [negb andb].
    rewrite (spanRepoChars_append owner ("/" ++ repo ++ rest) Howner)
      by reflexivity.
    destruct owner as [|o owner]; [congruence|].
    cbn [append]. cbn [Ascii.eqb Bool.eqb].
    rewrite (spanRepoChars_append repo rest Hrepo Hrest).
    destruct repo as [|r repo]; [congruence | reflexivity]. }
  split; [exact H|]. unfold getGitHubOwnerRepoString. now rewrite H.
Qed.

(** X10.  Whatever is parsed has the shape of the pattern: the prefix, one
    character, [com/], a non-empty owner, a slash and a non-empty
    repository, both made of letters, digits, hyphens, underscores and
    dots, each as long as possible. *)
Theorem parseGitHubURL_sound (url owner repo : string) :
  parseGitHubURL url = Some (owner, repo) ->
  exists dot rest,
    url = "https://github"
          ++ String dot ("com/" ++ owner ++ "/" ++ repo ++ rest) /\
    isLineTerminator dot = false /\
    owner <> EmptyString /\ repo <> EmptyString /\
    all_chars isRepoChar owner = true /\
    all_chars isRepoChar repo = true /\
    endsRepo rest.
Proof.
  unfold parseGitHubURL.
  destruct (startsWith url "https://github") eqn:Hpre; [|discriminate].
  apply startsWith_split in Hpre. destruct Hpre as [tail ->].
  change (drop 14 ("https://github" ++ tail)) with tail.
  destruct tail as [|dot afterDot]; [discriminate|].
  destruct (isLineTerminator dot) eqn:Hdot; [discriminate|].
  cbn [negb andb].
  destruct (startsWith afterDot "com/") eqn:Hcom; [|discriminate].
  apply startsWith_split in Hcom. destruct Hcom as [tail ->].
  change (drop 4 ("com/" ++ tail)) with tail.
  destruct (spanRepoChars tail) as [o afterOwner] eqn:Hspan.
  apply spanRepoChars_split in Hspan. destruct Hspan as (-> & Howner & _).
  destruct o as [|o ownerTail]; [discriminate|].
  destruct afterOwner as [|slash afterSlash]; [discriminate|].
  destruct (Ascii.eqb_spec slash "/"%char) as [->|]; [|discriminate].
  destruct (spanRepoChars afterSlash) as [r rest] eqn:Hspan.
  apply spanRepoChars_split in Hspan. destruct Hspan as (-> & Hrepo & Hrest).
  destruct r as [|r repoTail]; [discriminate|].
  intros [= <- <-]. exists dot, rest.
  repeat split; try assumption; try discriminate.
Qed.

End GitHubFacts.

(** A repository URL with a path after the repository, and the same
    with another character in the place of the dot. *)
Lemma parseGitHubURL_round_trip_witness :
  UtilsExtra.parseGitHubURL "https://github.com/motifland/markprompt/tree/main"
  = Some ("motifland", "markprompt") /\
  UtilsExtra.parseGitHubURL "https://githubXcom/motifland/markprompt.git"
  = Some ("motifland", "markprompt.git").
Proof.
  split.
  - apply (parseGitHubURL_round_trip "." "motifland" "markprompt" "/tree/main");
      try discriminate; reflexivity.
  - apply (parseGitHubURL_round_trip "X" "motifland" "markprompt.git" "");
      try discriminate; try reflexivity; exact I.
Defined.

Lemma parseGitHubURL_sound_witness :
  exists dot rest,
    "https://github.com/motifland/markprompt#readme"
    = "https://github"
      ++ String dot ("com/" ++ "motifland" ++ "/" ++ "markprompt" ++ rest) /\
    UtilsExtra.isLineTerminator dot = false /\
    "motifland" <> EmptyString /\ "markprompt" <> EmptyString /\
    JsString.all_chars UtilsExtra.isRepoChar "motifland" = true /\
    JsString.all_chars UtilsExtra.isRepoChar "markprompt" = true /\
    endsRepo rest.
Proof.
  apply (parseGitHubURL_sound "https://github.com/motifland/markprompt#readme").
  reflexivity.
Defined.

(** ** Normalised URLs and links of a page *)

Section UrlFacts.
Import JsString Utils.

Variable URL_pathname : string -> option string.
Variable URL_protocol_hostname : string -> option (string * string).

Local Abbreviation toNormalizedUrl' :=
  (toNormalizedUrl URL_pathname URL_protocol_hostname).
Local Abbreviation isHrefFromBaseUrl' :=
  (isHrefFromBaseUrl URL_pathname URL_protocol_hostname).

Lemma stripTrailingSlashes_empty (s : string) :
  stripTrailingSlashes s = EmptyString -> slashesOnly s = true.
Proof.
  destruct s as [|c t]; [reflexivity|]. unfold slashesOnly.
  cbn [stripTrailingSlashes].
  destruct (all_chars (Ascii.eqb "/"%char) (String c t));
    [reflexivity | discriminate].
Qed.

Lemma stripTrailingSlashes_split (s : string) :
  exists slashes,
    slashesOnly slashes = true /\ s = stripTrailingSlashes s ++ slashes.
Proof.
  induction s as [|c t IH]; [now exists EmptyString|].
  cbn [stripTrailingSlashes].
  destruct (all_chars (Ascii.eqb "/"%char) (String c t)) eqn:Hall.
  - now exists (String c t).
  - destruct IH as (slashes & Hs & Heq). exists slashes.
    split; [exact Hs|]. cbn [append]. now rewrite <- Heq.
Qed.

Lemma stripTrailingSlashes_end (s : string) :
  endsWith (stripTrailingSlashes s) "/" = false.
Proof.
  induction s as [|c t IH]; [reflexivity|]. cbn [stripTrailingSlashes].
  destruct (all_chars (Ascii.eqb "/"%char) (String c t)) eqn:Hall;
    [reflexivity|].
  cbn [endsWith]. rewrite IH, orb_false_r.
  destruct (String.eqb_spec (String c (stripTrailingSlashes t)) "/")
    as [Heq|]; [|reflexivity].
  injection Heq as -> Ht. apply stripTrailingSlashes_empty in Ht.
  unfold slashesOnly in Ht. cbn [all_chars] in Hall.
  rewrite Ht in Hall. discriminate.
Qed.

Lemma withSchema_unfold (url : string) (useInsecureSchema : bool) :
  (if negb (startsWith url "http://") && negb (startsWith url "https://")
   then (if useInsecureSchema then "http://" else "https://") ++ url
   else url)
  = withSchema url useInsecureSchema.
Proof.
  unfold withSchema.
  now destruct (startsWith url "http://"), (startsWith url "https://").
Qed.

(** X11.  A URL that the parser accepts is normalised to its protocol, host
    name and path without the trailing slashes: the result never ends
    with a slash, and differs from the three parts only by a run of
    slashes at the end.  A URL that the parser refuses is returned as it
    is, trailing slashes included, behind the schema. *)
Theorem toNormalizedUrl_strips_slashes (url : string)
    (useInsecureSchema : bool) :
  (forall protocol hostname pathname,
      URL_protocol_hostname (withSchema url useInsecureSchema)
      = Some (protocol, hostname) ->
      URL_pathname (withSchema url useInsecureSchema) = Some pathname ->
      endsWith (toNormalizedUrl' url useInsecureSchema) "/" = false /\
      exists slashes,
        slashesOnly slashes = true /\
        protocol ++ "//" ++ hostname ++ pathname
        = toNormalizedUrl' url useInsecureSchema ++ slashes) /\
  (URL_protocol_hostname (withSchema url useInsecureSchema) = None \/
   URL_pathname (withSchema url useInsecureSchema) = None ->
   toNormalizedUrl' url useInsecureSchema = withSchema url useInsecureSchema /\
   (startsWith (toNormalizedUrl' url useInsecureSchema) "http://" = true \/
    startsWith (toNormalizedUrl' url useInsecureSchema) "https://" = true)).
Proof.
  unfold toNormalizedUrl. cbv zeta. rewrite withSchema_unfold. split.
  - intros protocol hostname pathname -> ->.
    split; [apply stripTrailingSlashes_end|].
    apply stripTrailingSlashes_split.
  - intros H.
    assert (Hs : startsWith (withSchema url useInsecureSchema) "http://" = true
                 \/ startsWith (withSchema url useInsecureSchema) "https://"
                    = true).
    { unfold withSchema.
      destruct (startsWith url "http://") eqn:H1; [now left|].
      destruct (startsWith url "https://") eqn:H2; [now right|].
      cbn [orb]. destruct useInsecureSchema; [left | right];
        apply startsWith_append. }
    destruct H as [-> | H].
    + now split.
    + rewrite H. destruct (URL_protocol_hostname _) as [[? ?]|]; now split.
Qed.

(** X12.  An absolute link whose host does not start with a letter, such as
    an IP address, is never taken as a link of the site, whatever the
    base URL is, even when the link is the base URL itself. *)
Theorem isHrefFromBaseUrl_needs_letter_host (baseUrl schema rest : string)
    (c : ascii) :
  schema = "http://" \/ schema = "https://" ->
  isAlpha c = false ->
  isHrefFromBaseUrl' baseUrl (schema ++ String c rest) = false.
Proof.
  intros Hschema Hc. unfold isHrefFromBaseUrl, isAbsoluteHttp.
  destruct Hschema as [-> | ->].
  - change (startsWith ("http://" ++ String c rest) "https://") with false.
    change (startsWith ("http://" ++ String c rest) "http://") with true.
    change (drop 7 ("http://" ++ String c rest)) with (String c rest).
    cbv iota. rewrite Hc. reflexivity.
  - change (startsWith ("https://" ++ String c rest) "https://") with true.
    change (drop 8 ("https://" ++ String c rest)) with (String c rest).
    cbv iota. rewrite Hc. reflexivity.
Qed.

End UrlFacts.

(** The root URL of a site, with the reference parser. *)
Lemma toNormalizedUrl_strips_slashes_witness :
  JsString.endsWith
    (Utils.toNormalizedUrl Reference.pathnameOf Reference.protocolHostnameOf
       "example.com/" false) "/"
  = false /\
  Utils.toNormalizedUrl Reference.pathnameOf Reference.protocolHostnameOf
    "" true
  = "http://".
Proof.
  destruct (toNormalizedUrl_strips_slashes Reference.pathnameOf
              Reference.protocolHostnameOf "example.com/" false) as [H1 _].
  destruct (toNormalizedUrl_strips_slashes Reference.pathnameOf
              Reference.protocolHostnameOf "" true) as [_ H2].
  split.
  - exact (proj1 (H1 "https:" "example.com" "/" eq_refl eq_refl)).
  - exact (proj1 (H2 (or_introl eq_refl))).
Defined.

(** A link to a host given by its address. *)
Lemma isHrefFromBaseUrl_needs_letter_host_witness :
  Utils.isHrefFromBaseUrl Reference.pathnameOf Reference.protocolHostnameOf
    "http://127.0.0.1/docs" ("http://" ++ "127.0.0.1/docs") = false.
Proof.
  apply (isHrefFromBaseUrl_needs_letter_host Reference.pathnameOf
           Reference.protocolHostnameOf "http://127.0.0.1/docs" "http://"
           "27.0.0.1/docs" "1").
  - now left.
  - reflexivity.
Defined.

(** ** Time intervals *)

Section IntervalFacts.
Import Intervals.
Local Open Scope Z_scope.

Lemma ceilDiv_bounds (a b : Z) :
  0 < b -> a <= ceilDiv a b * b < a + b.
Proof.
  intros Hb. unfold ceilDiv.
  pose proof (Z.div_mod (- a) b ltac:(lia)) as Hdiv.
  pose proof (Z.mod_pos_bound (- a) b Hb) as Hmod.
  nia.
Qed.

Lemma intervals_chain (s c : Z) (n k : nat) :
  let l := map (fun i => (s + Z.of_nat i * c, s + (Z.of_nat i + 1) * c))
             (seq k n) in
  chained (s + Z.of_nat k * c) l /\
  lastEnd (s + Z.of_nat k * c) l = s + Z.of_nat (k + n) * c /\
  Forall (fun p => snd p - fst p = c) l /\
  List.length l = n.
Proof.
  cbv zeta. revert k; induction n as [|n IH]; intros k.
  - cbn. rewrite Nat.add_0_r. repeat split. constructor.
  - cbn [seq map chained lastEnd List.length].
    destruct (IH (S k)) as (Hchain & Hlast & Hwidth & Hlen).
    replace (s + (Z.of_nat k + 1) * c) with (s + Z.of_nat (S k) * c) by lia.
    repeat split.
    + exact Hchain.
    + rewrite Hlast. f_equal. f_equal. lia.
    + constructor; [cbn [fst snd]; lia | exact Hwidth].
    + now rewrite Hlen.
Qed.

Lemma coefficient_pos (interval : TimeInterval) :
  0 < coefficient (intervalData interval).
Proof. destruct interval; reflexivity. Qed.

Lemma range_uncovered (interval : TimeInterval) :
  milliseconds (intervalData interval)
  - Z.of_nat (intervals (intervalData interval))
    * coefficient (intervalData interval)
  = uncovered interval.
Proof. destruct interval; reflexivity. Qed.

(** X13.  The end of the range is the current time rounded up to a multiple
    of the coefficient.  The intervals follow one another from the start
    of the range, each as wide as the coefficient, and there are as many
    as the table says.  For one hour, one day, seven and thirty days they
    fill the range; for three months and for one year the table's
    intervals are shorter than the range, and the last six days,
    respectively the last five days, before the end of the range belong
    to no interval. *)
Theorem getTimeIntervals_cover (now : Z) (interval : TimeInterval) :
  let d := intervalData interval in
  let r := getTimeIntervals now interval in
  now <= endTimestamp r < now + coefficient d /\
  endTimestamp r mod coefficient d = 0 /\
  startTimestamp r = endTimestamp r - milliseconds d /\
  List.length (timeIntervals r) = intervals d /\
  chained (startTimestamp r) (timeIntervals r) /\
  Forall (fun p => snd p - fst p = coefficient d) (timeIntervals r) /\
  lastEnd (startTimestamp r) (timeIntervals r)
  = endTimestamp r - uncovered interval.
Proof.
  cbv zeta. unfold getTimeIntervals. cbv zeta.
  cbn [endTimestamp startTimestamp timeIntervals].
  pose proof (coefficient_pos interval) as Hpos.
  pose proof (range_uncovered interval) as Hun.
  set (d := intervalData interval) in *.
  set (e := ceilDiv now (coefficient d) * coefficient d).
  pose proof (intervals_chain (e - milliseconds d) (coefficient d)
                (intervals d) 0) as H.
  cbv zeta in H. cbn [Z.of_nat Nat.add] in H.
  rewrite Z.mul_0_l, Z.add_0_r in H.
  destruct H as (Hchain & Hlast & Hwidth & Hlen).
  split; [apply ceilDiv_bounds, Hpos|].
  split; [apply Z.mod_mul; lia|].
  split; [reflexivity|].
  split; [exact Hlen|]. split; [exact Hchain|]. split; [exact Hwidth|].
  rewrite Hlast. lia.
Qed.

End IntervalFacts.

(** ** Shallow equality of objects *)

Section ObjectFacts.
Import UtilsExtra.

Variable Value : Type.
Variable strictEq : Value -> Value -> bool.
Variable inherited : string -> Value.

Local Abbreviation get' := (get Value inherited).
Local Abbreviation objectEquals' := (objectEquals Value strictEq inherited).

Lemma ownProperty_In (object : JsObject Value) (key : string) :
  In key (keys Value object) ->
  exists v, ownProperty Value object key = Some v /\ In (key, v) object.
Proof.
  induction object as [|[k v] rest IH]; [intros []|].
  cbn [keys map fst In ownProperty]. intros H.
  destruct (String.eqb_spec k key) as [->|Hk].
  - exists v. split; [reflexivity | now left].
  - destruct H as [H|H]; [contradiction|].
    destruct (IH H) as (w & Hw & Hin). exists w. split; [exact Hw | now right].
Qed.

Lemma ownProperty_None (object : JsObject Value) (key : string) :
  ownProperty Value object key = None -> ~ In key (keys Value object).
Proof.
  induction object as [|[k v] rest IH]; [intros _ []|].
  cbn [keys map fst In ownProperty].
  destruct (String.eqb_spec k key) as [->|Hk]; [discriminate|].
  intros H [Heq|Hin]; [contradiction | now apply (IH H)].
Qed.

(** X14.  When no property of the first object holds what an absent property
    reads as (no property is [undefined], none is named like an
    inherited member and holds it), a positive answer is right: the two
    objects have the same keys, and the values under each key are
    strictly equal. *)
Theorem objectEquals_sound (object otherObject : JsObject Value) :
  NoDup (keys Value object) -> NoDup (keys Value otherObject) ->
  (forall key v, In (key, v) object -> strictEq v (inherited key) = false) ->
  objectEquals' object otherObject = true ->
  (forall key,
      In key (keys Value object) <-> In key (keys Value otherObject)) /\
  (forall key,
      In key (keys Value object) ->
      exists v w,
        ownProperty Value object key = Some v /\
        ownProperty Value otherObject key = Some w /\
        strictEq v w = true).
Proof.
  intros Hnodup Hnodup' Hdefined. unfold objectEquals.
  destruct (Nat.eqb_spec (List.length (keys Value object))
              (List.length (keys Value otherObject))) as [Hlen|];
    [|discriminate].
  cbn [negb]. intros Hall. rewrite forallb_forall in Hall.
  assert (Hvalues : forall key,
             In key (keys Value object) ->
             exists v w,
               ownProperty Value object key = Some v /\
               ownProperty Value otherObject key = Some w /\
               strictEq v w = true).
  { intros key Hin. specialize (Hall key Hin).
    destruct (ownProperty_In object key Hin) as (v & Hv & Hpair).
    unfold get in Hall. rewrite Hv in Hall.
    destruct (ownProperty Value otherObject key) as [w|] eqn:Hw.
    - now exists v, w.
    - rewrite (Hdefined key v Hpair) in Hall. discriminate. }
  split; [|exact Hvalues].
  assert (Hincl : incl (keys Value object) (keys Value otherObject)).
  { intros key Hin. destruct (Hvalues key Hin) as (v & w & _ & Hw & _).
    destruct (in_dec string_dec key (keys Value otherObject)) as [|Hout];
      [assumption|].
    exfalso. clear - Hw Hout. revert Hw Hout.
    induction otherObject as [|[k u] rest IH]; [discriminate|].
    cbn [keys map fst In ownProperty].
    destruct (String.eqb_spec k key) as [->|Hk].
    - intros _ Hout. apply Hout. now left.
    - intros Hw Hout. apply IH; [exact Hw|]. intros Hin. apply Hout.
      now right. }
  intros key. split; [apply Hincl|].
  apply (NoDup_length_incl Hnodup); [lia | exact Hincl].
Qed.

(** X15.  Without that condition the answer can be wrong, and it depends on
    the order of the arguments: an object whose only property holds what
    an absent property reads as is found equal to any object with one
    other property, but not the other way round. *)
Theorem objectEquals_not_symmetric (key otherKey : string) (v : Value) :
  key <> otherKey ->
  strictEq (inherited key) (inherited key) = true ->
  strictEq v (inherited otherKey) = false ->
  objectEquals Value strictEq inherited
    [(key, inherited key)] [(otherKey, v)] = true /\
  objectEquals Value strictEq inherited
    [(otherKey, v)] [(key, inherited key)] = false.
Proof.
  intros Hkeys Hrefl Hv. unfold objectEquals, get.
  cbn [keys map fst List.length Nat.eqb negb forallb ownProperty].
  rewrite !String.eqb_refl.
  destruct (String.eqb_spec otherKey key) as [Heq|_]; [congruence|].
  destruct (String.eqb_spec key otherKey) as [Heq|_]; [congruence|].
  now rewrite Hrefl, Hv.
Qed.

End ObjectFacts.

(** Two points with the same coordinates. *)
Lemma objectEquals_sound_witness :
  In "y" (UtilsExtra.keys ScenarioExtra.JsValue ScenarioExtra.point) <->
  In "y"
    (UtilsExtra.keys ScenarioExtra.JsValue
       [("y", ScenarioExtra.JsNumber 2); ("x", ScenarioExtra.JsNumber 1)]).
Proof.
  apply (objectEquals_sound ScenarioExtra.JsValue ScenarioExtra.jsStrictEq
           ScenarioExtra.noPrototype ScenarioExtra.point
           [("y", ScenarioExtra.JsNumber 2); ("x", ScenarioExtra.JsNumber 1)]).
  - repeat constructor; cbn; intuition discriminate.
  - repeat constructor; cbn; intuition discriminate.
  - intros key v [H|[H|[]]]; injection H as <- <-; reflexivity.
  - reflexivity.
Defined.

(** An object with an undefined property against a point on a line. *)
Lemma objectEquals_not_symmetric_witness :
  UtilsExtra.objectEquals ScenarioExtra.JsValue ScenarioExtra.jsStrictEq
    ScenarioExtra.noPrototype
    [("a", ScenarioExtra.JsUndefined)] [("x", ScenarioExtra.JsNumber 1)]
  = true /\
  UtilsExtra.objectEquals ScenarioExtra.JsValue ScenarioExtra.jsStrictEq
    ScenarioExtra.noPrototype
    [("x", ScenarioExtra.JsNumber 1)] [("a", ScenarioExtra.JsUndefined)]
  = false.
Proof.
  apply (objectEquals_not_symmetric ScenarioExtra.JsValue
           ScenarioExtra.jsStrictEq ScenarioExtra.noPrototype
           "a" "x" (ScenarioExtra.JsNumber 1)).
  - discriminate.
  - reflexivity.
  - reflexivity.
Defined.

(** ** Grouping of the matches by file *)

Section GroupingFacts.
Import JsString Search SearchHandler.

Variable stripMarkdown : string -> string.
Variable FileId : Type.
Variable sameId : FileId -> FileId -> bool.
Variable Json SourceType : Type.
Hypothesis sameId_spec : forall a b, sameId a b = true <-> a = b.

Local Abbreviation Results := (ResultsByFile FileId Json SourceType).
Local Abbreviation Row := (FileRow FileId Json SourceType).
Local Abbreviation Match := (FTSResult FileId Json).
Local Abbreviation addMatch' := (addMatch stripMarkdown sameId).
Local Abbreviation sectionOf' := (@sectionOf stripMarkdown FileId Json).

Lemma sameId_refl (a : FileId) : sameId a a = true.
Proof. now apply sameId_spec. Qed.

Lemma lookupResult_assign (results : Results) (k f : FileId)
    (r : SearchResult Json SourceType) :
  lookupResult sameId (assignResult sameId results k r) f
  = if sameId k f then Some r else lookupResult sameId results f.
Proof.
  induction results as [|[k' old] rest IH]; [reflexivity|].
  cbn [assignResult]. destruct (sameId k' k) eqn:Hk.
  - apply sameId_spec in Hk. subst k'. cbn [lookupResult].
    now destruct (sameId k f).
  - cbn [lookupResult]. rewrite IH.
    destruct (sameId k' f) eqn:Hf; [|reflexivity].
    apply sameId_spec in Hf. subst k'.
    destruct (sameId k f) eqn:Hkf; [|reflexivity].
    apply sameId_spec in Hkf. subst k. rewrite sameId_refl in Hk.
    discriminate.
Qed.

Lemma lookupResult_fold (rows : list Row) (query : string) (f : FileId)
    (data : list Match) (results : Results) :
  lookupResult sameId (fold_left (addMatch' (Some rows) query) data results) f
  = match find (fun d => sameId (row_id d) f) rows,
          filter (fun result => sameId (file_id result) f) data with
    | Some row, m :: ms =>
        Some (resultOfFile row
                (match lookupResult sameId results f with
                 | Some old => sections old
                 | None => []
                 end ++ map (sectionOf' query) (m :: ms))%list)
    | _, _ => lookupResult sameId results f
    end.
Proof.
  revert results; induction data as [|result rest IH]; intros results.
  - cbn [fold_left filter]. now destruct (find _ rows).
  - cbn [fold_left filter]. rewrite IH. clear IH.
    destruct (sameId (file_id result) f) eqn:Hf.
    + apply sameId_spec in Hf. unfold addMatch. cbv zeta. rewrite Hf.
      destruct (find (fun d => sameId (row_id d) f) rows) as [row|];
        [|reflexivity].
      rewrite lookupResult_assign, sameId_refl. cbn [sections].
      destruct (filter _ rest) as [|m ms]; [reflexivity|].
      unfold resultOfFile. cbn [map]. now rewrite <- app_assoc.
    + assert (Hsame : lookupResult sameId
                        (addMatch' (Some rows) query results result) f
                      = lookupResult sameId results f).
      { unfold addMatch. cbv zeta.
        destruct (find _ rows); [|reflexivity].
        now rewrite lookupResult_assign, Hf. }
      now rewrite Hsame.
Qed.

(** X16.  The result of a file holds one section for each match of that
    file, in the order of the matches, behind the path, the metadata and
    the source of the file; its score is 0.  A file without a match, and
    a match whose file the join does not return, give no result; when the
    join returns nothing at all there is no result.  No section has more
    than 200 characters. *)
Theorem groupMatches_by_file (rows : list Row) (query : string)
    (data : list Match) (fileId : FileId) :
  let matchesOfFile :=
    filter (fun result => sameId (file_id result) fileId) data in
  lookupResult sameId (groupMatches stripMarkdown sameId (Some rows) query data)
    fileId
  = match find (fun d => sameId (row_id d) fileId) rows, matchesOfFile with
    | Some row, _ :: _ =>
        Some (resultOfFile row (map (sectionOf' query) matchesOfFile))
    | _, _ => None
    end /\
  groupMatches stripMarkdown sameId (@None (list Row)) query data = [] /\
  (forall result s,
      lookupResult sameId
        (groupMatches stripMarkdown sameId (Some rows) query data) fileId
      = Some result ->
      In s (sections result) ->
      String.length (section_content s) <= 200).
Proof.
  cbv zeta.
  assert (Hlookup :
    lookupResult sameId
      (groupMatches stripMarkdown sameId (Some rows) query data) fileId
    = match find (fun d => sameId (row_id d) fileId) rows,
            filter (fun result => sameId (file_id result) fileId) data with
      | Some row, _ :: _ =>
          Some (resultOfFile row
                  (map (sectionOf' query)
                     (filter (fun result => sameId (file_id result) fileId)
                        data)))
      | _, _ => None
      end).
  { unfold groupMatches. rewrite lookupResult_fold. cbn [lookupResult].
    destruct (find _ rows); [|reflexivity].
    now destruct (filter _ data). }
  split; [exact Hlookup|]. split.
  - clear Hlookup. unfold groupMatches.
    induction data as [|result rest IH]; [reflexivity | exact IH].
  - intros result s. rewrite Hlookup.
    destruct (find _ rows) as [row|]; [|discriminate].
    destruct (filter _ data) as [|m ms]; [discriminate|].
    intros [= <-] Hin.
    change (In s (map (sectionOf' query) (m :: ms))) in Hin.
    apply in_map_iff in Hin. destruct Hin as (r & <- & _).
    unfold sectionOf. cbn [section_content].
    set (content := match fts_content r with
                    | Some c => c
                    | None => EmptyString
                    end).
    destruct (indexOf (plainTextOf stripMarkdown content) query) as [i|] eqn:Hi.
    + exact (length_snippet_found stripMarkdown _ _ defaultMaxLength _ Hi).
    + exact (length_snippet_absent stripMarkdown _ _ defaultMaxLength Hi).
Qed.

End GroupingFacts.

(** Three matches in two files: the first file has two sections. *)
Lemma groupMatches_by_file_witness :
  option_map
    (fun result => List.length (SearchHandler.sections result))
    (SearchHandler.lookupResult Nat.eqb
       (SearchHandler.groupMatches Reference.headingsRemoved Nat.eqb
          (Some ScenarioExtra.fileRows) "one" ScenarioExtra.matches) 1)
  = Some 2.
Proof.
  rewrite (proj1 (groupMatches_by_file Reference.headingsRemoved nat Nat.eqb
                    unit Training.SourceType Nat.eqb_eq
                    ScenarioExtra.fileRows "one" ScenarioExtra.matches 1)).
  reflexivity.
Defined.

(** ** Models *)

Section ModelFacts.
Import JsString UtilsExtra.

Lemma existsb_eqb_In (p : string) (l : list string) :
  existsb (String.eqb p) l = true <-> In p l.
Proof.
  rewrite existsb_exists. split.
  - intros (x & Hx & Heq). apply String.eqb_eq in Heq. now subst.
  - intros H. exists p. split; [exact H | apply String.eqb_refl].
Qed.

(** X25.  Whatever the parameter, the model information names a known model
    of the vendor, with the type of its group; the model of an unknown or
    absent parameter is gpt-3.5-turbo.  Reading the information of the
    model found gives the same information again.  The completions URL
    is the plain one exactly for the nine completion models. *)
Theorem stringToLLMInfo_normalises (param : option string) :
  let info := stringToLLMInfo param in
  vendor info = "openai" /\
  (In (model_value info) chatModels /\ model_type info = chat_completions \/
   In (model_value info) completionModels /\ model_type info = completions) /\
  ((forall p, param = Some p ->
              ~ In p chatModels -> ~ In p completionModels ->
              model_value info = "gpt-3.5-turbo") /\
   (param = None -> model_value info = "gpt-3.5-turbo")) /\
  stringToLLMInfo (Some (model_value info)) = info /\
  (getCompletionsUrl info = "https://api.openai.com/v1/completions" <->
   exists p, param = Some p /\ In p completionModels).
Proof.
  cbv zeta. destruct param as [p|]; unfold stringToLLMInfo; cbv zeta.
  - destruct (existsb (String.eqb p) chatModels) eqn:Hchat.
    + cbn [vendor model_type model_value]. rewrite Hchat.
      pose proof (proj1 (existsb_eqb_In p chatModels) Hchat) as Hin.
      split; [reflexivity|]. split; [now left|].
      split; [split; [intros q [= <-] Hn; contradiction | discriminate]|].
      split; [reflexivity|]. unfold getCompletionsUrl. cbn [model_type].
      split; [discriminate|]. intros (q & [= <-] & Hq).
      exfalso. clear Hchat. cbn in Hin, Hq. intuition congruence.
    + destruct (existsb (String.eqb p) completionModels) eqn:Hcomp.
      * cbn [vendor model_type model_value]. rewrite Hchat, Hcomp.
        pose proof (proj1 (existsb_eqb_In p completionModels) Hcomp) as Hin.
        split; [reflexivity|]. split; [now right|].
        split; [split; [intros q [= <-] _ Hn; contradiction | discriminate]|].
        split; [reflexivity|]. unfold getCompletionsUrl. cbn [model_type].
        split; [intros _; now exists p | reflexivity].
      * cbn [vendor model_type model_value].
        split; [reflexivity|]. split; [left; split; [cbn; tauto | reflexivity]|].
        split; [split; reflexivity|].
        split; [reflexivity|]. unfold getCompletionsUrl. cbn [model_type].
        split; [discriminate|]. intros (q & [= <-] & Hq).
        apply existsb_eqb_In in Hq. congruence.
  - cbn [vendor model_type model_value].
    split; [reflexivity|]. split; [left; split; [cbn; tauto | reflexivity]|].
    split; [split; reflexivity|]. split; [reflexivity|].
    unfold getCompletionsUrl. cbn [model_type].
    split; [discriminate|]. intros (q & [=] & _).
Qed.

End ModelFacts.

(** ** The order of the items in the pool *)

Section PoolOrderFacts.
Import JsString Utils Training.

Variable minimatch : string -> string -> bool.
Variable URL_pathname : string -> option string.
Variable createChecksum : string -> string.
Variable includeGlobs excludeGlobs : list string.
Variable QUOTA : string.

Local Abbreviation start :=
  (startFile minimatch URL_pathname includeGlobs excludeGlobs).
Local Abbreviation resume := (resumeFile createChecksum QUOTA).
Local Abbreviation exec' :=
  (exec minimatch URL_pathname createChecksum includeGlobs excludeGlobs QUOTA).
Local Abbreviation startRun' :=
  (startRun minimatch URL_pathname includeGlobs excludeGlobs).
Local Abbreviation Shape := (ProcessedShape QUOTA).

Lemma fetchedItems_app (t u : list Event) :
  fetchedItems (t ++ u) = (fetchedItems t ++ fetchedItems u)%list.
Proof. apply flat_map_app. Qed.

Lemma ascending_snoc (l : list nat) (x : nat) :
  ascending l -> (forall y, In y l -> y < x) -> ascending (l ++ [x]).
Proof.
  induction l as [|a l IH]; intros Hasc Hlt.
  - cbn. split; [intros y [] | exact I].
  - destruct Hasc as [Ha Hl]. cbn [app ascending]. split.
    + intros y Hy. apply in_app_or in Hy. destruct Hy as [Hy|[<-|[]]].
      * now apply Ha.
      * apply Hlt. now left.
    + apply IH; [exact Hl|]. intros y Hy. apply Hlt. now right.
Qed.

Lemma countOf_app (f : Event -> bool) (k : nat) (t u : list Event) :
  countOf f k (t ++ u) = countOf f k t + countOf f k u.
Proof. apply countEvents_app. Qed.

(** The events of the last stretch of an item. *)
Lemma processed_events (index k : nat) (file : FileData) (p p' : Provider)
    (res : Promise unit) :
  Shape index file p p' res ->
  exists evs,
    trace p' = (trace p ++ evs)%list /\
    fetchedItems evs = [] /\
    countOf isFetchContent k evs = 0 /\
    countOf isProcessFile k evs = 0 /\
    countOf isFileProcessed k evs = (if (index =? k)%nat then 1 else 0).
Proof.
  intros [|e Hq|e Hq].
  - exists [EvFileProcessed index]. cbn.
    destruct (index =? k)%nat; repeat split.
  - exists [EvToastQuota index; EvFileProcessed index]. cbn.
    rewrite <- app_assoc. destruct (index =? k)%nat; repeat split.
  - exists [EvConsoleErrorMessage index (errorMessage file e);
            EvToastError index (toastMessage file e); EvFileProcessed index].
    cbn. rewrite <- !app_assoc. destruct (index =? k)%nat; repeat split.
Qed.

Lemma order_holds (job : Job) (schedule : list Action) (p : Provider) :
  holds (InvOrder (numFiles job) (trace p))
    (exec' job schedule (startRun' job p)).
Proof.
  assert (Hss : forall index q p0 act p' ph,
             InvOrder (numFiles job) (trace p) p0 (index :: q) act ->
             List.length act < concurrency ->
             start job index p0 = (p', Suspended ph) ->
             InvOrder (numFiles job) (trace p) p' q (act ++ [(index, ph)])).
  { intros index q p0 act p' ph (new & next & Ht & Hq & Hle & Hasc & Hlt) _ Hs.
    apply start_suspended in Hs. destruct Hs as (_ & _ & -> & ->).
    destruct (numFiles job - next) as [|m] eqn:Hm; [discriminate|].
    cbn [seq] in Hq. injection Hq as -> ->.
    exists (new ++ [EvFetchContent next])%list, (S next).
    cbn [trace emit setState]. rewrite Ht, <- app_assoc.
    split; [reflexivity|].
    split; [f_equal; lia|]. split; [lia|].
    rewrite fetchedItems_app. cbn [fetchedItems flat_map app]. split.
    - now apply ascending_snoc.
    - intros i Hi. apply in_app_or in Hi.
      destruct Hi as [Hi|[<-|[]]]; [specialize (Hlt i Hi)|]; lia. }
  assert (Hsf : forall index q p0 act p' res,
             InvOrder (numFiles job) (trace p) p0 (index :: q) act ->
             List.length act < concurrency ->
             start job index p0 = (p', Finished res) ->
             InvOrder (numFiles job) (trace p) p' q act).
  { intros index q p0 act p' res (new & next & Ht & Hq & Hle & Hasc & Hlt) _ Hs.
    apply start_finished in Hs. destruct Hs as (-> & _ & _).
    destruct (numFiles job - next) as [|m] eqn:Hm; [discriminate|].
    cbn [seq] in Hq. injection Hq as -> ->.
    exists new, (S next). split; [exact Ht|].
    split; [f_equal; lia|]. split; [lia|]. split; [exact Hasc|].
    intros i Hi. specialize (Hlt i Hi). lia. }
  apply exec_preserves; try assumption.
  - intros index ph q p0 act p' ph'
      (new & next & Ht & Hq & Hle & Hasc & Hlt) Hl Hr.
    destruct ph as [path prev|file].
    + apply resume_content_suspended in Hr.
      destruct Hr as (name & content & _ & _ & -> & ->).
      exists (new ++ [EvProcessFile (sourceId job) index
                        {| path := path; name := name;
                           content := content |}])%list, next.
      cbn [trace emit]. rewrite Ht, <- app_assoc.
      rewrite fetchedItems_app. cbn [fetchedItems flat_map app].
      rewrite app_nil_r. repeat split; assumption.
    + apply resume_process_finished in Hr. destruct Hr as (res & [=] & _).
  - intros index ph q p0 act p' res
      (new & next & Ht & Hq & Hle & Hasc & Hlt) Hl Hr.
    destruct ph as [path prev|file].
    + apply resume_content_finished in Hr. destruct Hr as [-> _].
      exists new, next. repeat split; assumption.
    + apply resume_process_finished in Hr.
      destruct Hr as (res' & _ & Hshape).
      apply (processed_events index 0) in Hshape.
      destruct Hshape as (evs & Hevs & Hfetch & _).
      exists (new ++ evs)%list, next. rewrite Hevs, Ht, <- app_assoc.
      rewrite fetchedItems_app, Hfetch, app_nil_r.
      repeat split; assumption.
  - intros q p0 act (new & next & H). exists new, next. exact H.
  - intros q p0 act (new & next & H). exists new, next. exact H.
  - intros q p0 act e (new & next & Ht & Hq & Hle & Hasc & Hlt).
    exists (new ++ [EvConsoleError e])%list, next.
    cbn [trace emit]. rewrite Ht, <- app_assoc.
    rewrite fetchedItems_app. cbn [fetchedItems flat_map app].
    rewrite app_nil_r. repeat split; assumption.
  - apply startRun_holds; try assumption.
    exists [], 0. cbn [trace setStopFlag setErrors].
    rewrite app_nil_r, Nat.sub_0_r.
    repeat split; try lia. intros i [].
Qed.

(** X17.  Along every schedule of one call the contents of the items are
    asked for in the order of the indices, whatever the order in which
    the promises settle: no content is asked for twice, and none for an
    index outside the job. *)
Theorem contents_fetched_in_order (job : Job) (schedule : list Action)
    (p : Provider) :
  exists new,
    trace (provider (exec' job schedule (startRun' job p)))
    = (trace p ++ new)%list /\
    ascending (fetchedItems new) /\
    (forall i, In i (fetchedItems new) -> i < numFiles job).
Proof.
  destruct (order_holds job schedule p)
    as (new & next & Ht & _ & Hle & Hasc & Hlt).
  exists new. split; [exact Ht|]. split; [exact Hasc|].
  intros i Hi. specialize (Hlt i Hi). lia.
Qed.

(** *** One item at a time *)

Lemma countActive_app (g : nat * Phase -> bool) (act : list (nat * Phase))
    (x : nat * Phase) :
  countActive g (act ++ [x]) = countActive g act + (if g x then 1 else 0).
Proof.
  unfold countActive. rewrite filter_app, length_app. cbn.
  now destruct (g x).
Qed.

Lemma countActive_remove (g : nat * Phase -> bool) (index : nat) (ph : Phase)
    (act : list (nat * Phase)) :
  lookupActive index act = Some ph ->
  countActive g (removeActive index act) + (if g (index, ph) then 1 else 0)
  = countActive g act.
Proof.
  unfold countActive.
  induction act as [|[i ph0] act IH]; cbn [lookupActive removeActive];
    [discriminate|].
  destruct (Nat.eqb_spec i index) as [->|].
  - intros [= ->]. cbn [filter]. destruct (g (index, ph)); simpl; lia.
  - intros H. specialize (IH H). cbn [filter].
    destruct (g (i, ph0)); simpl; lia.
Qed.

Lemma countActive_replace (g : nat * Phase -> bool) (index : nat)
    (ph ph' : Phase) (act : list (nat * Phase)) :
  lookupActive index act = Some ph ->
  countActive g (replaceActive index ph' act)
  + (if g (index, ph) then 1 else 0)
  = countActive g act + (if g (index, ph') then 1 else 0).
Proof.
  unfold countActive.
  induction act as [|[i ph0] act IH]; cbn [lookupActive replaceActive];
    [discriminate|].
  destruct (Nat.eqb_spec i index) as [->|].
  - intros [= ->]. cbn [filter].
    destruct (g (index, ph)), (g (index, ph')); simpl; lia.
  - intros H. specialize (IH H). cbn [filter].
    destruct (g (i, ph0)); simpl; lia.
Qed.

Lemma count_occ_seq (k start len : nat) :
  count_occ Nat.eq_dec (seq start len) k <= 1.
Proof.
  pose proof (seq_NoDup len start) as H.
  now apply (NoDup_count_occ Nat.eq_dec).
Qed.

Lemma countOf_single (f : Event -> bool) (k : nat) (e : Event) :
  countOf f k [e]
  = if f e && match eventItem e with
              | Some i => (i =? k)%nat
              | None => false
              end
    then 1 else 0.
Proof.
  unfold countOf, countEvents. cbn [filter].
  now destruct (f e && _).
Qed.

Lemma awaitsContent_pair (k index : nat) (ph : Phase) :
  awaitsContent k (index, ph) = (index =? k)%nat && isAwaitContent ph.
Proof. reflexivity. Qed.

Lemma awaitsProcess_pair (k index : nat) (ph : Phase) :
  awaitsProcess k (index, ph) = (index =? k)%nat && isAwaitProcess ph.
Proof. reflexivity. Qed.

Local Ltac count_simpl :=
  rewrite ?countOf_app, ?countOf_single, ?countActive_app;
  rewrite ?awaitsContent_pair, ?awaitsProcess_pair in *;
  cbn [isFetchContent isProcessFile isFileProcessed eventItem
         isAwaitContent isAwaitProcess andb] in *.

Lemma once_holds (job : Job) (k : nat) (schedule : list Action)
    (p : Provider) :
  holds (InvOnce k (trace p)) (exec' job schedule (startRun' job p)).
Proof.
  assert (Hss : forall index q p0 act p' ph,
             InvOnce k (trace p) p0 (index :: q) act ->
             List.length act < concurrency ->
             start job index p0 = (p', Suspended ph) ->
             InvOnce k (trace p) p' q (act ++ [(index, ph)])).
  { intros index q p0 act p' ph (new & Ht & H1 & H2 & H3) _ Hs.
    apply start_suspended in Hs. destruct Hs as (_ & _ & -> & ->).
    exists (new ++ [EvFetchContent index])%list. cbn [trace emit setState].
    rewrite Ht, <- app_assoc. split; [reflexivity|].
    cbn [count_occ] in H1. count_simpl.
    destruct (Nat.eq_dec index k) as [->|Hne].
    - rewrite Nat.eqb_refl. cbn [andb]. lia.
    - destruct (Nat.eqb_spec index k); [contradiction|]. cbn [andb]. lia. }
  assert (Hsf : forall index q p0 act p' res,
             InvOnce k (trace p) p0 (index :: q) act ->
             List.length act < concurrency ->
             start job index p0 = (p', Finished res) ->
             InvOnce k (trace p) p' q act).
  { intros index q p0 act p' res (new & Ht & H1 & H2 & H3) _ Hs.
    apply start_finished in Hs. destruct Hs as (-> & _ & _).
    exists new. cbn [count_occ] in H1.
    destruct (Nat.eq_dec index k); repeat split; try assumption; lia. }
  apply exec_preserves; try assumption.
  - intros index ph q p0 act p' ph' (new & Ht & H1 & H2 & H3) Hl Hr.
    destruct ph as [path prev|file].
    + apply resume_content_suspended in Hr.
      destruct Hr as (name & content & _ & _ & -> & ->).
      exists (new ++ [EvProcessFile (sourceId job) index
                        {| path := path; name := name;
                           content := content |}])%list.
      cbn [trace emit]. rewrite Ht, <- app_assoc. split; [reflexivity|].
      pose proof (countActive_replace (awaitsContent k) index _
                    (AwaitProcess {| path := path; name := name;
                                     content := content |}) act Hl) as Hc.
      pose proof (countActive_replace (awaitsProcess k) index _
                    (AwaitProcess {| path := path; name := name;
                                     content := content |}) act Hl) as Hp.
      count_simpl.
      destruct (index =? k)%nat; cbn [andb] in *; lia.
    + apply resume_process_finished in Hr. destruct Hr as (res & [=] & _).
  - intros index ph q p0 act p' res (new & Ht & H1 & H2 & H3) Hl Hr.
    pose proof (countActive_remove (awaitsContent k) index _ act Hl) as Hc.
    pose proof (countActive_remove (awaitsProcess k) index _ act Hl) as Hp.
    destruct ph as [path prev|file].
    + apply resume_content_finished in Hr. destruct Hr as [-> _].
      exists new. count_simpl.
      destruct (index =? k)%nat; cbn [andb] in *;
        repeat split; try assumption; lia.
    + apply resume_process_finished in Hr.
      destruct Hr as (res' & _ & Hshape).
      apply (processed_events index k) in Hshape.
      destruct Hshape as (evs & Hevs & _ & Hf & Hs & Hcb).
      exists (new ++ evs)%list. rewrite Hevs, Ht, <- app_assoc.
      split; [reflexivity|]. rewrite !countOf_app, Hf, Hs, Hcb.
      count_simpl.
      destruct (index =? k)%nat; cbn [andb] in *; lia.
  - intros q p0 act (new & Ht & H). exists new. now split.
  - intros q p0 act (new & Ht & H). exists new. now split.
  - intros q p0 act e (new & Ht & H1 & H2 & H3).
    exists (new ++ [EvConsoleError e])%list. cbn [trace emit].
    rewrite Ht, <- app_assoc. split; [reflexivity|].
    count_simpl. lia.
  - apply startRun_holds; try assumption.
    exists []. cbn [trace setStopFlag setErrors]. rewrite app_nil_r.
    pose proof (count_occ_seq k 0 (numFiles job)).
    cbn. repeat split; lia.
Qed.

(** X18.  Along every schedule of one call, each item has its content asked
    for at most once, is submitted at most once and only after its
    content was asked for, and has the callback called at most once and
    only after its submission. *)
Theorem item_handled_once (job : Job) (index : nat) (schedule : list Action)
    (p : Provider) :
  exists new,
    trace (provider (exec' job schedule (startRun' job p)))
    = (trace p ++ new)%list /\
    countOf isFileProcessed index new <= countOf isProcessFile index new /\
    countOf isProcessFile index new <= countOf isFetchContent index new /\
    countOf isFetchContent index new <= 1.
Proof.
  destruct (once_holds job index schedule p) as (new & Ht & H1 & H2 & H3).
  exists new. split; [exact Ht|]. lia.
Qed.

(** *** The progress shown *)

Lemma progress_holds (job : Job) (schedule : list Action) (p : Provider) :
  holds (InvProgress job (state p)) (exec' job schedule (startRun' job p)).
Proof.
  assert (Hss : forall index q p0 act p' ph,
             InvProgress job (state p) p0 (index :: q) act ->
             List.length act < concurrency ->
             start job index p0 = (p', Suspended ph) ->
             InvProgress job (state p) p' q (act ++ [(index, ph)])).
  { intros index q p0 act p' ph [_ Hq] _ Hs.
    apply start_suspended in Hs. destruct Hs as (_ & _ & _ & ->).
    split; [|intros i Hi; apply Hq; now right].
    right. cbn [state emit setState showsItemOf].
    pose proof (Hq index (or_introl eq_refl)).
    replace (index + 1 - 1) with index by lia.
    repeat split; lia. }
  assert (Hsf : forall index q p0 act p' res,
             InvProgress job (state p) p0 (index :: q) act ->
             List.length act < concurrency ->
             start job index p0 = (p', Finished res) ->
             InvProgress job (state p) p' q act).
  { intros index q p0 act p' res [Hstate Hq] _ Hs.
    apply start_finished in Hs. destruct Hs as (-> & _ & _).
    split; [exact Hstate | intros i Hi; apply Hq; now right]. }
  apply exec_preserves; try assumption.
  - intros index ph q p0 act p' ph' [Hstate Hq] Hl Hr.
    destruct ph as [path prev|file].
    + apply resume_content_suspended in Hr.
      destruct Hr as (name & content & _ & _ & _ & ->).
      split; assumption.
    + apply resume_process_finished in Hr. destruct Hr as (res & [=] & _).
  - intros index ph q p0 act p' res [Hstate Hq] Hl Hr.
    destruct ph as [path prev|file].
    + apply resume_content_finished in Hr. destruct Hr as [-> _].
      split; assumption.
    + apply resume_process_finished in Hr.
      destruct Hr as (res' & _ & [|e Hquota|e Hquota]);
        (split; [|exact Hq]); try exact Hstate.
      right. exact I.
  - intros q p0 act [_ Hq]. split; [right; exact I | exact Hq].
  - intros q p0 act [_ Hq]. split; [right; exact I | exact Hq].
  - intros q p0 act e [Hstate Hq]. split; assumption.
  - apply startRun_holds; try assumption.
    split; [now left|]. intros i Hi. apply in_seq in Hi. lia.
Qed.

(** X19.  Whenever the state shows a progress that the call has set, the
    position shown is that of an item of the job, between 1 and the
    number of items, the total is the number of items and the name is
    the last segment of the path of that item. *)
Theorem progress_shows_an_item (job : Job) (schedule : list Action)
    (p : Provider) (progress total : nat) (filename : string) :
  state (provider (exec' job schedule (startRun' job p)))
  = Loading progress total filename ->
  state p = Loading progress total filename \/
  (1 <= progress <= numFiles job /\ total = numFiles job /\
   filename = getNameFromPath (getFilePath job (progress - 1))).
Proof.
  intros Hstate. destruct (progress_holds job schedule p) as [[H|H] _].
  - left. congruence.
  - right. rewrite Hstate in H. cbn [showsItemOf] in H.
    destruct H as (H1 & -> & H3). repeat split; try lia. exact H3.
Qed.

End PoolOrderFacts.

(** ** What a call logs *)

Section LogFacts.
Import JsString Utils Training.

Variable minimatch : string -> string -> bool.
Variable URL_pathname : string -> option string.
Variable createChecksum : string -> string.
Variable includeGlobs excludeGlobs : list string.
Variable QUOTA : string.

Local Abbreviation start :=
  (startFile minimatch URL_pathname includeGlobs excludeGlobs).
Local Abbreviation resume := (resumeFile createChecksum QUOTA).
Local Abbreviation pump' :=
  (pump minimatch URL_pathname includeGlobs excludeGlobs).
Local Abbreviation pumped' :=
  (pumped minimatch URL_pathname includeGlobs excludeGlobs).
Local Abbreviation step' :=
  (step minimatch URL_pathname createChecksum includeGlobs excludeGlobs QUOTA).
Local Abbreviation exec' :=
  (exec minimatch URL_pathname createChecksum includeGlobs excludeGlobs QUOTA).
Local Abbreviation startRun' :=
  (startRun minimatch URL_pathname includeGlobs excludeGlobs).


(** The limiter logs nothing and leaves the rejection as it is. *)
Lemma pump_log (job : Job) (q : list nat) (p : Provider)
    (act : list (nat * Phase)) (rej : option ApiError) :
  match pump' job q p act rej with
  | (p', _, _, rej') =>
      rej' = rej /\
      exists evs, trace p' = (trace p ++ evs)%list /\ consoleErrors evs = []
  end.
Proof.
  revert p act; induction q as [|index q IH]; intros p act; cbn [pump].
  - split; [reflexivity|]. exists []. now rewrite app_nil_r.
  - destruct (List.length act <? concurrency)%nat.
    2:{ split; [reflexivity|]. exists []. now rewrite app_nil_r. }
    destruct (start job index p) as [p1 [ph|res]] eqn:Hs.
    + apply start_suspended in Hs. destruct Hs as (_ & _ & _ & ->).
      specialize (IH (emit (EvFetchContent index)
                        (setState (Loading (index + 1) (numFiles job)
                                     (getNameFromPath (getFilePath job index)))
                           p))
                    (act ++ [(index, ph)])%list).
      destruct (pump' job q _ _ rej) as [[[p' q'] act'] rej'].
      destruct IH as (-> & evs & Ht & Hc). split; [reflexivity|].
      exists (EvFetchContent index :: evs). rewrite Ht.
      cbn [trace emit setState]. rewrite <- app_assoc.
      split; [reflexivity | exact Hc].
    + apply start_finished in Hs. destruct Hs as (-> & -> & _).
      replace (noteSettled (Resolves tt) rej) with rej by (now destruct rej).
      apply IH.
Qed.






(** *** The lines of the items *)









End LogFacts.

(** Seven pages: the limiter starts five of them, and the state shows
    the fifth. *)
Lemma progress_shows_an_item_witness :
  Training.state Scenario.idle = Training.Loading 5 7 "pe" \/
  (1 <= 5 <= Training.numFiles Scenario.sevenPagesJob /\
   7 = Training.numFiles Scenario.sevenPagesJob /\
   "pe" = Utils.getNameFromPath
            (Training.getFilePath Scenario.sevenPagesJob (5 - 1))).
Proof.
  apply (progress_shows_an_item Reference.globMatch Reference.pathnameOf
           Scenario.checksumOf Scenario.includeGlobs Scenario.excludeGlobs
           Scenario.QUOTA Scenario.sevenPagesJob [] Scenario.idle 5 7 "pe").
  vm_compute. reflexivity.
Defined.

(** ** A stop request and the next call *)

Section StopFacts.
Import JsString Utils Training.

Variable minimatch : string -> string -> bool.
Variable URL_pathname : string -> option string.
Variable includeGlobs excludeGlobs : list string.

Local Abbreviation start :=
  (startFile minimatch URL_pathname includeGlobs excludeGlobs).
Local Abbreviation pump' :=
  (pump minimatch URL_pathname includeGlobs excludeGlobs).
Local Abbreviation startRun' :=
  (startRun minimatch URL_pathname includeGlobs excludeGlobs).

Lemma pump_stopFlag (job : Job) (q : list nat) (p : Provider)
    (act : list (nat * Phase)) (rej : option ApiError) :
  match pump' job q p act rej with
  | (p', _, _, _) => stopFlag p' = stopFlag p
  end.
Proof.
  revert p act rej; induction q as [|index q IH]; intros p act rej;
    cbn [pump]; [reflexivity|].
  destruct (List.length act <? concurrency)%nat; [|reflexivity].
  destruct (start job index p) as [p1 [ph|res]] eqn:Hs.
  - apply start_suspended in Hs. destruct Hs as (_ & _ & _ & ->).
    specialize (IH (emit (EvFetchContent index)
                      (setState (Loading (index + 1) (numFiles job)
                                   (getNameFromPath (getFilePath job index)))
                         p))
                  (act ++ [(index, ph)])%list rej).
    destruct (pump' job q _ _ rej) as [[[p' q'] act'] rej']. exact IH.
  - apply start_finished in Hs. destruct Hs as (-> & _ & _). apply IH.
Qed.

(** X21.  A call of [generateEmbeddings] lowers the stop flag before it starts
    its items.  So a stop request made before the call, for instance
    between two rounds of the link discovery or between two sources, is
    dropped: the call runs as if the request had not been made, and when
    its first item passes the path filter it asks for the content of that
    item. *)
Theorem stop_request_is_dropped_by_next_call (job : Job) (p : Provider) :
  startRun' job (stopGeneratingEmbeddings p)
  = startRun' job (setState CancelRequested p) /\
  stopFlag (provider (startRun' job (stopGeneratingEmbeddings p))) = false /\
  (0 < numFiles job ->
   shouldIncludeFileWithPath minimatch URL_pathname (getFilePath job 0)
     includeGlobs excludeGlobs (isWebsite (sourceType job)) = true ->
   exists evs,
     trace (provider (startRun' job (stopGeneratingEmbeddings p)))
     = (trace p ++ EvFetchContent 0 :: evs)%list).
Proof.
  split; [reflexivity|]. split.
  - unfold startRun, beginRun, pumped. cbn [queue provider active rejection].
    match goal with
    | |- context [pump' job ?q ?p0 ?act ?rej] =>
        pose proof (pump_stopFlag job q p0 act rej) as H;
        destruct (pump' job q p0 act rej) as [[[p' q'] act'] rej']
    end.
    exact H.
  - intros Hn Hacc. unfold startRun, beginRun, pumped.
    cbn [queue provider active rejection].
    destruct (numFiles job) as [|n] eqn:Hfiles; [lia|].
    cbn [seq pump List.length Nat.ltb Nat.leb concurrency].
    unfold startFile at 1.
    cbn [stopFlag setStopFlag setErrors stopGeneratingEmbeddings setState].
    rewrite Hacc. cbn [negb].
    match goal with
    | |- context [pump' job ?q ?p0 ?act ?rej] =>
        pose proof (pump_log minimatch URL_pathname includeGlobs excludeGlobs
                      job q p0 act rej) as H;
        destruct (pump' job q p0 act rej) as [[[p' q'] act'] rej']
    end.
    destruct H as (_ & evs & Ht & _). exists evs. cbn [provider].
    rewrite Ht. cbn [trace emit setState setStopFlag setErrors].
    now rewrite <- app_assoc.
Qed.

End StopFacts.

(** Seven pages, after a stop request. *)
Lemma stop_request_is_dropped_by_next_call_witness :
  exists evs,
    Training.trace
      (Training.provider
         (Training.startRun Reference.globMatch Reference.pathnameOf
            Scenario.includeGlobs Scenario.excludeGlobs
            Scenario.sevenPagesJob
            (Training.stopGeneratingEmbeddings Scenario.idle)))
    = (Training.trace Scenario.idle ++ Training.EvFetchContent 0 :: evs)%list.
Proof.
  apply (stop_request_is_dropped_by_next_call Reference.globMatch
           Reference.pathnameOf Scenario.includeGlobs Scenario.excludeGlobs
           Scenario.sevenPagesJob Scenario.idle).
  - vm_compute. lia.
  - vm_compute. reflexivity.
Defined.

(** ** The link discovery on concrete sites *)

(** The site of two pages, each with a link to the other: from the
    documentation page the discovery does not run out of its three
    rounds, and it ends after two. *)
Lemma discoverLinks_terminates_witness :
  ScenarioExtra.crawl 3 <> Training.OutOfFuel /\
  List.length (Training.rounds ScenarioExtra.crawlOutcome) <= 2.
Proof.
  assert (H := discoverLinks_terminates Reference.globMatch
                 Reference.pathnameOf Scenario.checksumOf
                 Scenario.includeGlobs Scenario.excludeGlobs
                 Scenario.QUOTA (Some "project") Reference.protocolHostnameOf
                 Reference.schemaRemoved Scenario.site Scenario.hrefsOf false
                 (fun _ _ => []) Scenario.allProcessed
                 [Scenario.docsUrl; Scenario.pageUrl]
                 "site" Scenario.docsUrl Scenario.docsUrl).
  destruct H as (Hfuel & _ & Hrounds).
  - now left.
  - intros page content href [<-|[<-|[]]] Hfetch Hhref _;
      vm_compute in Hfetch; injection Hfetch as <-;
      vm_compute in Hhref; destruct Hhref as [<-|Hhref];
      try destruct Hhref as [<-|[]]; try destruct Hhref;
      vm_compute; first [left; reflexivity | right; left; reflexivity].
  - split; [apply Hfuel|].
    apply (Hrounds 10 (Scenario.orchestrator
                         [Scenario.oneItem; Scenario.twoItems])).
    vm_compute. reflexivity.
Defined.

(** The site of two pages: the rounds of the discovery are fresh. *)
Lemma discoverLinks_fresh_witness :
  exists rs,
    Training.rounds ScenarioExtra.crawlOutcome
    = (Training.rounds (Scenario.orchestrator
                          [Scenario.oneItem; Scenario.twoItems]) ++ rs)%list /\
    freshRounds [] rs.
Proof.
  apply (discoverLinks_fresh Reference.globMatch Reference.pathnameOf
           Scenario.checksumOf Scenario.includeGlobs Scenario.excludeGlobs
           Scenario.QUOTA (Some "project") Reference.protocolHostnameOf
           Reference.schemaRemoved Scenario.site Scenario.hrefsOf false
           (fun _ _ => []) Scenario.allProcessed
           10 "site" Scenario.docsUrl [] [Scenario.docsUrl]).
  - intros link _ [].
  - vm_compute. reflexivity.
Defined.
